(** * Paired-single floating-point execution core (decaf-emu, libcpu)

    A shallow embedding of the interpreter's paired-single executors
    (interpreter_pairedsingle.cpp) and of the scalar fused multiply-add
    emitters of the JIT (jit/jit_float.cpp).

    Values are kept as the code keeps them: a [double] is its 64-bit
    pattern and a [float] its 32-bit pattern, both as [Z]; the FPSCR is a
    record of its bit fields; executors pass the thread state explicitly.
    The host floating-point unit is an interface ([HostFPU]) with one
    executable instance ([sse2]) built on the Standard Library's
    [SpecFloat]. *)

From Stdlib Require Import ZArith Bool Lia List.
From Stdlib Require Import Floats.SpecFloat.
From Stdlib Require Import Btauto.
From coqutil Require Import Z.bitblast.

Local Open Scope Z_scope.
Local Open Scope bool_scope.

(** ** Bit-level view of IEEE-754 values (utils/floatutils.h) *)

Module FloatBits.

(** Field accessors of [FloatBitsDouble]: mantissa:52, exponent:11, sign:1. *)
Definition exponent (v : Z) : Z := Z.land (Z.shiftr v 52) (Z.ones 11).
Definition mantissa (v : Z) : Z := Z.land v (Z.ones 52).
Definition quiet (v : Z) : bool := Z.testbit v 51.

(** Field accessors of [FloatBitsSingle]: mantissa:23, exponent:8, sign:1. *)
Definition exponent_f (v : Z) : Z := Z.land (Z.shiftr v 23) (Z.ones 8).
Definition mantissa_f (v : Z) : Z := Z.land v (Z.ones 23).
Definition quiet_f (v : Z) : bool := Z.testbit v 22.

(** Modelled from the spec: the classifiers of utils/floatutils.h, which is
    not among the sources.  They are the IEEE-754 predicates the spec names
    in its value model, on the 64-bit pattern of a double. *)
Definition is_nan (v : Z) : bool :=
  (exponent v =? 0x7FF) && negb (mantissa v =? 0).

Definition is_infinity (v : Z) : bool :=
  (exponent v =? 0x7FF) && (mantissa v =? 0).

Definition is_zero (v : Z) : bool :=
  (exponent v =? 0) && (mantissa v =? 0).

(** [std::signbit] on a double. *)
Definition signbit (v : Z) : bool := Z.testbit v 63.

(** Modelled from the spec: [is_signalling_nan(x)] is true iff [x] is a NaN
    and its most-significant mantissa bit is 0. *)
Definition is_signalling_nan (v : Z) : bool := is_nan v && negb (quiet v).

(** The same predicates on the 32-bit pattern of a float. *)
Definition is_nan_f (v : Z) : bool :=
  (exponent_f v =? 0xFF) && negb (mantissa_f v =? 0).

Definition is_signalling_nan_f (v : Z) : bool := is_nan_f v && negb (quiet_f v).

(** Modelled from the spec: [make_quiet(f32)] sets the most-significant
    mantissa bit. *)
Definition make_quiet (v : Z) : Z := Z.lor v 0x00400000.

(** Modelled from the spec: [make_nan<float>()], the quiet NaN constant
    (the pattern of [std::numeric_limits<float>::quiet_NaN()]). *)
Definition make_nan : Z := 0x7FC00000.

(** Modelled from the spec: [truncate_double_bits(u64) -> u32] is the
    bit-level truncation sign(1) || exp(8, rebiased from 11-bit) ||
    mantissa high-23.  The rebias keeps the top bit of the exponent and its
    low seven bits: that subtracts 896 on the single-precision exponent
    range and sends the all-ones exponent to all-ones
    ([truncate_exponent_rebias], [truncate_exponent_nan]). *)
Definition truncate_double_bits (v : Z) : Z :=
  Z.lor (Z.land (Z.shiftr v 32) 0xC0000000) (Z.land (Z.shiftr v 29) 0x3FFFFFFF).

(** The rebias of [truncate_double_bits] on the 11-bit exponent alone. *)
Definition rebias_exponent (e : Z) : Z :=
  Z.lor (Z.shiftl (Z.land (Z.shiftr e 10) 1) 7) (Z.land e 0x7F).

(** Modelled from the spec: [extend_float_nan_bits(u32) -> u64] is the
    inverse of [truncate_double_bits] for NaN payloads: the sign, an
    all-ones 11-bit exponent, and the 23 mantissa bits on top of the 52. *)
Definition extend_float_nan_bits (v : Z) : Z :=
  Z.lor (Z.shiftl (Z.land v 0x80000000) 32)
        (Z.lor 0x7FF0000000000000 (Z.shiftl (Z.land v 0x007FFFFF) 29)).

(** Modelled from the spec: [truncate_double(f64) -> f32].  The spec gives
    two readings: its section 4.1 says IEEE round-to-nearest-even, its
    sections 4.6 and 8 say bit-truncation of the mantissa.  The callers in
    the source settle it: [mergeGeneric] comments that "the mantissa is
    truncated rather than rounded", and every executor calls
    [truncate_double] exactly where [static_cast<float>] (the rounding
    conversion, which would also quiet a signalling NaN) must be avoided.
    So it is the float whose pattern is [truncate_double_bits]. *)
Definition truncate_double (v : Z) : Z := truncate_double_bits v.

End FloatBits.
Export FloatBits.

(** ** The host floating-point environment

    The executors run on the host's IEEE-754 unit and read the host's
    exception flags ([std::fetestexcept], [std::feclearexcept]).  [FEnv] is
    the set of raised flags; every host operation returns its value together
    with the flags it raises, which the caller accumulates. *)

Record FEnv : Type := mkFEnv {
  FE_INVALID : bool;
  FE_DIVBYZERO : bool;
  FE_OVERFLOW : bool;
  FE_UNDERFLOW : bool;
  FE_INEXACT : bool
}.

Definition fe_none : FEnv := mkFEnv false false false false false.

Definition fe_or (x y : FEnv) : FEnv :=
  mkFEnv (FE_INVALID x || FE_INVALID y) (FE_DIVBYZERO x || FE_DIVBYZERO y)
         (FE_OVERFLOW x || FE_OVERFLOW y) (FE_UNDERFLOW x || FE_UNDERFLOW y)
         (FE_INEXACT x || FE_INEXACT y).

(** [std::feclearexcept(FE_INEXACT)] and [std::feclearexcept(FE_OVERFLOW)]. *)
Definition feclear_inexact (e : FEnv) : FEnv :=
  mkFEnv (FE_INVALID e) (FE_DIVBYZERO e) (FE_OVERFLOW e) (FE_UNDERFLOW e) false.

Definition feclear_overflow (e : FEnv) : FEnv :=
  mkFEnv (FE_INVALID e) (FE_DIVBYZERO e) false (FE_UNDERFLOW e) (FE_INEXACT e).

(** The primitives the executors use, on bit patterns.  [fp_add] to [fp_div]
    and [fp_fma] are the C++ operators and [std::fma] on [double];
    [fp_narrow] is [static_cast<float>(double)], [fp_widen] is
    [static_cast<double>(float)]; [fp_divf], [fp_sqrtf] and [fp_gef] are
    [/], [std::sqrt] and [>=] on [float]. *)
Record HostFPU : Type := mkHostFPU {
  fp_add : Z -> Z -> Z * FEnv;
  fp_sub : Z -> Z -> Z * FEnv;
  fp_mul : Z -> Z -> Z * FEnv;
  fp_div : Z -> Z -> Z * FEnv;
  fp_fma : Z -> Z -> Z -> Z * FEnv;
  fp_narrow : Z -> Z * FEnv;
  fp_widen : Z -> Z * FEnv;
  fp_divf : Z -> Z -> Z * FEnv;
  fp_sqrtf : Z -> Z * FEnv;
  fp_gef : Z -> Z -> bool * FEnv
}.

(** ** An executable host: IEEE-754 binary32/binary64, round to nearest even

    The instance [sse2] follows scalar SSE2 arithmetic with the default
    control word (round to nearest even, exceptions masked, tininess
    detected after rounding).  Values are computed by [SpecFloat]. *)

Module IEEE.

Record format : Type := mkFormat { prec : Z; ebits : Z }.

Definition binary32 : format := mkFormat 24 8.
Definition binary64 : format := mkFormat 53 11.

Definition emax (f : format) : Z := 2 ^ (ebits f - 1).
Definition mbits (f : format) : Z := prec f - 1.
Definition femin (f : format) : Z := SpecFloat.emin (prec f) (emax f).

Definition sign_of (f : format) (v : Z) : bool := Z.testbit v (mbits f + ebits f).
Definition exp_of (f : format) (v : Z) : Z := Z.land (Z.shiftr v (mbits f)) (Z.ones (ebits f)).
Definition man_of (f : format) (v : Z) : Z := Z.land v (Z.ones (mbits f)).

Definition sign_bit (f : format) (s : bool) : Z :=
  if s then Z.shiftl 1 (mbits f + ebits f) else 0.

Definition nan_of (f : format) (v : Z) : bool :=
  (exp_of f v =? Z.ones (ebits f)) && negb (man_of f v =? 0).

Definition snan_of (f : format) (v : Z) : bool :=
  nan_of f v && negb (Z.testbit v (mbits f - 1)).

Definition quieted (f : format) (v : Z) : Z := Z.lor v (Z.shiftl 1 (mbits f - 1)).

(** The NaN an invalid operation produces (sign set, quiet bit set, empty
    payload). *)
Definition default_nan (f : format) : Z :=
  Z.lor (sign_bit f true) (Z.shiftl (Z.lor (Z.shiftl (Z.ones (ebits f)) 1) 1) (mbits f - 1)).

Definition decode (f : format) (v : Z) : spec_float :=
  let s := sign_of f v in
  let e := exp_of f v in
  let m := man_of f v in
  if e =? 0 then
    if m =? 0 then S754_zero s else S754_finite s (Z.to_pos m) (femin f)
  else if e =? Z.ones (ebits f) then
    if m =? 0 then S754_infinity s else S754_nan
  else S754_finite s (Z.to_pos (Z.lor m (Z.shiftl 1 (mbits f)))) (e + femin f - 1).

Definition encode (f : format) (x : spec_float) : Z :=
  match x with
  | S754_zero s => sign_bit f s
  | S754_infinity s => Z.lor (sign_bit f s) (Z.shiftl (Z.ones (ebits f)) (mbits f))
  | S754_nan => default_nan f
  | S754_finite s m e =>
      if Zpos m <? Z.shiftl 1 (mbits f)
      then Z.lor (sign_bit f s) (Zpos m)
      else Z.lor (sign_bit f s)
             (Z.lor (Z.shiftl (e - femin f + 1) (mbits f))
                    (Zpos m - Z.shiftl 1 (mbits f)))
  end.

(** Exact values as dyadic numbers [m * 2^e]. *)
Definition dyadic : Type := (Z * Z)%type.

Definition dy_of (x : spec_float) : option dyadic :=
  match x with
  | S754_zero _ => Some (0, 0)
  | S754_finite s m e => Some (cond_Zopp s (Zpos m), e)
  | _ => None
  end.

Definition dy_add (x y : dyadic) : dyadic :=
  let e := Z.min (snd x) (snd y) in
  (fst x * 2 ^ (snd x - e) + fst y * 2 ^ (snd y - e), e).

Definition dy_mul (x y : dyadic) : dyadic := (fst x * fst y, snd x + snd y).

Definition dy_eqb (x y : dyadic) : bool :=
  let e := Z.min (snd x) (snd y) in
  fst x * 2 ^ (snd x - e) =? fst y * 2 ^ (snd y - e).

Definition is_inf (x : spec_float) : bool :=
  match x with S754_infinity _ => true | _ => false end.

Definition is_sfnan (x : spec_float) : bool :=
  match x with S754_nan => true | _ => false end.

(** Fused multiply-add [x * y + z] with a single rounding: the product is
    formed exactly, the addend is added exactly, and the sum is rounded
    once. *)
Definition sf_sign (x : spec_float) : bool :=
  match x with
  | S754_zero s | S754_infinity s | S754_finite s _ _ => s
  | S754_nan => false
  end.

Definition SFfma (f : format) (x y z : spec_float) : spec_float :=
  let sp := xorb (sf_sign x) (sf_sign y) in
  if is_sfnan x || is_sfnan y || is_sfnan z then S754_nan
  else if is_inf x || is_inf y then
    match x, y with
    | S754_zero _, _ | _, S754_zero _ => S754_nan
    | _, _ =>
        match z with
        | S754_infinity sz => if Bool.eqb sp sz then z else S754_nan
        | _ => S754_infinity sp
        end
    end
  else
    match z with
    | S754_infinity _ => z
    | _ =>
      match x, y with
      | S754_finite _ mx ex, S754_finite _ my ey =>
          match z with
          | S754_finite sz mz ez =>
              let s := dy_add (cond_Zopp sp (Zpos (mx * my)), ex + ey)
                              (cond_Zopp sz (Zpos mz), ez) in
              binary_normalize (prec f) (emax f) (fst s) (snd s) false
          | _ => binary_round (prec f) (emax f) sp (mx * my) (ex + ey)
          end
      | _, _ =>
          match z with
          | S754_zero sz => S754_zero (if Bool.eqb sp sz then sp else false)
          | _ => z
          end
      end
    end.

(** Rounding a value of one format into another: exact when it fits. *)
Definition convert (f : format) (x : spec_float) : spec_float :=
  match x with
  | S754_finite s m e => binary_round (prec f) (emax f) s m e
  | _ => x
  end.

(** An exponent bound no operation on these two formats reaches: rounding
    with it shows whether a result is tiny after rounding. *)
Definition wide_emax : Z := 2 ^ 16.

Definition tiny_after_rounding (f : format) (r : spec_float) : bool :=
  match r with
  | S754_finite _ _ e => e <? femin f
  | _ => false
  end.

Definition exact_dy (v : dyadic) (r : spec_float) : bool :=
  match dy_of r with
  | Some w => dy_eqb v w
  | None => false
  end.

(** Flags of a rounding of finite operands: [r] is the rounded result,
    [inexact] tells whether it differs from the exact value, [t] is the same
    rounding with an unbounded exponent. *)
Definition round_flags (f : format) (inexact : bool) (r t : spec_float) : FEnv :=
  mkFEnv false false (is_inf r) (inexact && tiny_after_rounding f t) inexact.

Definition fe_invalid_if (b : bool) : FEnv := mkFEnv b false false false false.

(** NaN operands: the first NaN operand, quieted; invalid when any operand
    signals. *)
Definition nan2 (f : format) (a b : Z) : Z * FEnv :=
  (quieted f (if nan_of f a then a else b), fe_invalid_if (snan_of f a || snan_of f b)).

Definition add_like (f : format) (opp_b : bool) (a b : Z) : Z * FEnv :=
  if nan_of f a || nan_of f b then nan2 f a b
  else
    let x := decode f a in
    let y := if opp_b then SFopp (decode f b) else decode f b in
    let r := SFadd (prec f) (emax f) x y in
    if is_sfnan r then (default_nan f, fe_invalid_if true)
    else
      (encode f r,
       match dy_of x, dy_of y with
       | Some dx, Some dy =>
           round_flags f (negb (exact_dy (dy_add dx dy) r)) r
                       (SFadd (prec f) wide_emax x y)
       | _, _ => fe_none
       end).

Definition mul (f : format) (a b : Z) : Z * FEnv :=
  if nan_of f a || nan_of f b then nan2 f a b
  else
    let x := decode f a in
    let y := decode f b in
    let r := SFmul (prec f) (emax f) x y in
    if is_sfnan r then (default_nan f, fe_invalid_if true)
    else
      (encode f r,
       match dy_of x, dy_of y with
       | Some dx, Some dy =>
           round_flags f (negb (exact_dy (dy_mul dx dy) r)) r
                       (SFmul (prec f) wide_emax x y)
       | _, _ => fe_none
       end).

Definition div (f : format) (a b : Z) : Z * FEnv :=
  if nan_of f a || nan_of f b then nan2 f a b
  else
    let x := decode f a in
    let y := decode f b in
    let r := SFdiv (prec f) (emax f) x y in
    if is_sfnan r then (default_nan f, fe_invalid_if true)
    else
      (encode f r,
       match x, y with
       | S754_finite _ _ _, S754_zero _ => mkFEnv false true false false false
       | S754_finite _ _ _, S754_finite _ _ _ =>
           let inexact :=
             match dy_of r, dy_of x, dy_of y with
             | Some dr, Some dx, Some dy => negb (dy_eqb (dy_mul dr dy) dx)
             | _, _, _ => true
             end in
           round_flags f inexact r (SFdiv (prec f) wide_emax x y)
       | _, _ => fe_none
       end).

Definition fma (f : format) (a b c : Z) : Z * FEnv :=
  if nan_of f a || nan_of f b || nan_of f c then
    (quieted f (if nan_of f a then a else if nan_of f b then b else c),
     fe_invalid_if (snan_of f a || snan_of f b || snan_of f c))
  else
    let x := decode f a in
    let y := decode f b in
    let z := decode f c in
    let r := SFfma f x y z in
    if is_sfnan r then (default_nan f, fe_invalid_if true)
    else
      (encode f r,
       match dy_of x, dy_of y, dy_of z with
       | Some dx, Some dy, Some dz =>
           round_flags f (negb (exact_dy (dy_add (dy_mul dx dy) dz) r)) r
                       (SFfma (mkFormat (prec f) 17) x y z)
       | _, _, _ => fe_none
       end).

Definition sqrt (f : format) (a : Z) : Z * FEnv :=
  if nan_of f a then (quieted f a, fe_invalid_if (snan_of f a))
  else
    let x := decode f a in
    let r := SFsqrt (prec f) (emax f) x in
    if is_sfnan r then (default_nan f, fe_invalid_if true)
    else
      (encode f r,
       match dy_of r, dy_of x with
       | Some dr, Some dx => round_flags f (negb (dy_eqb (dy_mul dr dr) dx)) r r
       | _, _ => fe_none
       end).

(** [a >= b], a signalling comparison: unordered operands compare false and
    raise invalid. *)
Definition ge (f : format) (a b : Z) : bool * FEnv :=
  (match SFcompare (decode f a) (decode f b) with
   | Some Gt | Some Eq => true
   | _ => false
   end,
   fe_invalid_if (nan_of f a || nan_of f b)).

(** double to float: a NaN keeps its sign and the high 23 payload bits and
    is quieted; any other value is rounded. *)
Definition narrow (a : Z) : Z * FEnv :=
  if nan_of binary64 a then
    (Z.lor (Z.lor (sign_bit binary32 (sign_of binary64 a)) 0x7FC00000)
           (Z.shiftr (man_of binary64 a) 29),
     fe_invalid_if (snan_of binary64 a))
  else
    let x := decode binary64 a in
    let r := convert binary32 x in
    (encode binary32 r,
     match dy_of x with
     | Some dx =>
         round_flags binary32 (negb (exact_dy dx r)) r
                     (convert (mkFormat 24 17) x)
     | None => fe_none
     end).

(** float to double: always exact; a NaN keeps sign and payload and is
    quieted. *)
Definition widen (a : Z) : Z * FEnv :=
  if nan_of binary32 a then
    (Z.lor (Z.lor (sign_bit binary64 (sign_of binary32 a)) 0x7FF8000000000000)
           (Z.shiftl (man_of binary32 a) 29),
     fe_invalid_if (snan_of binary32 a))
  else (encode binary64 (convert binary64 (decode binary32 a)), fe_none).

End IEEE.

(** The host the emulator runs on: [double] and [float] arithmetic, the
    correctly rounded [std::fma], and the two conversions. *)
Definition sse2 : HostFPU :=
  mkHostFPU
    (IEEE.add_like IEEE.binary64 false)
    (IEEE.add_like IEEE.binary64 true)
    (IEEE.mul IEEE.binary64)
    (IEEE.div IEEE.binary64)
    (IEEE.fma IEEE.binary64)
    IEEE.narrow
    IEEE.widen
    (IEEE.div IEEE.binary32)
    (IEEE.sqrt IEEE.binary32)
    (IEEE.ge IEEE.binary32).

(** Modelled from the spec: [extend_float(f32)] is the bit-exact IEEE widen;
    for NaNs the payload is preserved by bit extension, not by numeric
    conversion. *)
Definition extend_float (v : Z) : Z :=
  if is_nan_f v then extend_float_nan_bits v else fst (IEEE.widen v).

(** ** Architectural state *)

(** One floating-point register: lane 0 is a double ([paired0], raw view
    [idw]), lane 1 a float ([paired1], raw view [iw_paired1]).  The two views
    of a lane alias the same bits, so the record keeps the raw views. *)
Record FPR : Type := mkFPR { idw : Z; iw_paired1 : Z }.

Definition paired0 (r : FPR) : Z := idw r.
Definition paired1 (r : FPR) : Z := iw_paired1 r.

(** The FPSCR bit fields the executors read and write. *)
Record FPSCR : Type := mkFPSCR {
  fx : bool;
  fex : bool;
  vx : bool;
  ox : bool;
  ux : bool;
  zx : bool;
  xx : bool;
  vxsnan : bool;
  vxisi : bool;
  vxidi : bool;
  vxzdz : bool;
  vximz : bool;
  vxvc : bool;
  vxsoft : bool;
  vxsqrt : bool;
  vxcvi : bool;
  ve : bool;
  oe : bool;
  ue : bool;
  ze : bool;
  xe : bool;
  fprf : Z
}.

(** [fpscr.<field> |= b], one definition per field the executors raise. *)
Definition or_vxsnan (b : bool) (f : FPSCR) : FPSCR :=
  mkFPSCR (fx f) (fex f) (vx f) (ox f) (ux f) (zx f) (xx f) (vxsnan f || b) (vxisi f) (vxidi f) (vxzdz f) (vximz f) (vxvc f) (vxsoft f) (vxsqrt f) (vxcvi f) (ve f) (oe f) (ue f) (ze f) (xe f) (fprf f).

Definition or_vxisi (b : bool) (f : FPSCR) : FPSCR :=
  mkFPSCR (fx f) (fex f) (vx f) (ox f) (ux f) (zx f) (xx f) (vxsnan f) (vxisi f || b) (vxidi f) (vxzdz f) (vximz f) (vxvc f) (vxsoft f) (vxsqrt f) (vxcvi f) (ve f) (oe f) (ue f) (ze f) (xe f) (fprf f).

Definition or_vximz (b : bool) (f : FPSCR) : FPSCR :=
  mkFPSCR (fx f) (fex f) (vx f) (ox f) (ux f) (zx f) (xx f) (vxsnan f) (vxisi f) (vxidi f) (vxzdz f) (vximz f || b) (vxvc f) (vxsoft f) (vxsqrt f) (vxcvi f) (ve f) (oe f) (ue f) (ze f) (xe f) (fprf f).

Definition or_vxidi (b : bool) (f : FPSCR) : FPSCR :=
  mkFPSCR (fx f) (fex f) (vx f) (ox f) (ux f) (zx f) (xx f) (vxsnan f) (vxisi f) (vxidi f || b) (vxzdz f) (vximz f) (vxvc f) (vxsoft f) (vxsqrt f) (vxcvi f) (ve f) (oe f) (ue f) (ze f) (xe f) (fprf f).

Definition or_vxzdz (b : bool) (f : FPSCR) : FPSCR :=
  mkFPSCR (fx f) (fex f) (vx f) (ox f) (ux f) (zx f) (xx f) (vxsnan f) (vxisi f) (vxidi f) (vxzdz f || b) (vximz f) (vxvc f) (vxsoft f) (vxsqrt f) (vxcvi f) (ve f) (oe f) (ue f) (ze f) (xe f) (fprf f).

Definition or_vxsqrt (b : bool) (f : FPSCR) : FPSCR :=
  mkFPSCR (fx f) (fex f) (vx f) (ox f) (ux f) (zx f) (xx f) (vxsnan f) (vxisi f) (vxidi f) (vxzdz f) (vximz f) (vxvc f) (vxsoft f) (vxsqrt f || b) (vxcvi f) (ve f) (oe f) (ue f) (ze f) (xe f) (fprf f).

Definition or_zx (b : bool) (f : FPSCR) : FPSCR :=
  mkFPSCR (fx f) (fex f) (vx f) (ox f) (ux f) (zx f || b) (xx f) (vxsnan f) (vxisi f) (vxidi f) (vxzdz f) (vximz f) (vxvc f) (vxsoft f) (vxsqrt f) (vxcvi f) (ve f) (oe f) (ue f) (ze f) (xe f) (fprf f).

Definition or_ox (b : bool) (f : FPSCR) : FPSCR :=
  mkFPSCR (fx f) (fex f) (vx f) (ox f || b) (ux f) (zx f) (xx f) (vxsnan f) (vxisi f) (vxidi f) (vxzdz f) (vximz f) (vxvc f) (vxsoft f) (vxsqrt f) (vxcvi f) (ve f) (oe f) (ue f) (ze f) (xe f) (fprf f).

Definition or_ux (b : bool) (f : FPSCR) : FPSCR :=
  mkFPSCR (fx f) (fex f) (vx f) (ox f) (ux f || b) (zx f) (xx f) (vxsnan f) (vxisi f) (vxidi f) (vxzdz f) (vximz f) (vxvc f) (vxsoft f) (vxsqrt f) (vxcvi f) (ve f) (oe f) (ue f) (ze f) (xe f) (fprf f).

Definition or_xx (b : bool) (f : FPSCR) : FPSCR :=
  mkFPSCR (fx f) (fex f) (vx f) (ox f) (ux f) (zx f) (xx f || b) (vxsnan f) (vxisi f) (vxidi f) (vxzdz f) (vximz f) (vxvc f) (vxsoft f) (vxsqrt f) (vxcvi f) (ve f) (oe f) (ue f) (ze f) (xe f) (fprf f).

Definition set_fprf (v : Z) (f : FPSCR) : FPSCR :=
  mkFPSCR (fx f) (fex f) (vx f) (ox f) (ux f) (zx f) (xx f) (vxsnan f) (vxisi f) (vxidi f) (vxzdz f) (vximz f) (vxvc f) (vxsoft f) (vxsqrt f) (vxcvi f) (ve f) (oe f) (ue f) (ze f) (xe f) (v).

Definition set_fx (b : bool) (f : FPSCR) : FPSCR :=
  mkFPSCR (b) (fex f) (vx f) (ox f) (ux f) (zx f) (xx f) (vxsnan f) (vxisi f) (vxidi f) (vxzdz f) (vximz f) (vxvc f) (vxsoft f) (vxsqrt f) (vxcvi f) (ve f) (oe f) (ue f) (ze f) (xe f) (fprf f).

Definition set_fex (b : bool) (f : FPSCR) : FPSCR :=
  mkFPSCR (fx f) (b) (vx f) (ox f) (ux f) (zx f) (xx f) (vxsnan f) (vxisi f) (vxidi f) (vxzdz f) (vximz f) (vxvc f) (vxsoft f) (vxsqrt f) (vxcvi f) (ve f) (oe f) (ue f) (ze f) (xe f) (fprf f).

Definition set_vx (b : bool) (f : FPSCR) : FPSCR :=
  mkFPSCR (fx f) (fex f) (b) (ox f) (ux f) (zx f) (xx f) (vxsnan f) (vxisi f) (vxidi f) (vxzdz f) (vximz f) (vxvc f) (vxsoft f) (vxsqrt f) (vxcvi f) (ve f) (oe f) (ue f) (ze f) (xe f) (fprf f).

(** The decoded instruction fields the executors consume. *)
Record Instruction : Type := mkInstruction {
  frA : Z; frB : Z; frC : Z; frD : Z; rc : bool
}.

(** The thread state: the register file, the FPSCR, condition register
    field 1, and the host's floating-point exception flags. *)
Record ThreadState : Type := mkThreadState {
  fpr : Z -> FPR;
  fpscr : FPSCR;
  cr1 : Z;
  fenv : FEnv
}.

Definition with_fpscr (g : FPSCR -> FPSCR) (st : ThreadState) : ThreadState :=
  mkThreadState (fpr st) (g (fpscr st)) (cr1 st) (fenv st).

Definition with_fenv (g : FEnv -> FEnv) (st : ThreadState) : ThreadState :=
  mkThreadState (fpr st) (fpscr st) (cr1 st) (g (fenv st)).

(** [state->fpr[r] = v] *)
Definition set_fpr (r : Z) (v : FPR) (st : ThreadState) : ThreadState :=
  mkThreadState (fun r' => if r' =? r then v else fpr st r') (fpscr st) (cr1 st) (fenv st).

(** A host operation inside an executor: its flags are raised in the host
    environment, its value is returned. *)
Definition host {A : Type} (p : A * FEnv) (st : ThreadState) : ThreadState * A :=
  (with_fenv (fun e => fe_or e (snd p)) st, fst p).

(** ** FPSCR update engine (interpreter_float.cpp) *)

(** Modelled from the spec: [updateFPRF(result)] encodes class and sign of
    the result double into the 5-bit FPRF (qnan, +-infinity, +-normal,
    +-denormal, +-zero); interpreter_float.cpp is not among the sources.
    The codes are the architecture's: bit 4 class descriptor, bit 3 negative,
    bit 2 positive, bit 1 zero, bit 0 NaN or infinity. *)
Definition fprf_of (v : Z) : Z :=
  if is_nan v then 0x11
  else if is_infinity v then (if signbit v then 0x09 else 0x05)
  else if is_zero v then (if signbit v then 0x12 else 0x02)
  else if exponent v =? 0 then (if signbit v then 0x18 else 0x14)
  else (if signbit v then 0x08 else 0x04).

Definition updateFPRF (v : Z) (state : ThreadState) : ThreadState :=
  with_fpscr (set_fprf (fprf_of v)) state.

(** The sticky exception bits of an FPSCR value. *)
Definition sticky_bits (f : FPSCR) : list bool :=
  vxsnan f :: vxisi f :: vximz f :: vxidi f :: vxzdz f :: vxvc f :: vxsoft f
  :: vxsqrt f :: vxcvi f :: zx f :: ox f :: ux f :: xx f :: nil.

Fixpoint newly_set (old new : list bool) : bool :=
  match old, new with
  | o :: old', n :: new' => (negb o && n) || newly_set old' new'
  | _, _ => false
  end.

(** Modelled from the spec: [updateFPSCR(oldFPSCR)] reads the host flags,
    accumulates them into the sticky fields, recomputes VX and FEX, raises FX
    when a sticky bit is newly set since [oldFPSCR], and leaves the host
    flags cleared. *)
Definition updateFPSCR (oldFPSCR : FPSCR) (state : ThreadState) : ThreadState :=
  let e := fenv state in
  let f := fpscr state in
  let f := or_ux (FE_UNDERFLOW e) f in
  let f := or_ox (FE_OVERFLOW e) f in
  let f := or_zx (FE_DIVBYZERO e) f in
  let f := or_xx (FE_INEXACT e) f in
  let f := set_vx (vxsnan f || vxisi f || vximz f || vxzdz f || vxidi f
                   || vxvc f || vxsoft f || vxsqrt f || vxcvi f) f in
  let f := set_fex ((vx f && ve f) || (ox f && oe f) || (ux f && ue f)
                    || (zx f && ze f) || (xx f && xe f)) f in
  let f := set_fx (fx f || newly_set (sticky_bits oldFPSCR) (sticky_bits f)) f in
  mkThreadState (fpr state) f (cr1 state) fe_none.

(** Modelled from the spec: [updateFloatConditionRegister] mirrors the
    FPSCR summary into CR1 ([state->cr.cr1 = state->fpscr.cr1], the field
    FX, FEX, VX, OX). *)
Definition updateFloatConditionRegister (state : ThreadState) : ThreadState :=
  let f := fpscr state in
  mkThreadState (fpr state) f
    (Z.b2z (fx f) * 8 + Z.b2z (fex f) * 4 + Z.b2z (vx f) * 2 + Z.b2z (ox f))
    (fenv state).

(** [if (instr.rc) updateFloatConditionRegister(state)], the tail of every
    executor. *)
Definition record_cr1 (instr : Instruction) (state : ThreadState) : ThreadState :=
  if rc instr then updateFloatConditionRegister state else state.

(** ** The interpreter's paired-single executors *)

Inductive MoveMode : Type :=
  MoveDirect | MoveNegate | MoveAbsolute | MoveNegAbsolute.

Inductive PSArithOperator : Type := PSAdd | PSSub | PSMul | PSDiv.

(** [FMAFlags]: bit 0 subtracts instead of adding, bit 1 negates the
    result. *)
Definition FMASubtract : Z := 1.
Definition FMANegate : Z := 2.

(** [MergeFlags] *)
Definition MergeValue0 : Z := 1.
Definition MergeValue1 : Z := 2.

(** [flags & bit] as a condition *)
Definition has_flag (flags bit : Z) : bool := negb (Z.land flags bit =? 0).

Section Interpreter.

Variable fpu : HostFPU.

(** The sign-bit operation of a move on a 32-bit pattern; [~0x80000000] on
    [uint32_t] is [0x7FFFFFFF]. *)
Definition move_bits (mode : MoveMode) (b : Z) : Z :=
  match mode with
  | MoveDirect => b
  | MoveNegate => Z.lxor b 0x80000000
  | MoveAbsolute => Z.land b 0x7FFFFFFF
  | MoveNegAbsolute => Z.lor b 0x80000000
  end.

Definition moveGeneric (mode : MoveMode) (state : ThreadState) (instr : Instruction)
  : ThreadState :=
  let B := fpr state (frB instr) in
  let ps0_nan := is_signalling_nan (paired0 B) in
  let '(state, b0) :=
    if negb ps0_nan then host (fp_narrow fpu (paired0 B)) state
    else (state, truncate_double_bits (idw B)) in
  let b1 := iw_paired1 B in
  let d0 := move_bits mode b0 in
  let d1 := move_bits mode b1 in
  let '(state, D0) :=
    if negb ps0_nan then host (fp_widen fpu d0) state
    else (state, extend_float_nan_bits d0) in
  let state := set_fpr (frD instr) (mkFPR D0 d1) state in
  record_cr1 instr state.

Definition ps_mr := moveGeneric MoveDirect.
Definition ps_neg := moveGeneric MoveNegate.
Definition ps_abs := moveGeneric MoveAbsolute.
Definition ps_nabs := moveGeneric MoveNegAbsolute.

(** Reading operand lane [slot] of register [r] as a double. *)
Definition read_slot (slot : Z) (state : ThreadState) (r : Z) : Z :=
  if slot =? 0 then paired0 (fpr state r) else extend_float (paired1 (fpr state r)).

(** The exception conditions of one slot of a paired-single arithmetic
    operation, in the order (vxisi, vximz, vxidi, vxzdz, zx). *)
Definition arith_flags (op : PSArithOperator) (vxsnan : bool) (a b : Z)
  : bool * bool * bool * bool * bool :=
  match op with
  | PSAdd =>
      (is_infinity a && is_infinity b && negb (Bool.eqb (signbit a) (signbit b)),
       false, false, false, false)
  | PSSub =>
      (is_infinity a && is_infinity b && Bool.eqb (signbit a) (signbit b),
       false, false, false, false)
  | PSMul =>
      (false,
       (is_infinity a && is_zero b) || (is_zero a && is_infinity b),
       false, false, false)
  | PSDiv =>
      let vxzdz := is_zero a && is_zero b in
      (false, false,
       is_infinity a && is_infinity b,
       vxzdz,
       negb (vxzdz || vxsnan) && is_zero b)
  end.

(** [psArithSingle<op, slotA, slotB>]: the result is [None] when the slot is
    aborted by an enabled exception (the source returns [false]). *)
Definition psArithSingle (op : PSArithOperator) (slotA slotB : Z)
    (state : ThreadState) (instr : Instruction) : ThreadState * option Z :=
  let a := read_slot slotA state (frA instr) in
  let b := read_slot slotB state
             (match op with PSMul => frC instr | _ => frB instr end) in
  let vxsnan := is_signalling_nan a || is_signalling_nan b in
  let '(vxisi, vximz, vxidi, vxzdz, zx) := arith_flags op vxsnan a b in
  let state := with_fpscr (or_vxsnan vxsnan) state in
  let state := with_fpscr (or_vxisi vxisi) state in
  let state := with_fpscr (or_vximz vximz) state in
  let state := with_fpscr (or_vxidi vxidi) state in
  let state := with_fpscr (or_vxzdz vxzdz) state in
  let state := with_fpscr (or_zx zx) state in
  let vxEnabled :=
    (vxsnan || vxisi || vximz || vxidi || vxzdz) && ve (fpscr state) in
  let zxEnabled := zx && ze (fpscr state) in
  if vxEnabled || zxEnabled then (state, None)
  else if is_nan a then (state, Some (make_quiet (truncate_double a)))
  else if is_nan b then (state, Some (make_quiet (truncate_double b)))
  else if vxisi || vximz || vxidi || vxzdz then (state, Some make_nan)
  else
    let '(state, r) :=
      match op with
      | PSAdd => host (fp_add fpu a b) state
      | PSSub => host (fp_sub fpu a b) state
      | PSMul => host (fp_mul fpu a b) state
      | PSDiv => host (fp_div fpu a b) state
      end in
    let '(state, d) := host (fp_narrow fpu r) state in
    (state, Some d).

Definition psArithGeneric (op : PSArithOperator) (slotB0 slotB1 : Z)
    (state : ThreadState) (instr : Instruction) : ThreadState :=
  let oldFPSCR := fpscr state in
  let '(state, wrote0) := psArithSingle op 0 slotB0 state instr in
  let '(state, wrote1) := psArithSingle op 1 slotB1 state instr in
  let state :=
    match wrote0, wrote1 with
    | Some d0, Some d1 => set_fpr (frD instr) (mkFPR (extend_float d0) d1) state
    | _, _ => state
    end in
  let state :=
    match wrote0 with
    | Some d0 => updateFPRF (extend_float d0) state
    | None => state
    end in
  let state := updateFPSCR oldFPSCR state in
  record_cr1 instr state.

Definition ps_add := psArithGeneric PSAdd 0 1.
Definition ps_sub := psArithGeneric PSSub 0 1.
Definition ps_mul := psArithGeneric PSMul 0 1.
Definition ps_muls0 := psArithGeneric PSMul 0 0.
Definition ps_muls1 := psArithGeneric PSMul 1 1.
Definition ps_div := psArithGeneric PSDiv 0 1.

(** The un-summed slot of [ps_sum1]: lane 0 of frC as a float.  A NaN is
    truncated; any other value is converted by the host, and the host's
    FE_INEXACT and FE_OVERFLOW are cleared again unless they were raised
    before the conversion.  The statements run in the order they are
    written; [sum1_ps0_in] has the conversion in either place. *)
Definition sum1_ps0 (state : ThreadState) (c0 : Z) : ThreadState * Z :=
  if is_nan c0 then (state, truncate_double c0)
  else
    let inexact := FE_INEXACT (fenv state) in
    let overflow := FE_OVERFLOW (fenv state) in
    let '(state, ps0) := host (fp_narrow fpu c0) state in
    let state := if negb inexact then with_fenv feclear_inexact state else state in
    let state := if negb overflow then with_fenv feclear_overflow state else state in
    (state, ps0).

(** [psSumGeneric<slot>] up to, and excluding, its call of [updateFPSCR]. *)
Definition psSumGeneric_body (slot : Z) (state : ThreadState) (instr : Instruction)
  : ThreadState :=
  let '(state, wrote) := psArithSingle PSAdd 0 1 state instr in
  match wrote with
  | Some d =>
      let state := updateFPRF (extend_float d) state in
      if slot =? 0 then
        set_fpr (frD instr)
          (mkFPR (extend_float d) (iw_paired1 (fpr state (frC instr)))) state
      else
        let '(state, ps0) := sum1_ps0 state (paired0 (fpr state (frC instr))) in
        set_fpr (frD instr) (mkFPR (extend_float ps0) d) state
  | None => state
  end.

Definition psSumGeneric (slot : Z) (state : ThreadState) (instr : Instruction)
  : ThreadState :=
  let oldFPSCR := fpscr state in
  let state := psSumGeneric_body slot state instr in
  let state := updateFPSCR oldFPSCR state in
  record_cr1 instr state.

Definition ps_sum0 := psSumGeneric 0.
Definition ps_sum1 := psSumGeneric 1.

(** [-x] on a double and on a float: the sign bit flips. *)
Definition neg_double (v : Z) : Z := Z.lxor v 0x8000000000000000.
Definition neg_float (v : Z) : Z := Z.lxor v 0x80000000.

(** The addend and the exception conditions of one slot of a fused
    multiply-add. *)
Definition fma_addend (flags : Z) (b : Z) : Z :=
  if has_flag flags FMASubtract then neg_double b else b.

Definition fma_vxsnan (a b c : Z) : bool :=
  is_signalling_nan a || is_signalling_nan b || is_signalling_nan c.

Definition fma_vxisi (flags : Z) (a b c : Z) : bool :=
  (is_infinity a || is_infinity c) && is_infinity b
  && negb (Bool.eqb (xorb (signbit a) (signbit c)) (signbit (fma_addend flags b))).

Definition fma_vximz (a c : Z) : bool :=
  (is_infinity a && is_zero c) || (is_zero a && is_infinity c).

(** [fmaSingle<flags, slotAB, slotC>] *)
Definition fmaSingle (flags : Z) (slotAB slotC : Z)
    (state : ThreadState) (instr : Instruction) : ThreadState * option Z :=
  let a := read_slot slotAB state (frA instr) in
  let b := read_slot slotAB state (frB instr) in
  let c := read_slot slotC state (frC instr) in
  let addend := fma_addend flags b in
  let vxsnan := fma_vxsnan a b c in
  let vxisi := fma_vxisi flags a b c in
  let vximz := fma_vximz a c in
  let state := with_fpscr (or_vxsnan vxsnan) state in
  let state := with_fpscr (or_vxisi vxisi) state in
  let state := with_fpscr (or_vximz vximz) state in
  if (vxsnan || vxisi || vximz) && ve (fpscr state) then (state, None)
  else if is_nan a then (state, Some (make_quiet (truncate_double a)))
  else if is_nan b then (state, Some (make_quiet (truncate_double b)))
  else if is_nan c then (state, Some (make_quiet (truncate_double c)))
  else if vxisi || vximz then (state, Some make_nan)
  else
    let '(state, r) := host (fp_fma fpu a c addend) state in
    let '(state, d) := host (fp_narrow fpu r) state in
    (state, Some (if has_flag flags FMANegate then neg_float d else d)).

Definition fmaGeneric (flags : Z) (slotC0 slotC1 : Z)
    (state : ThreadState) (instr : Instruction) : ThreadState :=
  let oldFPSCR := fpscr state in
  let '(state, wrote0) := fmaSingle flags 0 slotC0 state instr in
  let '(state, wrote1) := fmaSingle flags 1 slotC1 state instr in
  let state :=
    match wrote0, wrote1 with
    | Some d0, Some d1 => set_fpr (frD instr) (mkFPR (extend_float d0) d1) state
    | _, _ => state
    end in
  let state :=
    match wrote0 with
    | Some d0 => updateFPRF (extend_float d0) state
    | None => state
    end in
  let state := updateFPSCR oldFPSCR state in
  record_cr1 instr state.

Definition ps_madd := fmaGeneric 0 0 1.
Definition ps_madds0 := fmaGeneric 0 0 0.
Definition ps_madds1 := fmaGeneric 0 1 1.
Definition ps_msub := fmaGeneric FMASubtract 0 1.
Definition ps_nmadd := fmaGeneric FMANegate 0 1.
Definition ps_nmsub := fmaGeneric (Z.lor FMANegate FMASubtract) 0 1.

(** [mergeGeneric<flags>], over the conversion [truncate_double] it calls
    for both lanes. *)
Definition mergeGeneric_with (truncate_double : Z -> Z) (flags : Z)
    (state : ThreadState) (instr : Instruction) : ThreadState :=
  let A := fpr state (frA instr) in
  let B := fpr state (frB instr) in
  let '(state, d0) :=
    if has_flag flags MergeValue0 then (state, paired1 A)
    else if negb (is_signalling_nan (paired0 A))
         then host (fp_narrow fpu (paired0 A)) state
         else (state, truncate_double (paired0 A)) in
  let d1 :=
    if has_flag flags MergeValue1 then paired1 B
    else truncate_double (paired0 B) in
  let state := set_fpr (frD instr) (mkFPR (extend_float d0) d1) state in
  record_cr1 instr state.

Definition mergeGeneric := mergeGeneric_with truncate_double.

Definition ps_merge00 := mergeGeneric 0.
Definition ps_merge01 := mergeGeneric MergeValue1.
Definition ps_merge11 := mergeGeneric (Z.lor MergeValue0 MergeValue1).
Definition ps_merge10 := mergeGeneric MergeValue0.

(** [1.0f] *)
Definition one_f : Z := 0x3F800000.

(** One lane of [ps_res] once it is not aborted. *)
Definition res_lane (vxsnan : bool) (b : Z) (state : ThreadState) : ThreadState * Z :=
  if is_nan b then (state, make_quiet (truncate_double b))
  else if vxsnan then (state, make_nan)
  else
    let '(state, bf) := host (fp_narrow fpu b) state in
    host (fp_divf fpu one_f bf) state.

(** [updateFPRF(state, d0)] with a float argument: the host widens it. *)
Definition updateFPRF_f (d : Z) (state : ThreadState) : ThreadState :=
  let '(state, w) := host (fp_widen fpu d) state in
  updateFPRF w state.

Definition ps_res (state : ThreadState) (instr : Instruction) : ThreadState :=
  let b0 := paired0 (fpr state (frB instr)) in
  let b1 := extend_float (paired1 (fpr state (frB instr))) in
  let vxsnan0 := is_signalling_nan b0 in
  let vxsnan1 := is_signalling_nan b1 in
  let zx0 := is_zero b0 in
  let zx1 := is_zero b1 in
  let oldFPSCR := fpscr state in
  let state := with_fpscr (or_vxsnan (vxsnan0 || vxsnan1)) state in
  let state := with_fpscr (or_zx (zx0 || zx1)) state in
  let '(state, w0) :=
    if (vxsnan0 && ve (fpscr state)) || (zx0 && ze (fpscr state)) then (state, None)
    else
      let '(state, d0) := res_lane vxsnan0 b0 state in
      (updateFPRF_f d0 state, Some d0) in
  let '(state, w1) :=
    if (vxsnan1 && ve (fpscr state)) || (zx1 && ze (fpscr state)) then (state, None)
    else
      let '(state, d1) := res_lane vxsnan1 b1 state in
      (state, Some d1) in
  let state :=
    match w0, w1 with
    | Some d0, Some d1 => set_fpr (frD instr) (mkFPR (extend_float d0) d1) state
    | _, _ => state
    end in
  let state := updateFPSCR oldFPSCR state in
  record_cr1 instr state.

(** One lane of [ps_rsqrte] once it is not aborted. *)
Definition rsqrte_lane (invalid : bool) (b : Z) (state : ThreadState) : ThreadState * Z :=
  if is_nan b then (state, make_quiet (truncate_double b))
  else if invalid then (state, make_nan)
  else
    let '(state, bf) := host (fp_narrow fpu b) state in
    let '(state, r) := host (fp_sqrtf fpu bf) state in
    host (fp_divf fpu one_f r) state.

Definition ps_rsqrte (state : ThreadState) (instr : Instruction) : ThreadState :=
  let b0 := paired0 (fpr state (frB instr)) in
  let b1 := extend_float (paired1 (fpr state (frB instr))) in
  let vxsnan0 := is_signalling_nan b0 in
  let vxsnan1 := is_signalling_nan b1 in
  let vxsqrt0 := negb vxsnan0 && signbit b0 && negb (is_zero b0) in
  let vxsqrt1 := negb vxsnan1 && signbit b1 && negb (is_zero b1) in
  let zx0 := is_zero b0 in
  let zx1 := is_zero b1 in
  let oldFPSCR := fpscr state in
  let state := with_fpscr (or_vxsnan (vxsnan0 || vxsnan1)) state in
  let state := with_fpscr (or_vxsqrt (vxsqrt0 || vxsqrt1)) state in
  let state := with_fpscr (or_zx (zx0 || zx1)) state in
  let '(state, w0) :=
    if ((vxsnan0 || vxsqrt0) && ve (fpscr state)) || (zx0 && ze (fpscr state))
    then (state, None)
    else
      let '(state, d0) := rsqrte_lane (vxsnan0 || vxsqrt0) b0 state in
      (updateFPRF_f d0 state, Some d0) in
  let '(state, w1) :=
    if ((vxsnan1 || vxsqrt1) && ve (fpscr state)) || (zx1 && ze (fpscr state))
    then (state, None)
    else
      let '(state, d1) := rsqrte_lane (vxsnan1 || vxsqrt1) b1 state in
      (state, Some d1) in
  let state :=
    match w0, w1 with
    | Some d0, Some d1 => set_fpr (frD instr) (mkFPR (extend_float d0) d1) state
    | _, _ => state
    end in
  let state := updateFPSCR oldFPSCR state in
  record_cr1 instr state.

(** [ps_sel]: every operand is held in a [float] local, so the lane-0
    doubles are converted by the host on the way in and the chosen float is
    widened on the way out. *)
Definition ps_sel (state : ThreadState) (instr : Instruction) : ThreadState :=
  let A := fpr state (frA instr) in
  let B := fpr state (frB instr) in
  let C := fpr state (frC instr) in
  let '(state, a0) := host (fp_narrow fpu (paired0 A)) state in
  let a1 := paired1 A in
  let '(state, b0) := host (fp_narrow fpu (paired0 B)) state in
  let b1 := paired1 B in
  let '(state, c0) := host (fp_narrow fpu (paired0 C)) state in
  let c1 := paired1 C in
  let '(state, ge1) := host (fp_gef fpu a1 0) state in
  let d1 := if ge1 then c1 else b1 in
  let '(state, ge0) := host (fp_gef fpu a0 0) state in
  let d0 := if ge0 then c0 else b0 in
  let '(state, D0) := host (fp_widen fpu d0) state in
  let state := set_fpr (frD instr) (mkFPR D0 d1) state in
  record_cr1 instr state.

End Interpreter.

(** ** The conversion of ps_sum1 and the host's flags

    [psSumGeneric<1>] converts lane 0 of frC between two [std::fetestexcept]
    reads and two [std::feclearexcept] calls, and [sum1_ps0] follows the
    statements in that order.  Nothing in the source ties the conversion to
    those calls: the file has no [#pragma STDC FENV_ACCESS], no [volatile]
    and no barrier, and [ps0] is first used after the clears, so a compiler
    may evaluate the conversion after them.  [ConversionOrder] names the two
    orders. *)
Inductive ConversionOrder : Type := AsWritten | AfterFlagClears.

(** The un-summed slot of [ps_sum1] with the conversion in either place. *)
Definition sum1_ps0_in (fpu : HostFPU) (order : ConversionOrder)
    (state : ThreadState) (c0 : Z) : ThreadState * Z :=
  if is_nan c0 then (state, truncate_double c0)
  else
    let inexact := FE_INEXACT (fenv state) in
    let overflow := FE_OVERFLOW (fenv state) in
    match order with
    | AsWritten =>
        let '(state, ps0) := host (fp_narrow fpu c0) state in
        let state := if negb inexact then with_fenv feclear_inexact state else state in
        let state := if negb overflow then with_fenv feclear_overflow state else state in
        (state, ps0)
    | AfterFlagClears =>
        let state := if negb inexact then with_fenv feclear_inexact state else state in
        let state := if negb overflow then with_fenv feclear_overflow state else state in
        host (fp_narrow fpu c0) state
    end.

(** [psSumGeneric<1>] up to, and excluding, its call of [updateFPSCR]. *)
Definition ps_sum1_body_in (fpu : HostFPU) (order : ConversionOrder)
    (state : ThreadState) (instr : Instruction) : ThreadState :=
  let '(state, wrote) := psArithSingle fpu PSAdd 0 1 state instr in
  match wrote with
  | Some d =>
      let state := updateFPRF (extend_float d) state in
      let '(state, ps0) :=
        sum1_ps0_in fpu order state (paired0 (fpr state (frC instr))) in
      set_fpr (frD instr) (mkFPR (extend_float ps0) d) state
  | None => state
  end.

Definition ps_sum1_in (fpu : HostFPU) (order : ConversionOrder)
    (state : ThreadState) (instr : Instruction) : ThreadState :=
  let oldFPSCR := fpscr state in
  let state := ps_sum1_body_in fpu order state instr in
  let state := updateFPSCR oldFPSCR state in
  record_cr1 instr state.

(** ** The JIT's scalar multiply-add emitters (jit/jit_float.cpp)

    An emitter is modelled by the effect of the instructions it emits on
    the thread state; [None] stands for [jit_fallback], which hands the
    instruction to the interpreter.  [a.fpr[r]] is lane 0 of register [r];
    [mulsd], [addsd], [subsd], [cvtsd2ss] and [cvtss2sd] are the host's
    operations, [pxor] with the sign mask flips the sign bit. *)

Section JIT.

Variable fpu : HostFPU.

Definition truncateToSingle (reg : Z) (state : ThreadState) : ThreadState * Z :=
  let '(state, tmp) := host (fp_narrow fpu reg) state in
  host (fp_widen fpu tmp) state.

Definition negateXmm (reg : Z) : Z := Z.lxor reg 0x8000000000000000.

Definition jit_store (instr : Instruction) (dst : Z) (state : ThreadState) : ThreadState :=
  set_fpr (frD instr) (mkFPR dst (iw_paired1 (fpr state (frD instr)))) state.

Definition fmaddGeneric (ShouldTruncate ShouldNegate : bool)
    (state : ThreadState) (instr : Instruction) : option ThreadState :=
  if rc instr then None
  else
    let srcA := idw (fpr state (frA instr)) in
    let tmpSrcB := idw (fpr state (frB instr)) in
    let tmpSrcC := idw (fpr state (frC instr)) in
    let dst := srcA in
    let '(state, dst) := host (fp_mul fpu dst tmpSrcC) state in
    let '(state, dst) := host (fp_add fpu dst tmpSrcB) state in
    let dst := if ShouldNegate then Z.lxor dst 0x8000000000000000 else dst in
    let '(state, dst) :=
      if ShouldTruncate then truncateToSingle dst state else (state, dst) in
    Some (jit_store instr dst state).

Definition fmsubGeneric (ShouldTruncate ShouldNegate : bool)
    (state : ThreadState) (instr : Instruction) : option ThreadState :=
  if rc instr then None
  else
    let srcA := idw (fpr state (frA instr)) in
    let tmpSrcB := idw (fpr state (frB instr)) in
    let tmpSrcC := idw (fpr state (frC instr)) in
    let dst := srcA in
    let '(state, dst) := host (fp_mul fpu dst tmpSrcC) state in
    let '(state, dst) := host (fp_sub fpu dst tmpSrcB) state in
    let dst := if ShouldNegate then negateXmm dst else dst in
    let '(state, dst) :=
      if ShouldTruncate then truncateToSingle dst state else (state, dst) in
    Some (jit_store instr dst state).

Definition fmadd := fmaddGeneric false false.
Definition fmadds := fmaddGeneric true false.
Definition fmsub := fmsubGeneric false false.
Definition fmsubs := fmsubGeneric true false.
Definition fnmadd := fmaddGeneric false true.
Definition fnmadds := fmaddGeneric true true.
Definition fnmsub := fmsubGeneric false true.
Definition fnmsubs := fmsubGeneric true true.

End JIT.

(** ** Write gate, slot values and raised flags as functions of the operands

    The executors thread the state through both slots.  The definitions
    below read everything off the state the instruction starts in; the
    theorems relate the two. *)

(** The sticky flags a slot raises itself (before the host flags are
    folded in). *)
Record Raised : Type := mkRaised {
  r_vxsnan : bool; r_vxisi : bool; r_vximz : bool; r_vxidi : bool;
  r_vxzdz : bool; r_vxsqrt : bool; r_zx : bool
}.

Definition raised_or (x y : Raised) : Raised :=
  mkRaised (r_vxsnan x || r_vxsnan y) (r_vxisi x || r_vxisi y)
           (r_vximz x || r_vximz y) (r_vxidi x || r_vxidi y)
           (r_vxzdz x || r_vxzdz y) (r_vxsqrt x || r_vxsqrt y)
           (r_zx x || r_zx y).

(** The invalid-operation part and the zero-divide part of a slot's write
    gate. *)
Definition raised_vx (r : Raised) : bool :=
  r_vxsnan r || r_vxisi r || r_vximz r || r_vxidi r || r_vxzdz r || r_vxsqrt r.

Definition gate (f : FPSCR) (r : Raised) : bool :=
  (raised_vx r && ve f) || (r_zx r && ze f).

(** The same seven flags as they stand in an FPSCR value. *)
Definition sticky_of (f : FPSCR) : Raised :=
  mkRaised (vxsnan f) (vxisi f) (vximz f) (vxidi f) (vxzdz f) (vxsqrt f) (zx f).

(** Every flag of [x] is a flag of [y]. *)
Definition raised_le (x y : Raised) : bool :=
  implb (r_vxsnan x) (r_vxsnan y)
  && implb (r_vxisi x) (r_vxisi y)
  && implb (r_vximz x) (r_vximz y)
  && implb (r_vxidi x) (r_vxidi y)
  && implb (r_vxzdz x) (r_vxzdz y)
  && implb (r_vxsqrt x) (r_vxsqrt y)
  && implb (r_zx x) (r_zx y).

(** Every flag that was set before or is raised by the instruction is set
    afterwards. *)
Definition accumulated (old : FPSCR) (r : Raised) (new : FPSCR) : bool :=
  raised_le (raised_or (sticky_of old) r) (sticky_of new).

Definition arith_raised (op : PSArithOperator) (a b : Z) : Raised :=
  let vxsnan := is_signalling_nan a || is_signalling_nan b in
  let '(vxisi, vximz, vxidi, vxzdz, zx) := arith_flags op vxsnan a b in
  mkRaised vxsnan vxisi vximz vxidi vxzdz false zx.

Definition fma_raised (flags : Z) (a b c : Z) : Raised :=
  mkRaised (fma_vxsnan a b c) (fma_vxisi flags a b c) (fma_vximz a c)
           false false false false.

Definition res_raised (b : Z) : Raised :=
  mkRaised (is_signalling_nan b) false false false false false (is_zero b).

Definition rsqrte_raised (b : Z) : Raised :=
  mkRaised (is_signalling_nan b) false false false false
           (negb (is_signalling_nan b) && signbit b && negb (is_zero b))
           (is_zero b).

(** The sign operation of a move on the 64-bit pattern of lane 0. *)
Definition sign_op (mode : MoveMode) (s : bool) : bool :=
  match mode with
  | MoveDirect => s
  | MoveNegate => negb s
  | MoveAbsolute => false
  | MoveNegAbsolute => true
  end.

Definition move_bits64 (mode : MoveMode) (v : Z) : Z :=
  match mode with
  | MoveDirect => v
  | MoveNegate => Z.lxor v 0x8000000000000000
  | MoveAbsolute => Z.land v 0x7FFFFFFFFFFFFFFF
  | MoveNegAbsolute => Z.lor v 0x8000000000000000
  end.

(** A 64-bit pattern with its low 29 bits cleared. *)
Definition clear_low29 (v : Z) : Z := Z.shiftl (Z.shiftr v 29) 29.

(** The paired-single instructions whose write to frD is gated. *)
Inductive GatedInstr : Type :=
  | Ps_add | Ps_sub | Ps_mul | Ps_div | Ps_muls0 | Ps_muls1
  | Ps_sum0 | Ps_sum1
  | Ps_madd | Ps_madds0 | Ps_madds1 | Ps_msub | Ps_nmadd | Ps_nmsub
  | Ps_res | Ps_rsqrte.

(** The generic executor and template arguments behind each of them. *)
Inductive Family : Type :=
  | FArith (op : PSArithOperator) (slotB0 slotB1 : Z)
  | FSum (slot : Z)
  | FFma (flags slotC0 slotC1 : Z)
  | FRes
  | FRsqrte.

Definition family (i : GatedInstr) : Family :=
  match i with
  | Ps_add => FArith PSAdd 0 1
  | Ps_sub => FArith PSSub 0 1
  | Ps_mul => FArith PSMul 0 1
  | Ps_div => FArith PSDiv 0 1
  | Ps_muls0 => FArith PSMul 0 0
  | Ps_muls1 => FArith PSMul 1 1
  | Ps_sum0 => FSum 0
  | Ps_sum1 => FSum 1
  | Ps_madd => FFma 0 0 1
  | Ps_madds0 => FFma 0 0 0
  | Ps_madds1 => FFma 0 1 1
  | Ps_msub => FFma FMASubtract 0 1
  | Ps_nmadd => FFma FMANegate 0 1
  | Ps_nmsub => FFma (Z.lor FMANegate FMASubtract) 0 1
  | Ps_res => FRes
  | Ps_rsqrte => FRsqrte
  end.

Section Reference.

Variable fpu : HostFPU.

Definition run_family (f : Family) : ThreadState -> Instruction -> ThreadState :=
  match f with
  | FArith op s0 s1 => psArithGeneric fpu op s0 s1
  | FSum slot => psSumGeneric fpu slot
  | FFma flags s0 s1 => fmaGeneric fpu flags s0 s1
  | FRes => ps_res fpu
  | FRsqrte => ps_rsqrte fpu
  end.

(** The executor registered for each instruction. *)
Definition run (i : GatedInstr) : ThreadState -> Instruction -> ThreadState :=
  match i with
  | Ps_add => ps_add fpu | Ps_sub => ps_sub fpu | Ps_mul => ps_mul fpu
  | Ps_div => ps_div fpu | Ps_muls0 => ps_muls0 fpu | Ps_muls1 => ps_muls1 fpu
  | Ps_sum0 => ps_sum0 fpu | Ps_sum1 => ps_sum1 fpu
  | Ps_madd => ps_madd fpu | Ps_madds0 => ps_madds0 fpu
  | Ps_madds1 => ps_madds1 fpu | Ps_msub => ps_msub fpu
  | Ps_nmadd => ps_nmadd fpu | Ps_nmsub => ps_nmsub fpu
  | Ps_res => ps_res fpu | Ps_rsqrte => ps_rsqrte fpu
  end.

(** The value a slot produces when it is not aborted. *)
Definition arith_value (op : PSArithOperator) (a b : Z) : Z :=
  let r := arith_raised op a b in
  if is_nan a then make_quiet (truncate_double a)
  else if is_nan b then make_quiet (truncate_double b)
  else if r_vxisi r || r_vximz r || r_vxidi r || r_vxzdz r then make_nan
  else
    fst (fp_narrow fpu
           (fst (match op with
                 | PSAdd => fp_add fpu a b
                 | PSSub => fp_sub fpu a b
                 | PSMul => fp_mul fpu a b
                 | PSDiv => fp_div fpu a b
                 end))).

Definition fma_value (flags : Z) (a b c : Z) : Z :=
  if is_nan a then make_quiet (truncate_double a)
  else if is_nan b then make_quiet (truncate_double b)
  else if is_nan c then make_quiet (truncate_double c)
  else if fma_vxisi flags a b c || fma_vximz a c then make_nan
  else
    let d := fst (fp_narrow fpu (fst (fp_fma fpu a c (fma_addend flags b)))) in
    if has_flag flags FMANegate then neg_float d else d.

Definition res_value (b : Z) : Z :=
  if is_nan b then make_quiet (truncate_double b)
  else if is_signalling_nan b then make_nan
  else fst (fp_divf fpu one_f (fst (fp_narrow fpu b))).

Definition rsqrte_value (b : Z) : Z :=
  if is_nan b then make_quiet (truncate_double b)
  else if r_vxsnan (rsqrte_raised b) || r_vxsqrt (rsqrte_raised b) then make_nan
  else fst (fp_divf fpu one_f (fst (fp_sqrtf fpu (fst (fp_narrow fpu b))))).

(** Operands of the two slots of an arithmetic instruction. *)
Definition arith_a (slot : Z) (st : ThreadState) (instr : Instruction) : Z :=
  read_slot slot st (frA instr).

Definition arith_b (op : PSArithOperator) (slot : Z) (st : ThreadState)
    (instr : Instruction) : Z :=
  read_slot slot st (match op with PSMul => frC instr | _ => frB instr end).

(** The flags raised by each slot of an instruction, slot 0 first. *)
Definition slot_raised (f : Family) (st : ThreadState) (instr : Instruction)
  : Raised * Raised :=
  match f with
  | FArith op s0 s1 =>
      (arith_raised op (arith_a 0 st instr) (arith_b op s0 st instr),
       arith_raised op (arith_a 1 st instr) (arith_b op s1 st instr))
  | FSum _ =>
      let r := arith_raised PSAdd (arith_a 0 st instr) (arith_b PSAdd 1 st instr) in
      (r, r)
  | FFma flags s0 s1 =>
      (fma_raised flags (read_slot 0 st (frA instr)) (read_slot 0 st (frB instr))
                  (read_slot s0 st (frC instr)),
       fma_raised flags (read_slot 1 st (frA instr)) (read_slot 1 st (frB instr))
                  (read_slot s1 st (frC instr)))
  | FRes =>
      (res_raised (read_slot 0 st (frB instr)), res_raised (read_slot 1 st (frB instr)))
  | FRsqrte =>
      (rsqrte_raised (read_slot 0 st (frB instr)),
       rsqrte_raised (read_slot 1 st (frB instr)))
  end.

(** An enabled exception gate triggers in either slot. *)
Definition gate_triggers (f : Family) (st : ThreadState) (instr : Instruction) : bool :=
  let '(r0, r1) := slot_raised f st instr in
  gate (fpscr st) r0 || gate (fpscr st) r1.

Definition raised (f : Family) (st : ThreadState) (instr : Instruction) : Raised :=
  let '(r0, r1) := slot_raised f st instr in raised_or r0 r1.

(** The register value an ungated instruction writes to frD. *)
Definition written (f : Family) (st : ThreadState) (instr : Instruction) : FPR :=
  match f with
  | FArith op s0 s1 =>
      mkFPR (extend_float (arith_value op (arith_a 0 st instr) (arith_b op s0 st instr)))
            (arith_value op (arith_a 1 st instr) (arith_b op s1 st instr))
  | FSum slot =>
      let d := arith_value PSAdd (arith_a 0 st instr) (arith_b PSAdd 1 st instr) in
      let C := fpr st (frC instr) in
      if slot =? 0 then mkFPR (extend_float d) (iw_paired1 C)
      else
        mkFPR (extend_float
                 (if is_nan (paired0 C) then truncate_double (paired0 C)
                  else fst (fp_narrow fpu (paired0 C))))
              d
  | FFma flags s0 s1 =>
      mkFPR (extend_float
               (fma_value flags (read_slot 0 st (frA instr)) (read_slot 0 st (frB instr))
                          (read_slot s0 st (frC instr))))
            (fma_value flags (read_slot 1 st (frA instr)) (read_slot 1 st (frB instr))
                       (read_slot s1 st (frC instr)))
  | FRes =>
      mkFPR (extend_float (res_value (read_slot 0 st (frB instr))))
            (res_value (read_slot 1 st (frB instr)))
  | FRsqrte =>
      mkFPR (extend_float (rsqrte_value (read_slot 0 st (frB instr))))
            (rsqrte_value (read_slot 1 st (frB instr)))
  end.

End Reference.

(** ** Vocabulary of the proofs *)

(** What a slot leaves of the state: the registers, the enables, and no
    fewer flags than it found plus those it raises. *)
Definition slot_frame (st st1 : ThreadState) (r : Raised) : Prop :=
  fpr st1 = fpr st
  /\ ve (fpscr st1) = ve (fpscr st)
  /\ ze (fpscr st1) = ze (fpscr st)
  /\ fprf (fpscr st1) = fprf (fpscr st)
  /\ raised_le (raised_or (sticky_of (fpscr st)) r) (sticky_of (fpscr st1)) = true.

(** The shape every gated executor ends in: an optional write of frD, an
    optional FPRF update, [updateFPSCR], and the record bit. *)
Definition finish (old : FPSCR) (instr : Instruction) (w : option FPR)
    (cls : option Z) (st2 : ThreadState) : ThreadState :=
  let st2 := match w with Some v => set_fpr (frD instr) v st2 | None => st2 end in
  let st2 := match cls with Some v => updateFPRF v st2 | None => st2 end in
  record_cr1 instr (updateFPSCR old st2).

(** The host flags the numeric path of an arithmetic slot raises; a slot
    that ends in a NaN or is aborted makes no host operation. *)
Definition arith_host_flags (fpu : HostFPU) (op : PSArithOperator) (f : FPSCR)
    (a b : Z) : FEnv :=
  let r := arith_raised op a b in
  if gate f r || is_nan a || is_nan b
     || r_vxisi r || r_vximz r || r_vxidi r || r_vxzdz r then fe_none
  else
    let p := match op with
             | PSAdd => fp_add fpu a b
             | PSSub => fp_sub fpu a b
             | PSMul => fp_mul fpu a b
             | PSDiv => fp_div fpu a b
             end in
    fe_or (snd p) (snd (fp_narrow fpu (fst p))).

(** The NaN a fused multiply-add slot answers with when an operand is a NaN
    or the operation is invalid. *)
Definition fma_nan_value (a b c : Z) : Z :=
  if is_nan a then make_quiet (truncate_double a)
  else if is_nan b then make_quiet (truncate_double b)
  else if is_nan c then make_quiet (truncate_double c)
  else make_nan.

(** States and instructions the examples run on: registers 1, 2, 3 hold A,
    B, C, everything else is zero, and the instruction names them in that
    order with frD = 4. *)
Definition fpscr_zero : FPSCR :=
  mkFPSCR false false false false false false false false false false false
          false false false false false false false false false false 0.

Definition fpscr_ve : FPSCR :=
  mkFPSCR false false false false false false false false false false false
          false false false false false true false false false false 0.

Definition state_of (f : FPSCR) (A B C : FPR) : ThreadState :=
  mkThreadState
    (fun r => if r =? 1 then A else if r =? 2 then B else if r =? 3 then C
              else mkFPR 0 0)
    f 0 fe_none.

Definition instr_abcd : Instruction := mkInstruction 1 2 3 4 false.


(** ** The JIT's other scalar emitters and its registration table
    (jit/jit_float.cpp)

    The arithmetic emitters load lane 0 of their sources, run one host
    instruction ([addsd], [subsd], [mulsd], [divsd]) and, for the
    single-precision forms, [truncateToSingle]; the sign emitters are mask
    operations on the 64-bit pattern.  None of them touches the FPSCR: the
    source only notes that it is supposed to be updated. *)

Section JITScalar.

Variable fpu : HostFPU.

(** [absXmm]: [pand] with 0x7FFFFFFFFFFFFFFF. *)
Definition absXmm (reg : Z) : Z := Z.land reg 0x7FFFFFFFFFFFFFFF.

Definition faddGeneric (ShouldTruncate : bool)
    (state : ThreadState) (instr : Instruction) : option ThreadState :=
  if rc instr then None
  else
    let srcA := idw (fpr state (frA instr)) in
    let tmpSrcB := idw (fpr state (frB instr)) in
    let dst := srcA in
    let '(state, dst) := host (fp_add fpu dst tmpSrcB) state in
    let '(state, dst) :=
      if ShouldTruncate then truncateToSingle fpu dst state else (state, dst) in
    Some (jit_store instr dst state).

Definition fadd := faddGeneric false.
Definition fadds := faddGeneric true.

Definition fdivGeneric (ShouldTruncate : bool)
    (state : ThreadState) (instr : Instruction) : option ThreadState :=
  if rc instr then None
  else
    let srcA := idw (fpr state (frA instr)) in
    let tmpSrcB := idw (fpr state (frB instr)) in
    let dst := srcA in
    let '(state, dst) := host (fp_div fpu dst tmpSrcB) state in
    let '(state, dst) :=
      if ShouldTruncate then truncateToSingle fpu dst state else (state, dst) in
    Some (jit_store instr dst state).

Definition fdiv := fdivGeneric false.
Definition fdivs := fdivGeneric true.

(** The multiplier of [fmul] is frC. *)
Definition fmulGeneric (ShouldTruncate : bool)
    (state : ThreadState) (instr : Instruction) : option ThreadState :=
  if rc instr then None
  else
    let srcA := idw (fpr state (frA instr)) in
    let tmpSrcC := idw (fpr state (frC instr)) in
    let dst := srcA in
    let '(state, dst) := host (fp_mul fpu dst tmpSrcC) state in
    let '(state, dst) :=
      if ShouldTruncate then truncateToSingle fpu dst state else (state, dst) in
    Some (jit_store instr dst state).

Definition fmul := fmulGeneric false.
Definition fmuls := fmulGeneric true.

Definition fsubGeneric (ShouldTruncate : bool)
    (state : ThreadState) (instr : Instruction) : option ThreadState :=
  if rc instr then None
  else
    let srcA := idw (fpr state (frA instr)) in
    let tmpSrcB := idw (fpr state (frB instr)) in
    let dst := srcA in
    let '(state, dst) := host (fp_sub fpu dst tmpSrcB) state in
    let '(state, dst) :=
      if ShouldTruncate then truncateToSingle fpu dst state else (state, dst) in
    Some (jit_store instr dst state).

Definition fsub := fsubGeneric false.
Definition fsubs := fsubGeneric true.

(** [frsp]: round lane 0 of frB to single precision. *)
Definition frsp (state : ThreadState) (instr : Instruction) : option ThreadState :=
  if rc instr then None
  else
    let srcA := idw (fpr state (frB instr)) in
    let dst := srcA in
    let '(state, dst) := truncateToSingle fpu dst state in
    Some (jit_store instr dst state).

Definition fabsGeneric (ShouldNegate : bool)
    (state : ThreadState) (instr : Instruction) : option ThreadState :=
  if rc instr then None
  else
    let srcA := idw (fpr state (frB instr)) in
    let dst := srcA in
    let dst := absXmm dst in
    let dst := if ShouldNegate then negateXmm dst else dst in
    Some (jit_store instr dst state).

Definition fabs := fabsGeneric false.
Definition fnabs := fabsGeneric true.

Definition fmr (state : ThreadState) (instr : Instruction) : option ThreadState :=
  if rc instr then None
  else
    let srcA := idw (fpr state (frB instr)) in
    let dst := srcA in
    Some (jit_store instr dst state).

Definition fneg (state : ThreadState) (instr : Instruction) : option ThreadState :=
  if rc instr then None
  else
    let srcA := idw (fpr state (frB instr)) in
    let dst := srcA in
    let dst := negateXmm dst in
    Some (jit_store instr dst state).

(** The scalar floating-point instructions [registerFloatInstructions]
    names. *)
Inductive FloatInstr : Type :=
  | Fadd | Fadds | Fdiv | Fdivs | Fmul | Fmuls | Fsub | Fsubs
  | Fres | Frsqrte | Fsel
  | Fmadd | Fmadds | Fmsub | Fmsubs | Fnmadd | Fnmadds | Fnmsub | Fnmsubs
  | Fctiw | Fctiwz
  | Frsp | Fabs | Fnabs | Fmr | Fneg.

(** [registerFloatInstructions]: [RegisterInstruction] binds an emitter,
    [RegisterInstructionFallback] binds none. *)
Definition registerFloatInstructions (i : FloatInstr)
  : option (ThreadState -> Instruction -> option ThreadState) :=
  match i with
  | Fadd => Some fadd
  | Fadds => Some fadds
  | Fdiv => Some fdiv
  | Fdivs => Some fdivs
  | Fmul => Some fmul
  | Fmuls => Some fmuls
  | Fsub => Some fsub
  | Fsubs => Some fsubs
  | Fres => None
  | Frsqrte => None
  | Fsel => None
  | Fmadd => Some (fmadd fpu)
  | Fmadds => Some (fmadds fpu)
  | Fmsub => Some (fmsub fpu)
  | Fmsubs => Some (fmsubs fpu)
  | Fnmadd => Some (fnmadd fpu)
  | Fnmadds => Some (fnmadds fpu)
  | Fnmsub => Some (fnmsub fpu)
  | Fnmsubs => Some (fnmsubs fpu)
  | Fctiw => None
  | Fctiwz => None
  | Frsp => Some frsp
  | Fabs => Some fabs
  | Fnabs => Some fnabs
  | Fmr => Some fmr
  | Fneg => Some fneg
  end.

(** Translating one instruction: the registered emitter runs, and an
    instruction without one, or one whose emitter returns [jit_fallback],
    is left to the interpreter ([None]). *)
Definition jit_emit (i : FloatInstr) (state : ThreadState) (instr : Instruction)
  : option ThreadState :=
  match registerFloatInstructions i with
  | Some emitter => emitter state instr
  | None => None
  end.

End JITScalar.

(** ** The interpreter's registration table *)

Inductive PairedInstr : Type :=
  | PS_add | PS_div | PS_mul | PS_sub | PS_abs | PS_nabs | PS_neg | PS_sel
  | PS_res | PS_rsqrte | PS_msub | PS_madd | PS_nmsub | PS_nmadd | PS_mr
  | PS_sum0 | PS_sum1 | PS_muls0 | PS_muls1 | PS_madds0 | PS_madds1
  | PS_merge00 | PS_merge01 | PS_merge10 | PS_merge11.

(** [registerPairedInstructions] *)
Definition registerPairedInstructions (fpu : HostFPU) (i : PairedInstr)
  : ThreadState -> Instruction -> ThreadState :=
  match i with
  | PS_add => ps_add fpu
  | PS_div => ps_div fpu
  | PS_mul => ps_mul fpu
  | PS_sub => ps_sub fpu
  | PS_abs => ps_abs fpu
  | PS_nabs => ps_nabs fpu
  | PS_neg => ps_neg fpu
  | PS_sel => ps_sel fpu
  | PS_res => ps_res fpu
  | PS_rsqrte => ps_rsqrte fpu
  | PS_msub => ps_msub fpu
  | PS_madd => ps_madd fpu
  | PS_nmsub => ps_nmsub fpu
  | PS_nmadd => ps_nmadd fpu
  | PS_mr => ps_mr fpu
  | PS_sum0 => ps_sum0 fpu
  | PS_sum1 => ps_sum1 fpu
  | PS_muls0 => ps_muls0 fpu
  | PS_muls1 => ps_muls1 fpu
  | PS_madds0 => ps_madds0 fpu
  | PS_madds1 => ps_madds1 fpu
  | PS_merge00 => ps_merge00 fpu
  | PS_merge01 => ps_merge01 fpu
  | PS_merge10 => ps_merge10 fpu
  | PS_merge11 => ps_merge11 fpu
  end.

Import ListNotations.


(** ** Further vocabulary of the proofs *)

(** A value of a format: not a NaN, and if finite, within the format's
    digits and exponents. *)
Definition sf_bounded (f : IEEE.format) (r : spec_float) : Prop :=
  match r with
  | S754_nan => False
  | S754_finite _ m e =>
      Zpos m < 2 ^ IEEE.prec f /\ IEEE.femin f <= e <= IEEE.emax f - IEEE.prec f
  | _ => True
  end.

(** A value with its sign replaced. *)
Definition sf_with_sign (g : bool -> bool) (x : spec_float) : spec_float :=
  match x with
  | S754_zero s => S754_zero (g s)
  | S754_infinity s => S754_infinity (g s)
  | S754_nan => S754_nan
  | S754_finite s m e => S754_finite (g s) m e
  end.

(** [-x] in both lanes of a register. *)
Definition negate_fpr (v : FPR) : FPR :=
  mkFPR (neg_double (idw v)) (neg_float (iw_paired1 v)).

(** Two states that differ only in register [rb], negated in the second. *)
Definition negated_at (rb : Z) (s s' : ThreadState) : Prop :=
  fpscr s' = fpscr s /\ fenv s' = fenv s /\ cr1 s' = cr1 s
  /\ forall r, fpr s' r = if r =? rb then negate_fpr (fpr s r) else fpr s r.

(** The exception enable bits of an FPSCR value. *)
Definition enables (f : FPSCR) : bool * bool * bool * bool * bool :=
  (ve f, oe f, ue f, ze f, xe f).

(** What no executor body changes: CR1 and the enables. *)
Definition controls (s : ThreadState) : Z * (bool * bool * bool * bool * bool) :=
  (cr1 s, enables (fpscr s)).

(** An executor is a body followed by the record-bit step, and the body
    keeps CR1 and the enables. *)
Definition body_then_record (exec : ThreadState -> Instruction -> ThreadState)
    (st : ThreadState) (instr : Instruction) : Prop :=
  exists s, exec st instr = record_cr1 instr s /\ controls s = controls st.

(** The invalid-operation bits of an FPSCR value that the paired-single
    executors can raise, and the same six flags of a slot. *)
Definition invalid_bits (f : FPSCR) : list bool :=
  [vxsnan f; vxisi f; vximz f; vxidi f; vxzdz f; vxsqrt f].

Definition raised_invalid (r : Raised) : list bool :=
  [r_vxsnan r; r_vxisi r; r_vximz r; r_vxidi r; r_vxzdz r; r_vxsqrt r].

Definition or_bits (x y : list bool) : list bool :=
  map (fun p => fst p || snd p) (combine x y).


(** * Properties *)

(** ** State bookkeeping *)

Lemma fpr_set_fpr_same (r : Z) (v : FPR) (st : ThreadState) :
  fpr (set_fpr r v st) r = v.
Proof. cbn. now rewrite Z.eqb_refl. Qed.

Lemma fpr_record_cr1 (instr : Instruction) (st : ThreadState) :
  fpr (record_cr1 instr st) = fpr st.
Proof. unfold record_cr1. now destruct (rc instr). Qed.

Lemma fpscr_record_cr1 (instr : Instruction) (st : ThreadState) :
  fpscr (record_cr1 instr st) = fpscr st.
Proof. unfold record_cr1. now destruct (rc instr). Qed.

Lemma fenv_record_cr1 (instr : Instruction) (st : ThreadState) :
  fenv (record_cr1 instr st) = fenv st.
Proof. unfold record_cr1. now destruct (rc instr). Qed.

(** ** The executable host on known values *)

Example host_add_exact :
  fp_add sse2 0x3FF0000000000000 0x4000000000000000 = (0x4008000000000000, fe_none).
Proof. vm_compute. reflexivity. Qed.

Example host_div_third :
  fp_div sse2 0x3FF0000000000000 0x4008000000000000
  = (0x3FD5555555555555, mkFEnv false false false false true).
Proof. vm_compute. reflexivity. Qed.

Example host_div_by_zero :
  fp_div sse2 0x3FF0000000000000 0
  = (0x7FF0000000000000, mkFEnv false true false false false).
Proof. vm_compute. reflexivity. Qed.

(** Narrowing rounds to nearest, ties to even: 1 + 2^-24 goes down to 1.0f,
    1 + 3 * 2^-24 goes up to 1 + 2^-22. *)
Example host_narrow_ties_to_even :
  fst (fp_narrow sse2 0x3FF0000010000000) = 0x3F800000
  /\ fst (fp_narrow sse2 0x3FF0000030000000) = 0x3F800002.
Proof. vm_compute. split; reflexivity. Qed.

Example host_narrow_overflow :
  fp_narrow sse2 0x47F0000000000000
  = (0x7F800000, mkFEnv false false true false true).
Proof. vm_compute. reflexivity. Qed.

Example host_narrow_underflow :
  fp_narrow sse2 0x3690000000000001
  = (0x00000001, mkFEnv false false false true true).
Proof. vm_compute. reflexivity. Qed.

Example host_widen_subnormal :
  fp_widen sse2 0x00000001 = (0x36A0000000000000, fe_none).
Proof. vm_compute. reflexivity. Qed.

Example host_sqrt_two :
  fp_sqrtf sse2 0x40000000 = (0x3FB504F3, mkFEnv false false false false true).
Proof. vm_compute. reflexivity. Qed.

(** [extend_float] keeps a signalling NaN signalling; the host's widening
    quiets it. *)
Example extend_float_keeps_snan :
  extend_float 0x7F800001 = 0x7FF0000020000000
  /\ fst (fp_widen sse2 0x7F800001) = 0x7FF8000020000000.
Proof. vm_compute. split; reflexivity. Qed.

(** ** The scenarios of the specification *)

(** ps_add, A = {1.5, 2.25f}, B = {2.5, -0.25f}: D = {4.0, 2.0f}. *)
Example scenario_ps_add :
  let st := state_of fpscr_zero (mkFPR 0x3FF8000000000000 0x40100000)
                     (mkFPR 0x4004000000000000 0xBE800000) (mkFPR 0 0) in
  fpr (ps_add sse2 st instr_abcd) 4 = mkFPR 0x4010000000000000 0x40000000
  /\ fpscr (ps_add sse2 st instr_abcd) = set_fprf 0x04 fpscr_zero.
Proof. vm_compute. split; reflexivity. Qed.

(** ps_muls0, A = {2.0, 3.0f}, C = {4.0, 99.0f}: D = {8.0, 12.0f}. *)
Example scenario_ps_muls0 :
  let st := state_of fpscr_zero (mkFPR 0x4000000000000000 0x40400000)
                     (mkFPR 0 0) (mkFPR 0x4010000000000000 0x42C60000) in
  fpr (ps_muls0 sse2 st instr_abcd) 4 = mkFPR 0x4020000000000000 0x41400000.
Proof. vm_compute. reflexivity. Qed.

(** ps_merge10, A = {sNaN, 7.0f}, B = {1.5, 2.0f}: D = {7.0, 1.5f}. *)
Example scenario_ps_merge10 :
  let st := state_of fpscr_zero (mkFPR 0x7FF00000ABCDEF00 0x40E00000)
                     (mkFPR 0x3FF8000000000000 0x40000000) (mkFPR 0 0) in
  fpr (ps_merge10 sse2 st instr_abcd) 4 = mkFPR 0x401C000000000000 0x3FC00000.
Proof. vm_compute. reflexivity. Qed.

(** ps_sel, A = {-0.0, +0.0f}, B = {10.0, 20.0f}, C = {30.0, 40.0f}:
    D = {30.0, 40.0f}. *)
Example scenario_ps_sel :
  let st := state_of fpscr_zero (mkFPR 0x8000000000000000 0)
                     (mkFPR 0x4024000000000000 0x41A00000)
                     (mkFPR 0x403E000000000000 0x42200000) in
  fpr (ps_sel sse2 st instr_abcd) 4 = mkFPR 0x403E000000000000 0x42200000.
Proof. vm_compute. reflexivity. Qed.

(** ps_rsqrte, B = {-4.0, 4.0f}, VE clear: VXSQRT is set, D = {qNaN, 0.5f}. *)
Example scenario_ps_rsqrte :
  let st := state_of fpscr_zero (mkFPR 0 0)
                     (mkFPR 0xC010000000000000 0x40800000) (mkFPR 0 0) in
  fpr (ps_rsqrte sse2 st instr_abcd) 4 = mkFPR 0x7FF8000000000000 0x3F000000
  /\ vxsqrt (fpscr (ps_rsqrte sse2 st instr_abcd)) = true.
Proof. vm_compute. split; reflexivity. Qed.

(** ** The flag order *)

Ltac bool_tauto := unfold implb; btauto.

Lemma raised_le_refl (x : Raised) : raised_le x x = true.
Proof. unfold raised_le. now rewrite !implb_same. Qed.

Lemma implb_trans (a b c : bool) : implb a b = true -> implb b c = true -> implb a c = true.
Proof. now destruct a, b, c. Qed.

Lemma raised_le_trans (x y z : Raised) :
  raised_le x y = true -> raised_le y z = true -> raised_le x z = true.
Proof.
  unfold raised_le. rewrite !andb_true_iff.
  intros [[[[[[H1 H2] H3] H4] H5] H6] H7] [[[[[[K1 K2] K3] K4] K5] K6] K7].
  repeat split; eapply implb_trans; eassumption.
Qed.

Lemma raised_le_or_l (x y : Raised) : raised_le x (raised_or x y) = true.
Proof. unfold raised_le, raised_or; cbn. rewrite !andb_true_iff. repeat split; bool_tauto. Qed.

Lemma raised_le_or_r (x y : Raised) : raised_le y (raised_or x y) = true.
Proof. unfold raised_le, raised_or; cbn. rewrite !andb_true_iff. repeat split; bool_tauto. Qed.

Lemma raised_le_or_lub (x y z : Raised) :
  raised_le x z = true -> raised_le y z = true -> raised_le (raised_or x y) z = true.
Proof.
  unfold raised_le, raised_or; cbn. rewrite !andb_true_iff.
  intros [[[[[[H1 H2] H3] H4] H5] H6] H7] [[[[[[K1 K2] K3] K4] K5] K6] K7].
  repeat split;
    match goal with
    | H : implb ?a ?c = true, K : implb ?b ?c = true |- implb (?a || ?b) ?c = true =>
        destruct a, b, c; try reflexivity; try discriminate
    end.
Qed.

(** [updateFPSCR] clears none of the seven flags. *)
Lemma sticky_updateFPSCR (old : FPSCR) (st : ThreadState) :
  raised_le (sticky_of (fpscr st)) (sticky_of (fpscr (updateFPSCR old st))) = true.
Proof.
  unfold raised_le, sticky_of; cbn. rewrite !implb_same. cbn. bool_tauto.
Qed.

Lemma sticky_updateFPRF (v : Z) (st : ThreadState) :
  sticky_of (fpscr (updateFPRF v st)) = sticky_of (fpscr st).
Proof. reflexivity. Qed.

(** ** One slot against its reference *)

Section Slots.

Variable fpu : HostFPU.

Lemma raise_arith_le (f : FPSCR) (r : Raised) :
  r_vxsqrt r = false ->
  raised_le (raised_or (sticky_of f) r)
    (sticky_of
       (or_zx (r_zx r) (or_vxzdz (r_vxzdz r) (or_vxidi (r_vxidi r)
          (or_vximz (r_vximz r) (or_vxisi (r_vxisi r) (or_vxsnan (r_vxsnan r) f))))))) = true.
Proof.
  intros Hq. unfold raised_le, raised_or, sticky_of; cbn. rewrite Hq.
  rewrite !andb_true_iff. repeat split; bool_tauto.
Qed.

Lemma psArithSingle_spec (op : PSArithOperator) (slotA slotB : Z)
    (st : ThreadState) (instr : Instruction) :
  let a := arith_a slotA st instr in
  let b := arith_b op slotB st instr in
  let r := arith_raised op a b in
  snd (psArithSingle fpu op slotA slotB st instr)
  = (if gate (fpscr st) r then None else Some (arith_value fpu op a b))
  /\ slot_frame st (fst (psArithSingle fpu op slotA slotB st instr)) r.
Proof.
  intros a b r. unfold psArithSingle.
  fold (arith_a slotA st instr). fold (arith_b op slotB st instr). fold a. fold b.
  unfold gate, raised_vx, arith_value. subst r. unfold arith_raised.
  destruct (arith_flags op (is_signalling_nan a || is_signalling_nan b) a b)
    as [[[[vxisi vximz] vxidi] vxzdz] zx] eqn:E.
  cbn [r_vxsnan r_vxisi r_vximz r_vxidi r_vxzdz r_vxsqrt r_zx with_fpscr fpscr].
  rewrite orb_false_r.
  match goal with |- context [or_zx zx ?g] => set (f1 := or_zx zx g) end.
  change (ve f1) with (ve (fpscr st)). change (ze f1) with (ze (fpscr st)).
  assert (Hle : raised_le
            (raised_or (sticky_of (fpscr st))
               (mkRaised (is_signalling_nan a || is_signalling_nan b)
                  vxisi vximz vxidi vxzdz false zx))
            (sticky_of f1) = true)
    by (apply (raise_arith_le (fpscr st)
                 (mkRaised (is_signalling_nan a || is_signalling_nan b)
                    vxisi vximz vxidi vxzdz false zx)); reflexivity).
  destruct (((is_signalling_nan a || is_signalling_nan b || vxisi || vximz
              || vxidi || vxzdz) && ve (fpscr st)) || (zx && ze (fpscr st))).
  { split; [reflexivity|]. repeat split; assumption. }
  destruct (is_nan a). { split; [reflexivity|]. repeat split; assumption. }
  destruct (is_nan b). { split; [reflexivity|]. repeat split; assumption. }
  destruct (vxisi || vximz || vxidi || vxzdz).
  { split; [reflexivity|]. repeat split; assumption. }
  destruct op; cbn; (split; [reflexivity|]); repeat split; assumption.
Qed.

Lemma raise_fma_le (f : FPSCR) (r : Raised) :
  r_vxidi r = false -> r_vxzdz r = false -> r_vxsqrt r = false -> r_zx r = false ->
  raised_le (raised_or (sticky_of f) r)
    (sticky_of (or_vximz (r_vximz r) (or_vxisi (r_vxisi r) (or_vxsnan (r_vxsnan r) f))))
  = true.
Proof.
  intros H1 H2 H3 H4. unfold raised_le, raised_or, sticky_of; cbn.
  rewrite H1, H2, H3, H4. rewrite !andb_true_iff. repeat split; bool_tauto.
Qed.

Lemma fmaSingle_spec (flags : Z) (slotAB slotC : Z)
    (st : ThreadState) (instr : Instruction) :
  let a := read_slot slotAB st (frA instr) in
  let b := read_slot slotAB st (frB instr) in
  let c := read_slot slotC st (frC instr) in
  let r := fma_raised flags a b c in
  snd (fmaSingle fpu flags slotAB slotC st instr)
  = (if gate (fpscr st) r then None else Some (fma_value fpu flags a b c))
  /\ slot_frame st (fst (fmaSingle fpu flags slotAB slotC st instr)) r.
Proof.
  intros a b c r. unfold fmaSingle. fold a. fold b. fold c.
  unfold gate, raised_vx, fma_value. subst r. unfold fma_raised.
  cbn [r_vxsnan r_vxisi r_vximz r_vxidi r_vxzdz r_vxsqrt r_zx with_fpscr fpscr].
  rewrite ?orb_false_r.
  match goal with |- context [ve (or_vximz ?z ?g)] => set (f1 := or_vximz z g) end.
  change (ve f1) with (ve (fpscr st)).
  assert (Hle : raised_le
            (raised_or (sticky_of (fpscr st))
               (mkRaised (fma_vxsnan a b c) (fma_vxisi flags a b c) (fma_vximz a c)
                  false false false false))
            (sticky_of f1) = true)
    by (apply (raise_fma_le (fpscr st)
                 (mkRaised (fma_vxsnan a b c) (fma_vxisi flags a b c) (fma_vximz a c)
                    false false false false)); reflexivity).
  destruct ((fma_vxsnan a b c || fma_vxisi flags a b c || fma_vximz a c)
            && ve (fpscr st)).
  { split; [reflexivity|]. repeat split; assumption. }
  destruct (is_nan a). { split; [reflexivity|]. repeat split; assumption. }
  destruct (is_nan b). { split; [reflexivity|]. repeat split; assumption. }
  destruct (is_nan c). { split; [reflexivity|]. repeat split; assumption. }
  destruct (fma_vxisi flags a b c || fma_vximz a c).
  { split; [reflexivity|]. repeat split; assumption. }
  cbn. split; [reflexivity|]. repeat split; assumption.
Qed.

End Slots.

(** ** A whole instruction against its reference *)

Section Families.

Variable fpu : HostFPU.

Lemma read_slot_ext (slot r : Z) (st st1 : ThreadState) :
  fpr st1 = fpr st -> read_slot slot st1 r = read_slot slot st r.
Proof. intros H. unfold read_slot. now rewrite H. Qed.

Lemma gate_ext (f f1 : FPSCR) (r : Raised) :
  ve f1 = ve f -> ze f1 = ze f -> gate f1 r = gate f r.
Proof. intros H1 H2. unfold gate. now rewrite H1, H2. Qed.

Lemma finish_fpr (old : FPSCR) (instr : Instruction) (w : option FPR)
    (cls : option Z) (st st2 : ThreadState) (r : Z) :
  fpr st2 = fpr st ->
  fpr (finish old instr w cls st2) r =
  match w with
  | Some v => if r =? frD instr then v else fpr st r
  | None => fpr st r
  end.
Proof.
  intros H. unfold finish. rewrite fpr_record_cr1.
  destruct w, cls; cbn; now rewrite H.
Qed.

Lemma finish_accumulated (old : FPSCR) (instr : Instruction) (w : option FPR)
    (cls : option Z) (st2 : ThreadState) (x : Raised) :
  raised_le x (sticky_of (fpscr st2)) = true ->
  raised_le x (sticky_of (fpscr (finish old instr w cls st2))) = true.
Proof.
  intros H. unfold finish. rewrite fpscr_record_cr1.
  eapply raised_le_trans; [|apply sticky_updateFPSCR].
  destruct w, cls; exact H.
Qed.

Lemma finish_fprf (old : FPSCR) (instr : Instruction) (w : option FPR)
    (cls : option Z) (st2 : ThreadState) :
  fprf (fpscr (finish old instr w cls st2)) =
  match cls with Some v => fprf_of v | None => fprf (fpscr st2) end.
Proof.
  unfold finish. rewrite fpscr_record_cr1. destruct w, cls; reflexivity.
Qed.

(** Two slots in sequence: the second sees the registers and enables of the
    first, and the flags of both are kept. *)
Lemma slot_frame_seq (st st1 st2 : ThreadState) (r0 r1 : Raised) :
  slot_frame st st1 r0 -> slot_frame st1 st2 r1 ->
  slot_frame st st2 (raised_or r0 r1).
Proof.
  intros (F1 & V1 & Z1 & P1 & L1) (F2 & V2 & Z2 & P2 & L2).
  repeat split; try congruence.
  eapply raised_le_trans; [|exact L2].
  apply raised_le_or_lub; [|apply raised_le_or_lub].
  - eapply raised_le_trans; [|apply raised_le_or_l].
    eapply raised_le_trans; [|exact L1]. apply raised_le_or_l.
  - eapply raised_le_trans; [|apply raised_le_or_l].
    eapply raised_le_trans; [|exact L1]. apply raised_le_or_r.
  - apply raised_le_or_r.
Qed.

Lemma psArithGeneric_spec (op : PSArithOperator) (s0 s1 : Z)
    (st : ThreadState) (instr : Instruction) :
  let F := FArith op s0 s1 in
  let st' := psArithGeneric fpu op s0 s1 st instr in
  (forall r, fpr st' r =
     if gate_triggers F st instr then fpr st r
     else if r =? frD instr then written fpu F st instr else fpr st r)
  /\ accumulated (fpscr st) (raised F st instr) (fpscr st') = true.
Proof.
  intros F st'. subst st' F. unfold psArithGeneric, gate_triggers, raised, accumulated.
  cbn [slot_raised written].
  destruct (psArithSingle_spec fpu op 0 s0 st instr) as [R0 Fr0].
  destruct (psArithSingle fpu op 0 s0 st instr) as [st1 w0]. cbn [fst snd] in R0, Fr0.
  destruct (psArithSingle_spec fpu op 1 s1 st1 instr) as [R1 Fr1].
  destruct (psArithSingle fpu op 1 s1 st1 instr) as [st2 w1]. cbn [fst snd] in R1, Fr1.
  pose proof Fr0 as (F1 & V1 & Z1 & _ & _).
  unfold arith_a, arith_b in R1, Fr1.
  rewrite !(read_slot_ext _ _ st st1 F1) in R1, Fr1.
  rewrite (gate_ext (fpscr st) (fpscr st1)) in R1 by assumption.
  fold (arith_a 1 st instr) in R1, Fr1. fold (arith_b op s1 st instr) in R1, Fr1.
  pose proof (slot_frame_seq _ _ _ _ _ Fr0 Fr1) as (F2 & _ & _ & _ & L2).
  replace (record_cr1 instr _) with
    (finish (fpscr st) instr
       (match w0, w1 with
        | Some d0, Some d1 => Some (mkFPR (extend_float d0) d1)
        | _, _ => None
        end)
       (match w0 with Some d0 => Some (extend_float d0) | None => None end) st2)
    by (unfold finish; destruct w0, w1; reflexivity).
  split.
  - intros r. rewrite (finish_fpr _ _ _ _ st) by assumption.
    subst w0 w1.
    destruct (gate (fpscr st) _), (gate (fpscr st) _); reflexivity.
  - apply finish_accumulated. exact L2.
Qed.

Lemma fmaGeneric_spec (flags s0 s1 : Z) (st : ThreadState) (instr : Instruction) :
  let F := FFma flags s0 s1 in
  let st' := fmaGeneric fpu flags s0 s1 st instr in
  (forall r, fpr st' r =
     if gate_triggers F st instr then fpr st r
     else if r =? frD instr then written fpu F st instr else fpr st r)
  /\ accumulated (fpscr st) (raised F st instr) (fpscr st') = true.
Proof.
  intros F st'. subst st' F. unfold fmaGeneric, gate_triggers, raised, accumulated.
  cbn [slot_raised written].
  destruct (fmaSingle_spec fpu flags 0 s0 st instr) as [R0 Fr0].
  destruct (fmaSingle fpu flags 0 s0 st instr) as [st1 w0]. cbn [fst snd] in R0, Fr0.
  destruct (fmaSingle_spec fpu flags 1 s1 st1 instr) as [R1 Fr1].
  destruct (fmaSingle fpu flags 1 s1 st1 instr) as [st2 w1]. cbn [fst snd] in R1, Fr1.
  pose proof Fr0 as (F1 & V1 & Z1 & _ & _).
  rewrite !(read_slot_ext _ _ st st1 F1) in R1, Fr1.
  rewrite (gate_ext (fpscr st) (fpscr st1)) in R1 by assumption.
  pose proof (slot_frame_seq _ _ _ _ _ Fr0 Fr1) as (F2 & _ & _ & _ & L2).
  replace (record_cr1 instr _) with
    (finish (fpscr st) instr
       (match w0, w1 with
        | Some d0, Some d1 => Some (mkFPR (extend_float d0) d1)
        | _, _ => None
        end)
       (match w0 with Some d0 => Some (extend_float d0) | None => None end) st2)
    by (unfold finish; destruct w0, w1; reflexivity).
  split.
  - intros r. rewrite (finish_fpr _ _ _ _ st) by assumption.
    subst w0 w1.
    destruct (gate (fpscr st) _), (gate (fpscr st) _); reflexivity.
  - apply finish_accumulated. exact L2.
Qed.

Lemma sum1_ps0_spec (st : ThreadState) (c0 : Z) :
  snd (sum1_ps0 fpu st c0)
  = (if is_nan c0 then truncate_double c0 else fst (fp_narrow fpu c0))
  /\ fpr (fst (sum1_ps0 fpu st c0)) = fpr st
  /\ fpscr (fst (sum1_ps0 fpu st c0)) = fpscr st.
Proof.
  unfold sum1_ps0. destruct (is_nan c0); [repeat split|].
  cbn. destruct (FE_INEXACT (fenv st)), (FE_OVERFLOW (fenv st)); repeat split.
Qed.

Lemma raised_or_idem_le (x y : Raised) (z : Raised) :
  raised_le (raised_or x y) z = true -> raised_le (raised_or x (raised_or y y)) z = true.
Proof.
  intros H. eapply raised_le_trans; [|exact H].
  apply raised_le_or_lub; [apply raised_le_or_l|].
  apply raised_le_or_lub; apply raised_le_or_r.
Qed.

Lemma psSumGeneric_body_spec (slot : Z) (st : ThreadState) (instr : Instruction) :
  let F := FSum slot in
  let st2 := psSumGeneric_body fpu slot st instr in
  let r0 := arith_raised PSAdd (arith_a 0 st instr) (arith_b PSAdd 1 st instr) in
  (forall r, fpr st2 r =
     if gate (fpscr st) r0 then fpr st r
     else if r =? frD instr then written fpu F st instr else fpr st r)
  /\ raised_le (raised_or (sticky_of (fpscr st)) r0) (sticky_of (fpscr st2)) = true
  /\ fprf (fpscr st2) =
     (if gate (fpscr st) r0 then fprf (fpscr st)
      else fprf_of (extend_float
                      (arith_value fpu PSAdd (arith_a 0 st instr) (arith_b PSAdd 1 st instr)))).
Proof.
  intros F st2 r0. subst st2 F. unfold psSumGeneric_body. cbn [written].
  destruct (psArithSingle_spec fpu PSAdd 0 1 st instr) as [R0 Fr0].
  destruct (psArithSingle fpu PSAdd 0 1 st instr) as [st1 w0]. cbn [fst snd] in R0, Fr0.
  fold r0 in R0, Fr0. destruct Fr0 as (F1 & V1 & Z1 & P1 & L1).
  subst w0. destruct (gate (fpscr st) r0).
  - repeat split; try assumption. intros r. now rewrite F1.
  - destruct (slot =? 0).
    + repeat split; try assumption. intros r. cbn. now rewrite F1.
    + destruct (sum1_ps0_spec (updateFPRF
         (extend_float (arith_value fpu PSAdd (arith_a 0 st instr) (arith_b PSAdd 1 st instr)))
         st1) (paired0 (fpr st1 (frC instr)))) as (S1 & S2 & S3).
      cbn [updateFPRF with_fpscr fpr] in *.
      destruct (sum1_ps0 fpu _ _) as [st3 ps0]. cbn [fst snd] in S1, S2, S3.
      repeat split.
      * intros r. cbn. rewrite S2, S1, F1. reflexivity.
      * cbn. rewrite S3. exact L1.
      * cbn. rewrite S3. reflexivity.
Qed.

Lemma psSumGeneric_spec (slot : Z) (st : ThreadState) (instr : Instruction) :
  let F := FSum slot in
  let st' := psSumGeneric fpu slot st instr in
  (forall r, fpr st' r =
     if gate_triggers F st instr then fpr st r
     else if r =? frD instr then written fpu F st instr else fpr st r)
  /\ accumulated (fpscr st) (raised F st instr) (fpscr st') = true.
Proof.
  intros F st'. subst st' F. unfold psSumGeneric, gate_triggers, raised, accumulated.
  cbn [slot_raised].
  destruct (psSumGeneric_body_spec slot st instr) as (B1 & B2 & _).
  rewrite orb_diag. split.
  - intros r. rewrite fpr_record_cr1. exact (B1 r).
  - rewrite fpscr_record_cr1. apply raised_or_idem_le.
    eapply raised_le_trans; [exact B2|apply sticky_updateFPSCR].
Qed.

Lemma res_lane_spec (b : Z) (st : ThreadState) :
  snd (res_lane fpu (is_signalling_nan b) b st) = res_value fpu b
  /\ fpr (fst (res_lane fpu (is_signalling_nan b) b st)) = fpr st
  /\ fpscr (fst (res_lane fpu (is_signalling_nan b) b st)) = fpscr st.
Proof.
  unfold res_lane, res_value.
  destruct (is_nan b); [repeat split|].
  destruct (is_signalling_nan b); repeat split.
Qed.

Lemma rsqrte_lane_spec (b : Z) (st : ThreadState) :
  let inv := r_vxsnan (rsqrte_raised b) || r_vxsqrt (rsqrte_raised b) in
  snd (rsqrte_lane fpu inv b st) = rsqrte_value fpu b
  /\ fpr (fst (rsqrte_lane fpu inv b st)) = fpr st
  /\ fpscr (fst (rsqrte_lane fpu inv b st)) = fpscr st.
Proof.
  intros inv. unfold rsqrte_lane, rsqrte_value. fold inv.
  destruct (is_nan b); [repeat split|].
  destruct inv; repeat split.
Qed.

Lemma updateFPRF_f_frame (d : Z) (st : ThreadState) :
  fpr (updateFPRF_f fpu d st) = fpr st
  /\ ve (fpscr (updateFPRF_f fpu d st)) = ve (fpscr st)
  /\ ze (fpscr (updateFPRF_f fpu d st)) = ze (fpscr st)
  /\ sticky_of (fpscr (updateFPRF_f fpu d st)) = sticky_of (fpscr st).
Proof. repeat split. Qed.

Lemma ps_res_spec (st : ThreadState) (instr : Instruction) :
  let st' := ps_res fpu st instr in
  (forall r, fpr st' r =
     if gate_triggers FRes st instr then fpr st r
     else if r =? frD instr then written fpu FRes st instr else fpr st r)
  /\ accumulated (fpscr st) (raised FRes st instr) (fpscr st') = true.
Proof.
  intros st'. subst st'. unfold ps_res, gate_triggers, raised, accumulated.
  cbn [slot_raised written]. cbv zeta.
  change (paired0 (fpr st (frB instr))) with (read_slot 0 st (frB instr)).
  change (extend_float (paired1 (fpr st (frB instr)))) with (read_slot 1 st (frB instr)).
  set (b0 := read_slot 0 st (frB instr)). set (b1 := read_slot 1 st (frB instr)).
  set (st0 := with_fpscr (or_zx _) _).
  assert (F0 : fpr st0 = fpr st) by reflexivity.
  assert (L0 : raised_le (raised_or (sticky_of (fpscr st))
                            (raised_or (res_raised b0) (res_raised b1)))
                         (sticky_of (fpscr st0)) = true).
  { unfold raised_le, raised_or, sticky_of, res_raised; cbn.
    rewrite !andb_true_iff. repeat split; bool_tauto. }
  change (ve (fpscr st0)) with (ve (fpscr st)).
  change (ze (fpscr st0)) with (ze (fpscr st)).
  unfold gate, raised_vx.
  change (r_vxsnan (res_raised b0)) with (is_signalling_nan b0).
  change (r_vxsnan (res_raised b1)) with (is_signalling_nan b1).
  change (r_zx (res_raised b0)) with (is_zero b0).
  change (r_zx (res_raised b1)) with (is_zero b1).
  cbn [r_vxsnan r_vxisi r_vximz r_vxidi r_vxzdz r_vxsqrt r_zx res_raised].
  rewrite !orb_false_r.
  destruct ((is_signalling_nan b0 && ve (fpscr st)) || (is_zero b0 && ze (fpscr st))).
  - cbn [orb].
    change (ve (fpscr st0)) with (ve (fpscr st)).
    change (ze (fpscr st0)) with (ze (fpscr st)).
    destruct ((is_signalling_nan b1 && ve (fpscr st)) || (is_zero b1 && ze (fpscr st))).
    + split; [intros r; rewrite fpr_record_cr1; reflexivity|].
      rewrite fpscr_record_cr1.
      eapply raised_le_trans; [exact L0|apply sticky_updateFPSCR].
    + destruct (res_lane_spec b1 st0) as (_ & R2 & R3).
      destruct (res_lane fpu (is_signalling_nan b1) b1 st0) as [sc d1].
      cbn [fst snd] in R2, R3.
      split; [intros r; rewrite fpr_record_cr1; cbn; now rewrite R2|].
      rewrite fpscr_record_cr1.
      eapply raised_le_trans; [|apply sticky_updateFPSCR].
      rewrite R3. exact L0.
  - cbn [orb].
    destruct (res_lane_spec b0 st0) as (Q1 & Q2 & Q3).
    destruct (res_lane fpu (is_signalling_nan b0) b0 st0) as [sa d0].
    cbn [fst snd] in Q1, Q2, Q3. subst d0.
    destruct (updateFPRF_f_frame (res_value fpu b0) sa) as (U1 & U2 & U3 & U4).
    set (sb := updateFPRF_f fpu (res_value fpu b0) sa) in *. clearbody sb.
    rewrite U2, U3, Q3.
    change (ve (fpscr st0)) with (ve (fpscr st)).
    change (ze (fpscr st0)) with (ze (fpscr st)).
    destruct ((is_signalling_nan b1 && ve (fpscr st)) || (is_zero b1 && ze (fpscr st))).
    + split; [intros r; rewrite fpr_record_cr1; cbn; now rewrite U1, Q2|].
      rewrite fpscr_record_cr1.
      eapply raised_le_trans; [|apply sticky_updateFPSCR].
      rewrite U4, Q3. exact L0.
    + destruct (res_lane_spec b1 sb) as (T1 & T2 & T3).
      destruct (res_lane fpu (is_signalling_nan b1) b1 sb) as [sc d1].
      cbn [fst snd] in T1, T2, T3. subst d1.
      split; [intros r; rewrite fpr_record_cr1; cbn; now rewrite T2, U1, Q2|].
      rewrite fpscr_record_cr1.
      eapply raised_le_trans; [|apply sticky_updateFPSCR].
      cbn [set_fpr fpscr]. rewrite T3, U4, Q3. exact L0.
Qed.

Lemma ps_rsqrte_spec (st : ThreadState) (instr : Instruction) :
  let st' := ps_rsqrte fpu st instr in
  (forall r, fpr st' r =
     if gate_triggers FRsqrte st instr then fpr st r
     else if r =? frD instr then written fpu FRsqrte st instr else fpr st r)
  /\ accumulated (fpscr st) (raised FRsqrte st instr) (fpscr st') = true.
Proof.
  intros st'. subst st'. unfold ps_rsqrte, gate_triggers, raised, accumulated.
  cbn [slot_raised written]. cbv zeta.
  change (paired0 (fpr st (frB instr))) with (read_slot 0 st (frB instr)).
  change (extend_float (paired1 (fpr st (frB instr)))) with (read_slot 1 st (frB instr)).
  set (b0 := read_slot 0 st (frB instr)). set (b1 := read_slot 1 st (frB instr)).
  set (st0 := with_fpscr (or_zx _) _).
  assert (F0 : fpr st0 = fpr st) by reflexivity.
  assert (L0 : raised_le (raised_or (sticky_of (fpscr st))
                            (raised_or (rsqrte_raised b0) (rsqrte_raised b1)))
                         (sticky_of (fpscr st0)) = true).
  { unfold raised_le, raised_or, sticky_of, rsqrte_raised; cbn.
    rewrite !andb_true_iff. repeat split; bool_tauto. }
  change (ve (fpscr st0)) with (ve (fpscr st)).
  change (ze (fpscr st0)) with (ze (fpscr st)).
  unfold gate, raised_vx.
  change (negb (is_signalling_nan b0) && signbit b0 && negb (is_zero b0))
    with (r_vxsqrt (rsqrte_raised b0)).
  change (negb (is_signalling_nan b1) && signbit b1 && negb (is_zero b1))
    with (r_vxsqrt (rsqrte_raised b1)).
  change (is_signalling_nan b0) with (r_vxsnan (rsqrte_raised b0)).
  change (is_signalling_nan b1) with (r_vxsnan (rsqrte_raised b1)).
  change (r_vxisi (rsqrte_raised b0)) with false.
  change (r_vximz (rsqrte_raised b0)) with false.
  change (r_vxidi (rsqrte_raised b0)) with false.
  change (r_vxzdz (rsqrte_raised b0)) with false.
  change (r_vxisi (rsqrte_raised b1)) with false.
  change (r_vximz (rsqrte_raised b1)) with false.
  change (r_vxidi (rsqrte_raised b1)) with false.
  change (r_vxzdz (rsqrte_raised b1)) with false.
  change (r_zx (rsqrte_raised b0)) with (is_zero b0).
  change (r_zx (rsqrte_raised b1)) with (is_zero b1).
  rewrite !orb_false_r.
  set (v0 := r_vxsnan (rsqrte_raised b0) || r_vxsqrt (rsqrte_raised b0)).
  set (v1 := r_vxsnan (rsqrte_raised b1) || r_vxsqrt (rsqrte_raised b1)).
  destruct ((v0 && ve (fpscr st)) || (is_zero b0 && ze (fpscr st))).
  - cbn [orb].
    change (ve (fpscr st0)) with (ve (fpscr st)).
    change (ze (fpscr st0)) with (ze (fpscr st)).
    destruct ((v1 && ve (fpscr st)) || (is_zero b1 && ze (fpscr st))).
    + split; [intros r; rewrite fpr_record_cr1; reflexivity|].
      rewrite fpscr_record_cr1.
      eapply raised_le_trans; [exact L0|apply sticky_updateFPSCR].
    + destruct (rsqrte_lane_spec b1 st0) as (_ & R2 & R3). fold v1 in R2, R3.
      destruct (rsqrte_lane fpu v1 b1 st0) as [sc d1].
      cbn [fst snd] in R2, R3.
      split; [intros r; rewrite fpr_record_cr1; cbn; now rewrite R2|].
      rewrite fpscr_record_cr1.
      eapply raised_le_trans; [|apply sticky_updateFPSCR].
      rewrite R3. exact L0.
  - cbn [orb].
    destruct (rsqrte_lane_spec b0 st0) as (Q1 & Q2 & Q3). fold v0 in Q1, Q2, Q3.
    destruct (rsqrte_lane fpu v0 b0 st0) as [sa d0].
    cbn [fst snd] in Q1, Q2, Q3. subst d0.
    destruct (updateFPRF_f_frame (rsqrte_value fpu b0) sa) as (U1 & U2 & U3 & U4).
    set (sb := updateFPRF_f fpu (rsqrte_value fpu b0) sa) in *. clearbody sb.
    rewrite U2, U3, Q3.
    change (ve (fpscr st0)) with (ve (fpscr st)).
    change (ze (fpscr st0)) with (ze (fpscr st)).
    destruct ((v1 && ve (fpscr st)) || (is_zero b1 && ze (fpscr st))).
    + split; [intros r; rewrite fpr_record_cr1; cbn; now rewrite U1, Q2|].
      rewrite fpscr_record_cr1.
      eapply raised_le_trans; [|apply sticky_updateFPSCR].
      rewrite U4, Q3. exact L0.
    + destruct (rsqrte_lane_spec b1 sb) as (T1 & T2 & T3). fold v1 in T1, T2, T3.
      destruct (rsqrte_lane fpu v1 b1 sb) as [sc d1].
      cbn [fst snd] in T1, T2, T3. subst d1.
      split; [intros r; rewrite fpr_record_cr1; cbn; now rewrite T2, U1, Q2|].
      rewrite fpscr_record_cr1.
      eapply raised_le_trans; [|apply sticky_updateFPSCR].
      cbn [set_fpr fpscr]. rewrite T3, U4, Q3. exact L0.
Qed.

Lemma run_family_spec (F : Family) (st : ThreadState) (instr : Instruction) :
  let st' := run_family fpu F st instr in
  (forall r, fpr st' r =
     if gate_triggers F st instr then fpr st r
     else if r =? frD instr then written fpu F st instr else fpr st r)
  /\ accumulated (fpscr st) (raised F st instr) (fpscr st') = true.
Proof.
  destruct F; cbn [run_family].
  - apply psArithGeneric_spec.
  - apply psSumGeneric_spec.
  - apply fmaGeneric_spec.
  - apply ps_res_spec.
  - apply ps_rsqrte_spec.
Qed.

Lemma run_is_family (i : GatedInstr) : run fpu i = run_family fpu (family i).
Proof. destruct i; reflexivity. Qed.

End Families.

(** ** Write gating *)

(** C1. For every gated paired-single instruction (ps_add, ps_sub, ps_mul,
    ps_div, ps_muls0, ps_muls1, the six fused multiply-adds, ps_sum0,
    ps_sum1, ps_res, ps_rsqrte) and every starting state: when no enabled
    exception gate triggers in either slot, frD holds both lanes of the
    instruction's result and no other register changes; when a gate
    triggers in either slot, no register changes, frD included; in both
    cases every flag that was set or that a slot raises is set in the final
    FPSCR. *)
Theorem gated_write_back (fpu : HostFPU) (i : GatedInstr)
    (st : ThreadState) (instr : Instruction) :
  let st' := run fpu i st instr in
  (forall r, fpr st' r =
     if gate_triggers (family i) st instr then fpr st r
     else if r =? frD instr then written fpu (family i) st instr else fpr st r)
  /\ accumulated (fpscr st) (raised (family i) st instr) (fpscr st') = true.
Proof.
  cbv zeta. rewrite run_is_family. apply run_family_spec.
Qed.

(** Scenario 3 of the specification: ps_add of +inf and -inf with VE set
    leaves frD alone and raises VXISI. *)
Example ps_add_gated_example :
  let st := state_of fpscr_ve (mkFPR 0x7FF0000000000000 0x3F800000)
                     (mkFPR 0xFFF0000000000000 0x40000000) (mkFPR 0 0) in
  let st' := ps_add sse2 st instr_abcd in
  fpr st' 4 = fpr st 4 /\ vxisi (fpscr st') = true /\ fex (fpscr st') = true.
Proof. vm_compute. repeat split. Qed.

(** Scenario 2: the same operands with VE clear write a quiet NaN and 3.0f. *)
Example ps_add_ungated_example :
  let st := state_of fpscr_zero (mkFPR 0x7FF0000000000000 0x3F800000)
                     (mkFPR 0xFFF0000000000000 0x40000000) (mkFPR 0 0) in
  let st' := ps_add sse2 st instr_abcd in
  fpr st' 4 = mkFPR 0x7FF8000000000000 0x40400000
  /\ vxisi (fpscr st') = true /\ fx (fpscr st') = true.
Proof. vm_compute. repeat split. Qed.

(** ** Division *)

Lemma accumulated_zx (old new : FPSCR) (r : Raised) :
  accumulated old r new = true -> r_zx r = true -> zx new = true.
Proof.
  unfold accumulated, raised_le, raised_or, sticky_of; cbn.
  rewrite !andb_true_iff. intros [_ H] Hr. rewrite Hr, orb_true_r in H. exact H.
Qed.

(** The flags a ps_div slot raises, read off the state after the slot. *)
Lemma psArithSingle_div_flags (fpu : HostFPU) (slotA slotB : Z)
    (st : ThreadState) (instr : Instruction) :
  let a := arith_a slotA st instr in
  let b := arith_b PSDiv slotB st instr in
  let f1 := fpscr (fst (psArithSingle fpu PSDiv slotA slotB st instr)) in
  vxidi f1 = vxidi (fpscr st) || (is_infinity a && is_infinity b)
  /\ vxzdz f1 = vxzdz (fpscr st) || (is_zero a && is_zero b)
  /\ zx f1 = zx (fpscr st)
             || (negb ((is_zero a && is_zero b)
                       || (is_signalling_nan a || is_signalling_nan b))
                 && is_zero b).
Proof.
  intros a b f1. subst f1. unfold psArithSingle.
  fold (arith_a slotA st instr). fold (arith_b PSDiv slotB st instr). fold a. fold b.
  cbn [arith_flags with_fpscr fpscr].
  repeat match goal with
         | |- context [if ?c then _ else _] => destruct c
         end; cbn; repeat split.
Qed.

(** C7. For ps_div, per slot with operands a and b: VXIDI is raised iff both
    are infinities, VXZDZ iff both are zero, ZX iff b is zero and neither
    VXZDZ nor VXSNAN holds; and with A = {1.0, 1.0f}, B = {+0.0, 2.0f} and
    ZE clear, frD becomes {+infinity, 0.5f} and FPSCR.ZX is set. *)
Theorem ps_div_flags_and_scenario :
  (forall (fpu : HostFPU) (slotA slotB : Z) (st : ThreadState) (instr : Instruction),
      let a := arith_a slotA st instr in
      let b := arith_b PSDiv slotB st instr in
      let vxsnan := is_signalling_nan a || is_signalling_nan b in
      arith_raised PSDiv a b =
        mkRaised vxsnan false false
                 (is_infinity a && is_infinity b)
                 (is_zero a && is_zero b)
                 false
                 (negb ((is_zero a && is_zero b) || vxsnan) && is_zero b)
      /\ let f1 := fpscr (fst (psArithSingle fpu PSDiv slotA slotB st instr)) in
         vxidi f1 = vxidi (fpscr st) || (is_infinity a && is_infinity b)
         /\ vxzdz f1 = vxzdz (fpscr st) || (is_zero a && is_zero b)
         /\ zx f1 = zx (fpscr st)
                    || (negb ((is_zero a && is_zero b) || vxsnan) && is_zero b))
  /\ (forall (st : ThreadState) (instr : Instruction),
        fpr st (frA instr) = mkFPR 0x3FF0000000000000 0x3F800000 ->
        fpr st (frB instr) = mkFPR 0x0000000000000000 0x40000000 ->
        ze (fpscr st) = false ->
        fpr (ps_div sse2 st instr) (frD instr) = mkFPR 0x7FF0000000000000 0x3F000000
        /\ zx (fpscr (ps_div sse2 st instr)) = true).
Proof.
  split.
  - intros fpu slotA slotB st instr a b vxsnan. split; [reflexivity|].
    apply psArithSingle_div_flags.
  - intros st instr HA HB HZ.
    destruct (psArithGeneric_spec sse2 PSDiv 0 1 st instr) as [Hw Hacc].
    cbv zeta in Hw, Hacc. fold (ps_div sse2) in Hw, Hacc.
    assert (Ha0 : arith_a 0 st instr = 0x3FF0000000000000)
      by (unfold arith_a, read_slot; cbn; now rewrite HA).
    assert (Ha1 : arith_a 1 st instr = 0x3FF0000000000000)
      by (unfold arith_a, read_slot; cbn; now rewrite HA).
    assert (Hb0 : arith_b PSDiv 0 st instr = 0)
      by (unfold arith_b, read_slot; cbn; now rewrite HB).
    assert (Hb1 : arith_b PSDiv 1 st instr = 0x4000000000000000)
      by (unfold arith_b, read_slot; cbn; now rewrite HB).
    assert (Hg : gate_triggers (FArith PSDiv 0 1) st instr = false).
    { unfold gate_triggers. cbn [slot_raised]. rewrite Ha0, Ha1, Hb0, Hb1.
      unfold gate. rewrite HZ. now vm_compute. }
    split.
    + rewrite Hw, Hg, Z.eqb_refl. cbn [written]. rewrite Ha0, Ha1, Hb0, Hb1.
      now vm_compute.
    + apply (accumulated_zx _ _ _ Hacc).
      unfold raised. cbn [slot_raised]. rewrite Ha0, Ha1, Hb0, Hb1. now vm_compute.
Qed.

Lemma ps_div_flags_and_scenario_witness :
  let st := state_of fpscr_zero (mkFPR 0x3FF0000000000000 0x3F800000)
                     (mkFPR 0 0x40000000) (mkFPR 0 0) in
  fpr (ps_div sse2 st instr_abcd) (frD instr_abcd)
    = mkFPR 0x7FF0000000000000 0x3F000000
  /\ zx (fpscr (ps_div sse2 st instr_abcd)) = true.
Proof.
  apply (proj2 ps_div_flags_and_scenario); reflexivity.
Defined.

(** ** Bit patterns *)

Lemma testbit_high (n v i : Z) : 0 <= v < 2 ^ n -> n <= i -> Z.testbit v i = false.
Proof.
  intros Hv Hi. destruct (Z.eq_dec v 0) as [->|Hne].
  - apply Z.testbit_0_l.
  - apply Z.bits_above_log2; [lia|].
    assert (0 <= n)
      by (destruct (Z.le_gt_cases 0 n); [assumption|]; rewrite Z.pow_neg_r in Hv; lia).
    apply Z.lt_le_trans with n; [|assumption].
    apply Z.log2_lt_pow2; lia.
Qed.

Lemma land_ones_all (x n i : Z) :
  Z.land x (Z.ones n) = Z.ones n -> 0 <= i < n -> Z.testbit x i = true.
Proof.
  intros H Hi. apply (f_equal (fun z => Z.testbit z i)) in H.
  rewrite Z.land_spec, Z.ones_spec_low in H by lia.
  now rewrite andb_true_r in H.
Qed.

(** The exponent bits of a NaN are all set. *)
Lemma nan_exponent_bits (v : Z) :
  is_nan v = true -> forall i, 52 <= i < 63 -> Z.testbit v i = true.
Proof.
  unfold is_nan, exponent. intros H i Hi.
  apply andb_prop in H as [H _]. apply Z.eqb_eq in H.
  change 0x7FF with (Z.ones 11) in H.
  pose proof (land_ones_all _ _ (i - 52) H ltac:(lia)) as Hb.
  rewrite Z.shiftr_spec in Hb by lia.
  now replace (i - 52 + 52) with i in Hb by lia.
Qed.

Lemma snan_bits (v : Z) :
  is_signalling_nan v = true ->
  (forall i, 52 <= i < 63 -> Z.testbit v i = true) /\ Z.testbit v 51 = false.
Proof.
  unfold is_signalling_nan, quiet. intros H. apply andb_prop in H as [H1 H2].
  split; [now apply nan_exponent_bits|now apply negb_true_iff in H2].
Qed.

Lemma truncate_double_bits_spec (v i : Z) :
  0 <= i ->
  Z.testbit (truncate_double_bits v) i =
  if i <? 30 then Z.testbit v (i + 29)
  else if i <? 32 then Z.testbit v (i + 32) else false.
Proof.
  intros Hi. unfold truncate_double_bits.
  change 0xC0000000 with (Z.shiftl (Z.ones 2) 30).
  change 0x3FFFFFFF with (Z.ones 30).
  destruct (Z.ltb_spec i 30); [|destruct (Z.ltb_spec i 32)]; Z.bitblast_core.
Qed.

Lemma extend_float_nan_bits_spec (d i : Z) :
  0 <= i ->
  Z.testbit (extend_float_nan_bits d) i =
  if i <? 29 then false
  else if i <? 52 then Z.testbit d (i - 29)
  else if i <? 63 then true
  else if i =? 63 then Z.testbit d 31 else false.
Proof.
  intros Hi. unfold extend_float_nan_bits.
  change 0x80000000 with (Z.shiftl (Z.ones 1) 31).
  change 0x007FFFFF with (Z.ones 23).
  change 0x7FF0000000000000 with (Z.shiftl (Z.ones 11) 52).
  destruct (Z.ltb_spec i 29);
    [|destruct (Z.ltb_spec i 52);
      [|destruct (Z.ltb_spec i 63); [|destruct (Z.eqb_spec i 63)]]];
    Z.bitblast_core.
  all: try (f_equal; lia).
Qed.

(** The exponent field of a truncated double is the rebiased exponent. *)
Lemma truncate_exponent (v : Z) :
  exponent_f (truncate_double_bits v) = rebias_exponent (exponent v).
Proof.
  unfold exponent_f, rebias_exponent, exponent. apply Z.bits_inj'. intros i Hi.
  change 0x7F with (Z.ones 7). change 1 with (Z.ones 1) at 1.
  rewrite Z.land_spec, Z.shiftr_spec, truncate_double_bits_spec by lia.
  rewrite Z.lor_spec, Z.shiftl_spec, !Z.land_spec by lia.
  destruct (Z.ltb_spec i 7).
  - rewrite (Z.testbit_neg_r _ (i - 7)) by lia.
    rewrite Z.shiftr_spec, (Z.ones_spec_low 8), (Z.ones_spec_low 7),
      (Z.ones_spec_low 11) by lia.
    destruct (Z.ltb_spec (i + 23) 30); [|lia].
    rewrite !andb_true_r. cbn [andb orb]. f_equal. lia.
  - destruct (Z.eq_dec i 7) as [->|Hne].
    + change (7 + 23 <? 30) with false. change (7 + 23 <? 32) with true.
      change (7 - 7) with 0. change (7 + 23 + 32) with 62. cbv iota.
      rewrite (Z.ones_spec_low 8), (Z.ones_spec_low 1), (Z.ones_spec_high 7) by lia.
      rewrite !andb_true_r, andb_false_r, orb_false_r.
      rewrite Z.shiftr_spec, Z.land_spec, Z.shiftr_spec by lia.
      rewrite (Z.ones_spec_low 11) by lia. now rewrite andb_true_r.
    + rewrite (Z.ones_spec_high 7 i) by lia.
      rewrite !andb_false_r, orb_false_r.
      rewrite (Z.ones_spec_high 1 (i - 7)) by lia. rewrite andb_false_r.
      destruct (Z.le_gt_cases 8 i).
      * rewrite (Z.ones_spec_high 8 i) by lia. apply andb_false_r.
      * lia.
Qed.

(** On the exponents a float can hold, the rebias subtracts 1023 - 127. *)
Lemma truncate_exponent_rebias (e : Z) :
  896 < e < 1151 -> rebias_exponent e = e - 896.
Proof.
  intros He.
  assert (Hall : forallb (fun n => rebias_exponent (Z.of_nat n) =? Z.of_nat n - 896)
                   (seq 897 254) = true) by (vm_compute; reflexivity).
  rewrite forallb_forall in Hall.
  specialize (Hall (Z.to_nat e)). rewrite Z2Nat.id in Hall by lia.
  apply Z.eqb_eq, Hall, in_seq. lia.
Qed.

(** The all-ones exponent of infinities and NaNs stays all-ones, the zero
    exponent stays zero. *)
Lemma truncate_exponent_nan :
  rebias_exponent 0x7FF = 0xFF /\ rebias_exponent 0 = 0.
Proof. split; reflexivity. Qed.

(** [make_quiet] of a truncated NaN is a NaN with its quiet bit set. *)
Lemma quieted_nan_is_quiet_nan (v : Z) :
  is_nan v = true ->
  is_nan_f (make_quiet (truncate_double v)) = true
  /\ quiet_f (make_quiet (truncate_double v)) = true.
Proof.
  intros Hn. pose proof (nan_exponent_bits v Hn) as He.
  assert (Hq : Z.testbit (make_quiet (truncate_double v)) 22 = true).
  { unfold make_quiet. rewrite Z.lor_spec. change 0x00400000 with (2 ^ 22).
    rewrite Z.pow2_bits_true by lia. apply orb_true_r. }
  split; [|exact Hq].
  unfold is_nan_f. apply andb_true_intro. split.
  - apply Z.eqb_eq. unfold exponent_f. change 0xFF with (Z.ones 8).
    apply Z.bits_inj'. intros i Hi.
    rewrite Z.land_spec, Z.shiftr_spec by lia.
    destruct (Z.ltb_spec i 8) as [Hlt|Hge].
    + rewrite Z.ones_spec_low, andb_true_r by lia.
      unfold make_quiet, truncate_double.
      rewrite Z.lor_spec, truncate_double_bits_spec by lia.
      destruct (Z.ltb_spec (i + 23) 30).
      * rewrite He by lia. reflexivity.
      * destruct (Z.ltb_spec (i + 23) 32); [|lia]. rewrite He by lia. reflexivity.
    + rewrite Z.ones_spec_high by lia. apply andb_false_r.
  - apply negb_true_iff. apply Z.eqb_neq. intros H0.
    assert (Hm : Z.testbit (mantissa_f (make_quiet (truncate_double v))) 22 = true).
    { unfold mantissa_f. rewrite Z.land_spec, Hq, Z.ones_spec_low by lia. reflexivity. }
    rewrite H0, Z.testbit_0_l in Hm. discriminate.
Qed.

(** ** NaN operands *)

Lemma gate_enables_clear (f : FPSCR) (r : Raised) :
  ve f = false -> ze f = false -> gate f r = false.
Proof. intros Hv Hz. unfold gate. rewrite Hv, Hz. now rewrite !andb_false_r. Qed.

(** C8. In a slot of ps_add, ps_sub, ps_mul, ps_div, ps_muls0 or ps_muls1
    with a NaN operand, the slot is aborted when its write gate triggers and
    otherwise produces the A operand truncated and quieted when A is a NaN,
    else the B operand truncated and quieted; in a slot of a fused
    multiply-add the order is A, then B, then C.  With VE and ZE clear the
    slot always produces it, and the result is always a NaN with its quiet
    bit set. *)
Theorem nan_operand_priority (fpu : HostFPU) (st : ThreadState) (instr : Instruction) :
  (forall (op : PSArithOperator) (slotA slotB : Z),
      let a := arith_a slotA st instr in
      let b := arith_b op slotB st instr in
      let q := if is_nan a then make_quiet (truncate_double a)
               else make_quiet (truncate_double b) in
      is_nan a || is_nan b = true ->
      snd (psArithSingle fpu op slotA slotB st instr)
      = (if gate (fpscr st) (arith_raised op a b) then None else Some q)
      /\ (ve (fpscr st) = false -> ze (fpscr st) = false ->
          snd (psArithSingle fpu op slotA slotB st instr) = Some q)
      /\ is_nan_f q = true /\ quiet_f q = true)
  /\ (forall (flags slotAB slotC : Z),
        let a := read_slot slotAB st (frA instr) in
        let b := read_slot slotAB st (frB instr) in
        let c := read_slot slotC st (frC instr) in
        let q := if is_nan a then make_quiet (truncate_double a)
                 else if is_nan b then make_quiet (truncate_double b)
                 else make_quiet (truncate_double c) in
        is_nan a || is_nan b || is_nan c = true ->
        snd (fmaSingle fpu flags slotAB slotC st instr)
        = (if gate (fpscr st) (fma_raised flags a b c) then None else Some q)
        /\ (ve (fpscr st) = false -> ze (fpscr st) = false ->
            snd (fmaSingle fpu flags slotAB slotC st instr) = Some q)
        /\ is_nan_f q = true /\ quiet_f q = true).
Proof.
  split.
  - intros op slotA slotB a b q Hn.
    destruct (psArithSingle_spec fpu op slotA slotB st instr) as [R _].
    fold a b in R.
    assert (Hq : arith_value fpu op a b = q).
    { unfold arith_value, q. destruct (is_nan a); [reflexivity|].
      destruct (is_nan b); [reflexivity|discriminate]. }
    rewrite Hq in R. split; [exact R|]. split.
    + intros Hv Hz. now rewrite R, gate_enables_clear.
    + unfold q. destruct (is_nan a) eqn:Ea; [now apply quieted_nan_is_quiet_nan|].
      destruct (is_nan b) eqn:Eb; [now apply quieted_nan_is_quiet_nan|discriminate].
  - intros flags slotAB slotC a b c q Hn.
    destruct (fmaSingle_spec fpu flags slotAB slotC st instr) as [R _].
    fold a b c in R.
    assert (Hq : fma_value fpu flags a b c = q).
    { unfold fma_value, q. destruct (is_nan a); [reflexivity|].
      destruct (is_nan b); [reflexivity|].
      destruct (is_nan c); [reflexivity|discriminate]. }
    rewrite Hq in R. split; [exact R|]. split.
    + intros Hv Hz. now rewrite R, gate_enables_clear.
    + unfold q. destruct (is_nan a) eqn:Ea; [now apply quieted_nan_is_quiet_nan|].
      destruct (is_nan b) eqn:Eb; [now apply quieted_nan_is_quiet_nan|].
      destruct (is_nan c) eqn:Ec; [now apply quieted_nan_is_quiet_nan|discriminate].
Qed.

(** A quiet NaN with payload 0x123 in A lane 0 and a signalling NaN in B
    lane 0, VE clear: slot 0 of ps_add produces the A operand; with a number
    in A, the signalling NaN of B wins over a quiet NaN in C in slot 0 of
    ps_madd, and comes out quiet.  With VE set the same slot of ps_add is
    aborted. *)
Lemma nan_operand_priority_witness :
  let stA := state_of fpscr_zero (mkFPR 0x7FF8002460000000 0)
                      (mkFPR 0x7FF0000020000000 0) (mkFPR 0 0) in
  let stM := state_of fpscr_zero (mkFPR 0x3FF0000000000000 0)
                      (mkFPR 0x7FF0000020000000 0) (mkFPR 0x7FF8002460000000 0) in
  let stV := state_of fpscr_ve (mkFPR 0x7FF8002460000000 0)
                      (mkFPR 0x7FF0000020000000 0) (mkFPR 0 0) in
  snd (psArithSingle sse2 PSAdd 0 0 stA instr_abcd) = Some 0x7FC00123
  /\ snd (fmaSingle sse2 0 0 0 stM instr_abcd) = Some 0x7FC00001
  /\ snd (psArithSingle sse2 PSAdd 0 0 stV instr_abcd) = None.
Proof.
  intros stA stM stV. split; [|split].
  - destruct (proj1 (nan_operand_priority sse2 stA instr_abcd) PSAdd 0 0 eq_refl)
      as (_ & H & _).
    exact (eq_trans (H eq_refl eq_refl) eq_refl).
  - destruct (proj2 (nan_operand_priority sse2 stM instr_abcd) 0 0 0 eq_refl)
      as (_ & H & _).
    exact (eq_trans (H eq_refl eq_refl) eq_refl).
  - destruct (proj1 (nan_operand_priority sse2 stV instr_abcd) PSAdd 0 0 eq_refl)
      as (H & _).
    exact (eq_trans H eq_refl).
Defined.

(** ** Negated multiply-add *)

Lemma some_inj (A : Type) (x y : A) : Some x = Some y -> x = y.
Proof. intros H. exact (f_equal (fun o => match o with Some v => v | None => x end) H). Qed.


Lemma fma_raised_negate (sub : bool) (a b c : Z) :
  fma_raised (if sub then Z.lor FMANegate FMASubtract else FMANegate) a b c
  = fma_raised (if sub then FMASubtract else 0) a b c.
Proof. destruct sub; reflexivity. Qed.

(** C10. For ps_nmadd and ps_nmsub the final negation belongs to the numeric
    path only: when an operand is a NaN, or an invalid operation selects the
    quiet NaN constant, the slot answers exactly as ps_madd or ps_msub does,
    with the quieted NaN operand or the constant and no sign flip; otherwise
    it answers with the negated narrowed fused multiply-add. *)
Theorem negate_only_on_numeric_path (fpu : HostFPU) (sub : bool)
    (slotAB slotC : Z) (st : ThreadState) (instr : Instruction) :
  let flags := if sub then Z.lor FMANegate FMASubtract else FMANegate in
  let plain := if sub then FMASubtract else 0 in
  let a := read_slot slotAB st (frA instr) in
  let b := read_slot slotAB st (frB instr) in
  let c := read_slot slotC st (frC instr) in
  let special :=
    is_nan a || is_nan b || is_nan c || fma_vxisi flags a b c || fma_vximz a c in
  (special = true ->
     snd (fmaSingle fpu flags slotAB slotC st instr)
     = snd (fmaSingle fpu plain slotAB slotC st instr)
     /\ forall d, snd (fmaSingle fpu flags slotAB slotC st instr) = Some d ->
                  d = fma_nan_value a b c)
  /\ (special = false ->
      snd (fmaSingle fpu flags slotAB slotC st instr)
      = Some (neg_float
                (fst (fp_narrow fpu (fst (fp_fma fpu a c (fma_addend flags b))))))).
Proof.
  intros flags plain a b c special.
  pose proof (fmaSingle_spec fpu flags slotAB slotC st instr) as R.
  cbv zeta in R. destruct R as [R _].
  destruct (fmaSingle_spec fpu plain slotAB slotC st instr) as [R' _].
  fold a b c in R, R'. rewrite R, R'. clear R R'.
  subst flags plain. rewrite fma_raised_negate.
  assert (Hisi : fma_vxisi (if sub then Z.lor FMANegate FMASubtract else FMANegate) a b c
                 = fma_vxisi (if sub then FMASubtract else 0) a b c)
    by (destruct sub; reflexivity).
  assert (Hneg : has_flag (if sub then Z.lor FMANegate FMASubtract else FMANegate)
                          FMANegate = true)
    by (destruct sub; reflexivity).
  subst special. rewrite Hisi. unfold fma_value, fma_nan_value. rewrite Hisi, Hneg.
  split.
  - intros Hs. destruct (gate _ _).
    + split; [reflexivity|discriminate].
    + destruct (is_nan a); [split; [reflexivity|intros d Hd; symmetry; exact (some_inj _ _ _ Hd)]|].
      destruct (is_nan b); [split; [reflexivity|intros d Hd; symmetry; exact (some_inj _ _ _ Hd)]|].
      destruct (is_nan c); [split; [reflexivity|intros d Hd; symmetry; exact (some_inj _ _ _ Hd)]|].
      cbn [orb] in Hs. rewrite Hs. split; [reflexivity|intros d Hd; symmetry; exact (some_inj _ _ _ Hd)].
  - intros Hs.
    destruct (is_nan a) eqn:Ea; [discriminate|].
    destruct (is_nan b) eqn:Eb; [discriminate|].
    destruct (is_nan c) eqn:Ec; [discriminate|]. cbn [orb] in Hs. rewrite Hs.
    assert (Hg : gate (fpscr st) (fma_raised (if sub then FMASubtract else 0) a b c)
                 = false).
    { unfold gate, raised_vx, fma_raised; cbn.
      apply orb_false_elim in Hs as [H1 H2]. rewrite H1, H2.
      unfold fma_vxsnan, is_signalling_nan. rewrite Ea, Eb, Ec. reflexivity. }
    now rewrite Hg.
Qed.

(** A quiet NaN in A keeps its sign under ps_nmadd; 2.0 * 3.0 + 1.0 is
    negated to -7.0f. *)
Lemma negate_only_on_numeric_path_witness :
  snd (fmaSingle sse2 FMANegate 0 0
         (state_of fpscr_zero (mkFPR 0x7FF8002460000000 0)
                   (mkFPR 0x3FF0000000000000 0) (mkFPR 0x4008000000000000 0))
         instr_abcd)
  = Some 0x7FC00123
  /\ snd (fmaSingle sse2 FMANegate 0 0
            (state_of fpscr_zero (mkFPR 0x4000000000000000 0)
                      (mkFPR 0x3FF0000000000000 0) (mkFPR 0x4008000000000000 0))
            instr_abcd)
     = Some 0xC0E00000.
Proof.
  split.
  - rewrite (proj1 (proj1 (negate_only_on_numeric_path sse2 false 0 0
              (state_of fpscr_zero (mkFPR 0x7FF8002460000000 0)
                        (mkFPR 0x3FF0000000000000 0) (mkFPR 0x4008000000000000 0))
              instr_abcd) eq_refl)).
    vm_compute. reflexivity.
  - rewrite (proj2 (negate_only_on_numeric_path sse2 false 0 0
              (state_of fpscr_zero (mkFPR 0x4000000000000000 0)
                        (mkFPR 0x3FF0000000000000 0) (mkFPR 0x4008000000000000 0))
              instr_abcd) eq_refl).
    vm_compute. reflexivity.
Defined.

(** ** ps_sum0 and ps_sum1 *)

(** C9. For ps_sum0 and ps_sum1, whenever the sum slot is not aborted and
    produces d, the final FPRF is the class of d extended to a double; for
    ps_sum1 that d is the value of lane 1 of frD (the sum), for ps_sum0 it
    is lane 0. *)
Theorem sum_fprf_from_sum (fpu : HostFPU) (slot : Z)
    (st : ThreadState) (instr : Instruction) (d : Z) :
  snd (psArithSingle fpu PSAdd 0 1 st instr) = Some d ->
  let st' := psSumGeneric fpu slot st instr in
  fprf (fpscr st') = fprf_of (extend_float d)
  /\ ((slot =? 0) = false -> iw_paired1 (fpr st' (frD instr)) = d)
  /\ ((slot =? 0) = true -> idw (fpr st' (frD instr)) = extend_float d).
Proof.
  intros Hd st'. subst st'.
  destruct (psArithSingle_spec fpu PSAdd 0 1 st instr) as [R _].
  rewrite R in Hd.
  destruct (psSumGeneric_body_spec fpu slot st instr) as (B1 & _ & B3).
  cbv zeta in B1, B3.
  destruct (gate (fpscr st) _); [discriminate|].
  apply some_inj in Hd.
  unfold psSumGeneric. rewrite fpscr_record_cr1, fpr_record_cr1.
  change (fprf (fpscr (updateFPSCR ?o ?s))) with (fprf (fpscr s)).
  change (fpr (updateFPSCR ?o ?s)) with (fpr s).
  rewrite B3, B1, Z.eqb_refl, Hd. cbn [written]. rewrite Hd.
  split; [reflexivity|]. split; intros Hs; rewrite Hs; reflexivity.
Qed.

(** ps_sum1 with A = {1.0, _}, B = {_, 2.0f}, C = {+0.0, _}: frD becomes
    {+0.0, 3.0f} and FPRF is the code of a positive normal number (the sum),
    not of a positive zero (lane 0).  ps_sum0 on the same state puts the sum
    in lane 0. *)
Lemma sum_fprf_from_sum_witness :
  let st := state_of fpscr_zero (mkFPR 0x3FF0000000000000 0)
                     (mkFPR 0 0x40000000) (mkFPR 0 0) in
  (fprf (fpscr (psSumGeneric sse2 1 st instr_abcd)) = 0x04
   /\ iw_paired1 (fpr (psSumGeneric sse2 1 st instr_abcd) 4) = 0x40400000
   /\ fprf_of (idw (fpr (psSumGeneric sse2 1 st instr_abcd) 4)) = 0x02)
  /\ (fprf (fpscr (psSumGeneric sse2 0 st instr_abcd)) = 0x04
      /\ idw (fpr (psSumGeneric sse2 0 st instr_abcd) 4) = 0x4008000000000000).
Proof.
  intros st.
  destruct (sum_fprf_from_sum sse2 1 st instr_abcd 0x40400000 eq_refl) as (H1 & H2 & _).
  destruct (sum_fprf_from_sum sse2 0 st instr_abcd 0x40400000 eq_refl) as (K1 & _ & K3).
  split; [split; [exact H1|split; [exact (H2 eq_refl)|vm_compute; reflexivity]]|].
  split; [exact K1|exact (K3 eq_refl)].
Defined.

Lemma fe_or_none_r (e : FEnv) : fe_or e fe_none = e.
Proof. destruct e; unfold fe_or; cbn. now rewrite !orb_false_r. Qed.

Lemma fe_or_assoc (x y z : FEnv) : fe_or (fe_or x y) z = fe_or x (fe_or y z).
Proof. unfold fe_or; cbn. now rewrite !orb_assoc. Qed.

(** The host flags after one arithmetic slot. *)
Lemma psArithSingle_fenv (fpu : HostFPU) (op : PSArithOperator) (slotA slotB : Z)
    (st : ThreadState) (instr : Instruction) :
  fenv (fst (psArithSingle fpu op slotA slotB st instr))
  = fe_or (fenv st)
          (arith_host_flags fpu op (fpscr st)
             (arith_a slotA st instr) (arith_b op slotB st instr)).
Proof.
  unfold psArithSingle, arith_host_flags, gate, raised_vx, arith_raised.
  fold (arith_a slotA st instr). fold (arith_b op slotB st instr).
  set (a := arith_a slotA st instr). set (b := arith_b op slotB st instr).
  destruct (arith_flags op (is_signalling_nan a || is_signalling_nan b) a b)
    as [[[[vxisi vximz] vxidi] vxzdz] zx].
  cbn [r_vxsnan r_vxisi r_vximz r_vxidi r_vxzdz r_vxsqrt r_zx with_fpscr fpscr].
  rewrite orb_false_r.
  match goal with |- context [or_zx zx ?g] => set (f1 := or_zx zx g) end.
  change (ve f1) with (ve (fpscr st)). change (ze f1) with (ze (fpscr st)).
  destruct (((is_signalling_nan a || is_signalling_nan b || vxisi || vximz
              || vxidi || vxzdz) && ve (fpscr st)) || (zx && ze (fpscr st)));
    [cbn; now rewrite fe_or_none_r|].
  destruct (is_nan a); [cbn; now rewrite fe_or_none_r|].
  destruct (is_nan b); [cbn; now rewrite fe_or_none_r|].
  cbn [orb]. rewrite <- !orb_assoc.
  destruct (vxisi || (vximz || (vxidi || vxzdz))); [cbn; now rewrite fe_or_none_r|].
  destruct op; cbn; now rewrite fe_or_assoc.
Qed.

Lemma sum1_ps0_as_written (fpu : HostFPU) (s : ThreadState) (c0 : Z) :
  sum1_ps0_in fpu AsWritten s c0 = sum1_ps0 fpu s c0.
Proof. reflexivity. Qed.

Lemma ps_sum1_as_written (fpu : HostFPU) (s : ThreadState) (instr : Instruction) :
  ps_sum1_in fpu AsWritten s instr = ps_sum1 fpu s instr.
Proof. reflexivity. Qed.

Lemma sum1_ps0_guard (fpu : HostFPU) (s : ThreadState) (c0 : Z) :
  is_nan c0 = false ->
  FE_INEXACT (fenv (fst (sum1_ps0 fpu s c0))) = FE_INEXACT (fenv s)
  /\ FE_OVERFLOW (fenv (fst (sum1_ps0 fpu s c0))) = FE_OVERFLOW (fenv s).
Proof.
  intros Hc. unfold sum1_ps0. rewrite Hc.
  destruct (fp_narrow fpu c0) as [v [i z o u x]].
  destruct s as [rf fs c [ei ez eo eu ex]]. cbn.
  destruct ex, eo; cbn; rewrite ?orb_false_r; split; reflexivity.
Qed.


(** ** Moves of a signalling NaN *)

Lemma move_bits_spec (mode : MoveMode) (b i : Z) :
  0 <= i < 32 ->
  Z.testbit (move_bits mode b) i =
  if i =? 31 then sign_op mode (Z.testbit b 31) else Z.testbit b i.
Proof.
  intros Hi. destruct mode; cbn [move_bits sign_op].
  - destruct (Z.eqb_spec i 31); congruence.
  - rewrite Z.lxor_spec. change 0x80000000 with (2 ^ 31).
    destruct (Z.eqb_spec i 31) as [->|Hne].
    + rewrite Z.pow2_bits_true by lia. apply xorb_true_r.
    + rewrite Z.pow2_bits_false by lia. apply xorb_false_r.
  - rewrite Z.land_spec. change 0x7FFFFFFF with (Z.ones 31).
    destruct (Z.eqb_spec i 31) as [->|Hne].
    + rewrite Z.ones_spec_high by lia. apply andb_false_r.
    + rewrite Z.ones_spec_low by lia. apply andb_true_r.
  - rewrite Z.lor_spec. change 0x80000000 with (2 ^ 31).
    destruct (Z.eqb_spec i 31) as [->|Hne].
    + rewrite Z.pow2_bits_true by lia. apply orb_true_r.
    + rewrite Z.pow2_bits_false by lia. apply orb_false_r.
Qed.

Lemma move_bits64_spec (mode : MoveMode) (v i : Z) :
  0 <= i < 64 ->
  Z.testbit (move_bits64 mode v) i =
  if i =? 63 then sign_op mode (Z.testbit v 63) else Z.testbit v i.
Proof.
  intros Hi. destruct mode; cbn [move_bits64 sign_op].
  - destruct (Z.eqb_spec i 63); congruence.
  - rewrite Z.lxor_spec. change 0x8000000000000000 with (2 ^ 63).
    destruct (Z.eqb_spec i 63) as [->|Hne].
    + rewrite Z.pow2_bits_true by lia. apply xorb_true_r.
    + rewrite Z.pow2_bits_false by lia. apply xorb_false_r.
  - rewrite Z.land_spec. change 0x7FFFFFFFFFFFFFFF with (Z.ones 63).
    destruct (Z.eqb_spec i 63) as [->|Hne].
    + rewrite Z.ones_spec_high by lia. apply andb_false_r.
    + rewrite Z.ones_spec_low by lia. apply andb_true_r.
  - rewrite Z.lor_spec. change 0x8000000000000000 with (2 ^ 63).
    destruct (Z.eqb_spec i 63) as [->|Hne].
    + rewrite Z.pow2_bits_true by lia. apply orb_true_r.
    + rewrite Z.pow2_bits_false by lia. apply orb_false_r.
Qed.

Lemma move_bits64_high (mode : MoveMode) (v i : Z) :
  0 <= v < 2 ^ 64 -> 64 <= i -> Z.testbit (move_bits64 mode v) i = false.
Proof.
  intros Hv Hi. destruct mode; cbn [move_bits64].
  - now apply (testbit_high 64).
  - rewrite Z.lxor_spec, (testbit_high 64 v) by lia.
    change 0x8000000000000000 with (2 ^ 63). now rewrite Z.pow2_bits_false by lia.
  - rewrite Z.land_spec, (testbit_high 64 v) by lia. reflexivity.
  - rewrite Z.lor_spec, (testbit_high 64 v) by lia.
    change 0x8000000000000000 with (2 ^ 63). now rewrite Z.pow2_bits_false by lia.
Qed.

Lemma clear_low29_spec (v i : Z) :
  0 <= i -> Z.testbit (clear_low29 v) i = if i <? 29 then false else Z.testbit v i.
Proof.
  intros Hi. unfold clear_low29. rewrite Z.shiftl_spec by lia.
  destruct (Z.ltb_spec i 29).
  - apply Z.testbit_neg_r. lia.
  - rewrite Z.shiftr_spec by lia. f_equal. lia.
Qed.

Lemma clear_low29_range (v : Z) : 0 <= v < 2 ^ 64 -> 0 <= clear_low29 v < 2 ^ 64.
Proof.
  intros Hv. unfold clear_low29.
  rewrite Z.shiftr_div_pow2, Z.shiftl_mul_pow2 by lia.
  pose proof (Z.mul_div_le v (2 ^ 29) ltac:(lia)).
  assert (0 <= v / 2 ^ 29) by (apply Z.div_pos; lia). lia.
Qed.

Lemma clear_low29_id (v : Z) : Z.land v (Z.ones 29) = 0 -> clear_low29 v = v.
Proof.
  intros H0. apply Z.bits_inj'. intros i Hi. rewrite clear_low29_spec by lia.
  destruct (Z.ltb_spec i 29); [|reflexivity].
  apply (f_equal (fun z => Z.testbit z i)) in H0.
  rewrite Z.land_spec, Z.ones_spec_low, andb_true_r, Z.testbit_0_l in H0 by lia.
  now symmetry.
Qed.

(** The truncated, sign-adjusted and re-extended pattern of a signalling
    NaN: the source with its low 29 bits cleared and its sign adjusted. *)
Lemma move_snan_pattern (mode : MoveMode) (v : Z) :
  0 <= v < 2 ^ 64 -> is_signalling_nan v = true ->
  extend_float_nan_bits (move_bits mode (truncate_double_bits v))
  = move_bits64 mode (clear_low29 v).
Proof.
  intros Hv Hs. destruct (snan_bits v Hs) as [He _].
  apply Z.bits_inj'. intros i Hi.
  rewrite extend_float_nan_bits_spec by assumption.
  destruct (Z.le_gt_cases 64 i) as [Hhi|Hlo].
  - rewrite move_bits64_high by (auto using clear_low29_range).
    destruct (Z.ltb_spec i 29), (Z.ltb_spec i 52), (Z.ltb_spec i 63), (Z.eqb_spec i 63);
      try lia; reflexivity.
  - rewrite move_bits64_spec, !clear_low29_spec by lia.
    destruct (Z.ltb_spec i 29); [destruct (Z.eqb_spec i 63); [lia|reflexivity]|].
    destruct (Z.ltb_spec i 52).
    + rewrite move_bits_spec by lia.
      destruct (Z.eqb_spec (i - 29) 31), (Z.eqb_spec i 63); try lia.
      rewrite truncate_double_bits_spec by lia.
      destruct (Z.ltb_spec (i - 29) 30); [|lia]. f_equal. lia.
    + destruct (Z.ltb_spec i 63).
      * destruct (Z.eqb_spec i 63); [lia|]. symmetry. apply He. lia.
      * destruct (Z.eqb_spec i 63); [subst i|lia].
        rewrite move_bits_spec, truncate_double_bits_spec by lia. reflexivity.
Qed.

Lemma mantissa_move_bits64 (mode : MoveMode) (v : Z) :
  mantissa (move_bits64 mode v) = mantissa v.
Proof.
  unfold mantissa. apply Z.bits_inj'. intros i Hi. rewrite !Z.land_spec.
  destruct (Z.ltb_spec i 52).
  - rewrite move_bits64_spec by lia.
    destruct (Z.eqb_spec i 63); [lia|reflexivity].
  - now rewrite Z.ones_spec_high, !andb_false_r by lia.
Qed.

Lemma moveGeneric_snan (fpu : HostFPU) (mode : MoveMode)
    (st : ThreadState) (instr : Instruction) :
  is_signalling_nan (idw (fpr st (frB instr))) = true ->
  idw (fpr (moveGeneric fpu mode st instr) (frD instr))
  = extend_float_nan_bits
      (move_bits mode (truncate_double_bits (idw (fpr st (frB instr))))).
Proof.
  intros Hs. unfold moveGeneric, paired0. rewrite Hs. cbn [negb].
  rewrite fpr_record_cr1, fpr_set_fpr_same. reflexivity.
Qed.

(** C6, as the code has it. For every ps_mr, ps_neg, ps_abs and ps_nabs
    whose lane-0 source is a signalling NaN, lane 0 of frD is the source
    pattern with its low 29 mantissa bits cleared and its sign bit
    transformed per mode.  When those 29 bits are zero (the NaN fits a
    float), the destination is the source with only the sign bit
    transformed: the XOR of the two patterns is 0 for ps_mr and
    0x8000000000000000 for ps_neg, the sign bit is clear for ps_abs and set
    for ps_nabs, and the mantissa payload is the source's. *)
Theorem move_snan_lane0 (fpu : HostFPU) (mode : MoveMode)
    (st : ThreadState) (instr : Instruction) :
  let src := idw (fpr st (frB instr)) in
  let dst := idw (fpr (moveGeneric fpu mode st instr) (frD instr)) in
  0 <= src < 2 ^ 64 ->
  is_signalling_nan src = true ->
  dst = move_bits64 mode (clear_low29 src)
  /\ (Z.land src (Z.ones 29) = 0 ->
      dst = move_bits64 mode src
      /\ mantissa dst = mantissa src
      /\ match mode with
         | MoveDirect => Z.lxor dst src = 0
         | MoveNegate => Z.lxor dst src = 0x8000000000000000
         | MoveAbsolute => signbit dst = false
         | MoveNegAbsolute => signbit dst = true
         end).
Proof.
  intros src dst Hr Hs.
  assert (Hd : dst = move_bits64 mode (clear_low29 src)).
  { subst dst. rewrite moveGeneric_snan by assumption.
    now apply move_snan_pattern. }
  split; [exact Hd|]. intros Hlow.
  rewrite clear_low29_id in Hd by assumption.
  split; [exact Hd|]. split; [rewrite Hd; apply mantissa_move_bits64|].
  rewrite Hd. unfold signbit. destruct mode; cbn [move_bits64].
  - apply Z.lxor_nilpotent.
  - rewrite (Z.lxor_comm src), Z.lxor_assoc, Z.lxor_nilpotent. apply Z.lxor_0_r.
  - rewrite Z.land_spec. apply andb_false_r.
  - rewrite Z.lor_spec. apply orb_true_r.
Qed.

(** ps_neg of the signalling NaN 0x7FF0000020000000, whose low 29 bits are
    zero: only the sign changes. *)
Lemma move_snan_lane0_witness :
  let st := state_of fpscr_zero (mkFPR 0 0) (mkFPR 0x7FF0000020000000 0) (mkFPR 0 0) in
  let src := idw (fpr st (frB instr_abcd)) in
  let dst := idw (fpr (ps_neg sse2 st instr_abcd) (frD instr_abcd)) in
  dst = 0xFFF0000020000000
  /\ mantissa dst = mantissa src
  /\ Z.lxor dst src = 0x8000000000000000.
Proof.
  intros st src dst.
  destruct (move_snan_lane0 sse2 MoveNegate st instr_abcd) as [H K];
    [vm_compute; split; [discriminate|reflexivity]|reflexivity|].
  destruct (K eq_refl) as (_ & K2 & K3).
  split; [exact H|]. split; [exact K2|exact K3].
Defined.

(** C6 as stated fails: ps_mr of the signalling NaN 0x7FF0000000000001,
    whose payload lies in the low 29 bits, yields 0x7FF0000000000000: the
    patterns differ, the payload is lost and the result is an infinity. *)
Lemma move_snan_low_payload_dropped :
  let st := state_of fpscr_zero (mkFPR 0 0) (mkFPR 0x7FF0000000000001 0) (mkFPR 0 0) in
  let src := idw (fpr st (frB instr_abcd)) in
  let dst := idw (fpr (ps_mr sse2 st instr_abcd) (frD instr_abcd)) in
  is_signalling_nan src = true
  /\ Z.lxor dst src <> 0
  /\ mantissa dst <> mantissa src
  /\ is_infinity dst = true.
Proof. vm_compute. repeat split; discriminate. Qed.

(** ** Merges *)

Lemma mantissa_f_truncate (v : Z) :
  mantissa_f (truncate_double_bits v) = Z.shiftr (mantissa v) 29.
Proof.
  unfold mantissa_f, mantissa. apply Z.bits_inj'. intros i Hi.
  rewrite Z.land_spec, Z.shiftr_spec, Z.land_spec, truncate_double_bits_spec by lia.
  destruct (Z.ltb_spec i 23).
  - rewrite !Z.ones_spec_low, !andb_true_r by lia.
    destruct (Z.ltb_spec i 30); [reflexivity|lia].
  - rewrite (Z.ones_spec_high 23), andb_false_r by lia.
    destruct (Z.le_gt_cases 52 (i + 29)).
    + now rewrite Z.ones_spec_high, andb_false_r by lia.
    + assert (Hh : Z.testbit (Z.ones 52) (i + 29) = true)
        by (apply Z.ones_spec_low; lia).
      lia.
Qed.

Lemma mergeGeneric_lane1 (fpu : HostFPU) (flags : Z)
    (st : ThreadState) (instr : Instruction) :
  has_flag flags MergeValue1 = false ->
  iw_paired1 (fpr (mergeGeneric fpu flags st instr) (frD instr))
  = truncate_double_bits (idw (fpr st (frB instr))).
Proof.
  intros Hf. unfold mergeGeneric, mergeGeneric_with. rewrite Hf.
  destruct (has_flag flags MergeValue0);
    [|destruct (negb (is_signalling_nan (paired0 (fpr st (frA instr)))))];
    cbn; rewrite fpr_record_cr1, fpr_set_fpr_same; reflexivity.
Qed.

(** C3, as the code has it. For every state and every ps_merge00 and
    ps_merge10, lane 1 of frD is truncate_double_bits of lane 0 of frB: the
    sign, the rebiased exponent and the high 23 mantissa bits, the low 29
    mantissa bits being dropped, not rounded.  The conversion the executor
    calls for it, truncate_double, is this bit truncation and not a
    rounding conversion. *)
Theorem merge_lane1_truncated (fpu : HostFPU) (st : ThreadState) (instr : Instruction) :
  let b := idw (fpr st (frB instr)) in
  let l00 := iw_paired1 (fpr (ps_merge00 fpu st instr) (frD instr)) in
  let l10 := iw_paired1 (fpr (ps_merge10 fpu st instr) (frD instr)) in
  l00 = truncate_double_bits b
  /\ l10 = truncate_double_bits b
  /\ mantissa_f l00 = Z.shiftr (mantissa b) 29
  /\ mantissa_f l10 = Z.shiftr (mantissa b) 29
  /\ truncate_double b = truncate_double_bits b.
Proof.
  intros b l00 l10.
  assert (H00 : l00 = truncate_double_bits b)
    by (apply mergeGeneric_lane1; reflexivity).
  assert (H10 : l10 = truncate_double_bits b)
    by (apply mergeGeneric_lane1; reflexivity).
  repeat split; try assumption.
  - rewrite H00. apply mantissa_f_truncate.
  - rewrite H10. apply mantissa_f_truncate.
Qed.

(** C3 as stated fails: it asks for lane 1 to be the bit truncation while
    truncate_double is round-to-nearest-even.  With B lane 0 =
    1 + 2^-24 + 2^-25 the two differ: the bit truncation is 1.0f, the
    rounding conversion gives the next float up.  Were [mergeGeneric] to
    call a rounding truncate_double, lane 1 would not be the bit
    truncation; the truncate_double it does call is not the rounding
    conversion. *)
Lemma merge_lane1_not_rounded :
  let st := state_of fpscr_zero (mkFPR 0 0) (mkFPR 0x3FF0000018000000 0) (mkFPR 0 0) in
  let b := idw (fpr st (frB instr_abcd)) in
  let round_to_nearest := fun v => fst (fp_narrow sse2 v) in
  iw_paired1 (fpr (mergeGeneric_with sse2 round_to_nearest 0 st instr_abcd)
                  (frD instr_abcd))
    <> truncate_double_bits b
  /\ truncate_double b <> round_to_nearest b
  /\ iw_paired1 (fpr (ps_merge00 sse2 st instr_abcd) (frD instr_abcd)) = 0x3F800000
  /\ round_to_nearest b = 0x3F800001.
Proof. vm_compute. repeat split; discriminate. Qed.

(** ** The host's conversions on float patterns *)

Lemma iter_pos_shift (A : Type) (f : A -> A) (n : positive) (x : A) :
  iter_pos f n x = Pos.iter f x n.
Proof.
  revert x. induction n as [n IH|n IH|]; intros x; cbn.
  - rewrite !IH. rewrite <- !Pos.iter_swap. reflexivity.
  - now rewrite !IH.
  - reflexivity.
Qed.

Lemma shr_shifted (k m : positive) :
  iter_pos shr_1 k (Build_shr_record (Zpos (Pos.iter xO m k)) false false)
  = Build_shr_record (Zpos m) false false.
Proof.
  rewrite iter_pos_shift. revert m.
  induction k as [|k IH] using Pos.peano_ind; intros m.
  - reflexivity.
  - rewrite Pos.iter_succ_r, Pos.iter_succ. cbn [shr_1 orb]. apply IH.
Qed.

Lemma digits_shifted (k m : positive) :
  digits2_pos (Pos.iter xO m k) = (digits2_pos m + k)%positive.
Proof.
  induction k as [|k IH] using Pos.peano_ind.
  - cbn. lia.
  - rewrite Pos.iter_succ. cbn [digits2_pos]. rewrite IH. lia.
Qed.

Lemma round_canonical (prec emax : Z) (s : bool) (m : positive) (e : Z) :
  fexp prec emax (Zpos (digits2_pos m) + e) = e ->
  e <= emax - prec ->
  binary_round_aux prec emax s (Zpos m) e loc_Exact = S754_finite s m e.
Proof.
  intros Hc Hb. unfold binary_round_aux, shr_fexp.
  cbn [Zdigits2 shr_record_of_loc]. rewrite Hc, Z.sub_diag. cbn [shr shr_m loc_of_shr_record round_nearest_even].
  cbn [Zdigits2 shr_record_of_loc]. rewrite Hc, Z.sub_diag. cbn [shr shr_m].
  apply Z.leb_le in Hb. now rewrite Hb.
Qed.

Lemma round_of_shifted (prec emax : Z) (s : bool) (m k : positive) (e : Z) :
  fexp prec emax (Zpos (digits2_pos m) + e) = e ->
  e <= emax - prec ->
  binary_round prec emax s (Pos.iter xO m k) (e - Zpos k) = S754_finite s m e.
Proof.
  intros Hc Hb. unfold binary_round.
  assert (Hd : Zpos (digits2_pos (Pos.iter xO m k)) + (e - Zpos k)
               = Zpos (digits2_pos m) + e)
    by (rewrite digits_shifted; lia).
  rewrite Hd, Hc. unfold shl_align.
  replace (e - (e - Zpos k)) with (Zpos k) by lia.
  unfold binary_round_aux at 1, shr_fexp at 1.
  cbn [Zdigits2 shr_record_of_loc]. rewrite Hd, Hc.
  replace (e - (e - Zpos k)) with (Zpos k) by lia.
  cbn [shr]. rewrite shr_shifted.
  cbn [shr_m loc_of_shr_record round_nearest_even].
  replace (e - Zpos k + Zpos k) with e by lia.
  unfold shr_fexp. cbn [Zdigits2 shr_record_of_loc]. rewrite Hc, Z.sub_diag.
  cbn [shr shr_m]. apply Z.leb_le in Hb. now rewrite Hb.
Qed.

Lemma round_left (prec emax : Z) (s : bool) (m k : positive) (e : Z) :
  fexp prec emax (Zpos (digits2_pos m) + e) = e - Zpos k ->
  e - Zpos k <= emax - prec ->
  binary_round prec emax s m e = S754_finite s (Pos.iter xO m k) (e - Zpos k).
Proof.
  intros Hc Hb. unfold binary_round. rewrite Hc. unfold shl_align.
  replace (e - Zpos k - e) with (Zneg k) by lia.
  apply round_canonical; [|assumption].
  rewrite digits_shifted.
  replace (Zpos (digits2_pos m + k) + (e - Zpos k)) with (Zpos (digits2_pos m) + e) by lia.
  exact Hc.
Qed.

Lemma digits2_size (p : positive) : digits2_pos p = Pos.size p.
Proof. induction p; cbn; congruence. Qed.

Lemma digits2_bounds (p : positive) :
  2 ^ (Zpos (digits2_pos p) - 1) <= Zpos p < 2 ^ Zpos (digits2_pos p).
Proof.
  rewrite digits2_size.
  pose proof (Pos.size_gt p) as H1. pose proof (Pos.size_le p) as H2.
  apply Pos2Z.pos_lt_pos in H1. apply Pos2Z.pos_le_pos in H2.
  rewrite Pos2Z.inj_pow in H1, H2. cbn [Z.of_nat] in *.
  change (Z.pos 2) with 2 in *.
  replace (Z.pos (Pos.size p)) with (Z.pos (Pos.size p) - 1 + 1) in H2 at 1 by lia.
  rewrite Z.pow_add_r in H2 by lia. change (2 ^ 1) with 2 in H2. lia.
Qed.

Lemma digits2_of_range (p : positive) (d : Z) :
  2 ^ (d - 1) <= Zpos p < 2 ^ d -> 1 <= d -> Zpos (digits2_pos p) = d.
Proof.
  intros Hr Hd. pose proof (digits2_bounds p) as Hb.
  destruct (Z.lt_trichotomy (Zpos (digits2_pos p)) d) as [Hlt|[Heq|Hgt]];
    [|assumption|].
  - assert (2 ^ Zpos (digits2_pos p) <= 2 ^ (d - 1))
      by (apply Z.pow_le_mono_r; lia). lia.
  - assert (2 ^ d <= 2 ^ (Zpos (digits2_pos p) - 1))
      by (apply Z.pow_le_mono_r; lia). lia.
Qed.

Lemma testbit_high' (n v i : Z) : 0 <= v < 2 ^ n -> n <= i -> Z.testbit v i = false.
Proof. apply testbit_high. Qed.

(** A pattern assembled from sign, exponent field and mantissa field gives the
    fields back. *)
Lemma fields_compose (f : IEEE.format) (s : bool) (E M : Z) :
  0 < IEEE.mbits f -> 0 < IEEE.ebits f ->
  0 <= M < 2 ^ IEEE.mbits f -> 0 <= E < 2 ^ IEEE.ebits f ->
  let x := Z.lor (IEEE.sign_bit f s) (Z.lor (Z.shiftl E (IEEE.mbits f)) M) in
  IEEE.sign_of f x = s /\ IEEE.exp_of f x = E /\ IEEE.man_of f x = M.
Proof.
  intros Hmb Heb HM HE x. subst x.
  unfold IEEE.sign_of, IEEE.exp_of, IEEE.man_of, IEEE.sign_bit.
  set (mb := IEEE.mbits f) in *. set (eb := IEEE.ebits f) in *.
  assert (Hs : forall i, 0 <= i ->
             Z.testbit (if s then Z.shiftl 1 (mb + eb) else 0) i
             = s && (i =? mb + eb)).
  { intros i Hi. destruct s; [|now rewrite Z.testbit_0_l].
    rewrite Z.shiftl_spec by lia. change 1 with (2 ^ 0).
    destruct (Z.eqb_spec i (mb + eb)) as [->|Hne].
    - replace (mb + eb - (mb + eb)) with 0 by lia. reflexivity.
    - destruct (Z.lt_ge_cases (i - (mb + eb)) 0).
      + now rewrite Z.testbit_neg_r.
      + rewrite Z.pow2_bits_false by lia. reflexivity. }
  repeat split.
  - rewrite !Z.lor_spec, Hs, Z.eqb_refl, andb_true_r by lia.
    rewrite Z.shiftl_spec by lia.
    rewrite (testbit_high eb E), (testbit_high mb M) by lia.
    now rewrite !orb_false_r.
  - apply Z.bits_inj'. intros i Hi.
    rewrite Z.land_spec, Z.shiftr_spec, !Z.lor_spec, Hs, Z.shiftl_spec by lia.
    replace (i + mb - mb) with i by lia.
    rewrite (testbit_high mb M) by lia. rewrite orb_false_r.
    destruct (Z.lt_ge_cases i eb).
    + rewrite Z.ones_spec_low, andb_true_r by lia.
      destruct (Z.eqb_spec (i + mb) (mb + eb)); [lia|].
      now rewrite andb_false_r.
    + rewrite Z.ones_spec_high, andb_false_r by lia.
      symmetry. apply (testbit_high eb); lia.
  - apply Z.bits_inj'. intros i Hi.
    rewrite Z.land_spec, !Z.lor_spec, Hs by lia.
    destruct (Z.lt_ge_cases i mb).
    + rewrite Z.ones_spec_low, andb_true_r by lia.
      rewrite Z.shiftl_spec, Z.testbit_neg_r by lia.
      destruct (Z.eqb_spec i (mb + eb)); [lia|].
      now rewrite andb_false_r.
    + rewrite Z.ones_spec_high, andb_false_r by lia.
      symmetry. apply (testbit_high mb); lia.
Qed.

(** Every pattern of the format's width is assembled from its fields. *)
Lemma fields_decompose (f : IEEE.format) (y : Z) :
  0 < IEEE.mbits f -> 0 < IEEE.ebits f ->
  0 <= y < 2 ^ (IEEE.mbits f + IEEE.ebits f + 1) ->
  y = Z.lor (IEEE.sign_bit f (IEEE.sign_of f y))
        (Z.lor (Z.shiftl (IEEE.exp_of f y) (IEEE.mbits f)) (IEEE.man_of f y)).
Proof.
  intros Hmb Heb Hy.
  unfold IEEE.sign_of, IEEE.exp_of, IEEE.man_of, IEEE.sign_bit.
  set (mb := IEEE.mbits f) in *. set (eb := IEEE.ebits f) in *.
  apply Z.bits_inj'. intros i Hi.
  rewrite !Z.lor_spec, Z.land_spec.
  destruct (Z.lt_ge_cases i mb).
  - rewrite Z.ones_spec_low, andb_true_r by lia.
    rewrite Z.shiftl_spec, (Z.testbit_neg_r _ (i - mb)) by lia.
    destruct (Z.testbit y (mb + eb)).
    + rewrite Z.shiftl_spec, (Z.testbit_neg_r 1) by lia. reflexivity.
    + now rewrite Z.testbit_0_l.
  - rewrite Z.ones_spec_high, andb_false_r, orb_false_r by lia.
    rewrite Z.shiftl_spec, Z.land_spec, Z.shiftr_spec by lia.
    replace (i - mb + mb) with i by lia.
    destruct (Z.lt_ge_cases i (mb + eb)).
    + rewrite Z.ones_spec_low, andb_true_r by lia.
      destruct (Z.testbit y (mb + eb)).
      * rewrite Z.shiftl_spec, (Z.testbit_neg_r 1) by lia. reflexivity.
      * now rewrite Z.testbit_0_l.
    + rewrite Z.ones_spec_high, andb_false_r, orb_false_r by lia.
      destruct (Z.eq_dec i (mb + eb)) as [->|Hne].
      * destruct (Z.testbit y (mb + eb)) eqn:E; [|now rewrite Z.testbit_0_l].
        rewrite Z.shiftl_spec by lia.
        replace (mb + eb - (mb + eb)) with 0 by lia. reflexivity.
      * rewrite (testbit_high (mb + eb + 1) y) by lia.
        destruct (Z.testbit y (mb + eb)); [|now rewrite Z.testbit_0_l].
        rewrite Z.shiftl_spec by lia. change 1 with (2 ^ 0).
        rewrite Z.pow2_bits_false by lia. reflexivity.
Qed.

Lemma lor_pow2_add (M mb : Z) : 0 <= mb -> 0 <= M < 2 ^ mb -> Z.lor M (Z.shiftl 1 mb) = M + 2 ^ mb.
Proof.
  intros Hmb HM. rewrite Z.shiftl_1_l. apply Z.or_to_plus.
  apply Z.bits_inj'. intros i Hi. rewrite Z.land_spec, Z.testbit_0_l.
  destruct (Z.eq_dec i mb) as [->|Hne].
  - now rewrite (testbit_high mb M) by lia.
  - rewrite Z.pow2_bits_false by lia. apply andb_false_r.
Qed.

Lemma man_of_range (f : IEEE.format) (y : Z) :
  0 <= IEEE.mbits f -> 0 <= IEEE.man_of f y < 2 ^ IEEE.mbits f.
Proof.
  intros H. unfold IEEE.man_of. rewrite Z.land_ones by assumption.
  apply Z.mod_pos_bound. lia.
Qed.

Lemma exp_of_range (f : IEEE.format) (y : Z) :
  0 <= IEEE.ebits f -> 0 <= IEEE.exp_of f y < 2 ^ IEEE.ebits f.
Proof.
  intros H. unfold IEEE.exp_of. rewrite Z.land_ones by assumption.
  apply Z.mod_pos_bound. lia.
Qed.

(** Encoding what a pattern decodes to gives the pattern back, NaNs apart. *)
Lemma encode_decode (f : IEEE.format) (y : Z) :
  0 < IEEE.mbits f -> 0 < IEEE.ebits f ->
  0 <= y < 2 ^ (IEEE.mbits f + IEEE.ebits f + 1) ->
  IEEE.nan_of f y = false ->
  IEEE.encode f (IEEE.decode f y) = y.
Proof.
  intros Hmb Heb Hy Hn.
  pose proof (fields_decompose f y Hmb Heb Hy) as Hd.
  pose proof (man_of_range f y ltac:(lia)) as HM.
  pose proof (exp_of_range f y ltac:(lia)) as HE.
  unfold IEEE.nan_of in Hn. unfold IEEE.decode.
  set (s := IEEE.sign_of f y) in *. set (E := IEEE.exp_of f y) in *.
  set (M := IEEE.man_of f y) in *.
  etransitivity; [|symmetry; exact Hd].
  destruct (Z.eqb_spec E 0) as [HE0|HE0].
  - destruct (Z.eqb_spec M 0) as [HM0|HM0].
    + cbn [IEEE.encode]. rewrite HE0, HM0, Z.shiftl_0_l.
      now rewrite !Z.lor_0_r.
    + cbn [IEEE.encode]. rewrite Z2Pos.id by lia.
      rewrite Z.shiftl_1_l.
      destruct (Z.ltb_spec M (2 ^ IEEE.mbits f)); [|lia].
      now rewrite HE0, Z.shiftl_0_l, Z.lor_0_l.
  - destruct (Z.eqb_spec E (Z.ones (IEEE.ebits f))) as [HE1|HE1].
    + cbn [andb negb] in Hn. apply negb_false_iff in Hn. rewrite Hn.
      apply Z.eqb_eq in Hn. cbn [IEEE.encode].
      now rewrite HE1, Hn, Z.lor_0_r.
    + cbn [IEEE.encode]. rewrite lor_pow2_add by lia.
      rewrite Z2Pos.id by lia. rewrite Z.shiftl_1_l.
      destruct (Z.ltb_spec (M + 2 ^ IEEE.mbits f) (2 ^ IEEE.mbits f)); [lia|].
      do 3 f_equal; lia.
Qed.

(** Decoding the encoding of a normal number gives the number back. *)
Lemma decode_encode_normal (f : IEEE.format) (s : bool) (m : positive) (e : Z) :
  0 < IEEE.mbits f -> 0 < IEEE.ebits f ->
  Zpos (digits2_pos m) = IEEE.prec f ->
  1 <= e - IEEE.femin f + 1 < Z.ones (IEEE.ebits f) ->
  IEEE.decode f (IEEE.encode f (S754_finite s m e)) = S754_finite s m e
  /\ IEEE.nan_of f (IEEE.encode f (S754_finite s m e)) = false.
Proof.
  intros Hmb Heb Hd HE.
  pose proof (digits2_bounds m) as Hb. rewrite Hd in Hb.
  unfold IEEE.mbits in *.
  replace (2 ^ IEEE.prec f) with (2 * 2 ^ (IEEE.prec f - 1)) in Hb
    by (rewrite <- Z.pow_succ_r by lia; f_equal; lia).
  cbn [IEEE.encode]. unfold IEEE.mbits. rewrite Z.shiftl_1_l.
  destruct (Z.ltb_spec (Zpos m) (2 ^ (IEEE.prec f - 1))); [lia|].
  rewrite Z.ones_equiv in HE.
  destruct (fields_compose f s (e - IEEE.femin f + 1) (Zpos m - 2 ^ (IEEE.prec f - 1)))
    as (F1 & F2 & F3); unfold IEEE.mbits; try lia.
  unfold IEEE.mbits in F1, F2, F3.
  unfold IEEE.decode, IEEE.nan_of. unfold IEEE.mbits. rewrite F1, F2, F3.
  rewrite Z.ones_equiv.
  destruct (Z.eqb_spec (e - IEEE.femin f + 1) 0); [lia|].
  destruct (Z.eqb_spec (e - IEEE.femin f + 1) (Z.pred (2 ^ IEEE.ebits f))); [lia|].
  split; [|reflexivity].
  rewrite (lor_pow2_add _ (IEEE.prec f - 1)) by lia.
  f_equal; [|lia].
  replace (Zpos m - 2 ^ (IEEE.prec f - 1) + 2 ^ (IEEE.prec f - 1)) with (Zpos m) by lia.
  reflexivity.
Qed.

Lemma finite_inj (s s' : bool) (m m' : positive) (e e' : Z) :
  S754_finite s m e = S754_finite s' m' e' -> s = s' /\ m = m' /\ e = e'.
Proof. intros H. inversion H. auto. Qed.

Lemma decode32_bounded (y : Z) (s : bool) (m : positive) (e : Z) :
  IEEE.decode IEEE.binary32 y = S754_finite s m e ->
  1 <= Zpos (digits2_pos m) <= 24 /\ -149 <= e <= 104
  /\ fexp 24 128 (Zpos (digits2_pos m) + e) = e.
Proof.
  unfold IEEE.decode.
  pose proof (man_of_range IEEE.binary32 y ltac:(cbn; lia)) as HM.
  pose proof (exp_of_range IEEE.binary32 y ltac:(cbn; lia)) as HE.
  set (E := IEEE.exp_of IEEE.binary32 y) in *.
  set (M := IEEE.man_of IEEE.binary32 y) in *.
  change (IEEE.mbits IEEE.binary32) with 23 in *.
  change (IEEE.ebits IEEE.binary32) with 8 in *.
  change (IEEE.femin IEEE.binary32) with (-149).
  change (Z.ones 8) with 255. change (2 ^ 8) with 256 in HE.
  destruct (Z.eqb_spec E 0) as [HE0|HE0].
  - destruct (Z.eqb_spec M 0) as [HM0|HM0]; [discriminate|].
    intros H. apply finite_inj in H. destruct H as (_ & <- & <-).
    pose proof (digits2_bounds (Z.to_pos M)) as Hb. rewrite Z2Pos.id in Hb by lia.
    assert (Hd : Zpos (digits2_pos (Z.to_pos M)) <= 23).
    { destruct (Z.le_gt_cases (Zpos (digits2_pos (Z.to_pos M))) 23); [assumption|].
      assert (2 ^ 23 <= 2 ^ (Zpos (digits2_pos (Z.to_pos M)) - 1))
        by (apply Z.pow_le_mono_r; lia). lia. }
    clear - Hd. unfold fexp, emin.
    pose proof (Pos2Z.is_pos (digits2_pos (Z.to_pos M))). lia.
  - destruct (Z.eqb_spec E 255) as [HE1|HE1].
    + destruct (M =? 0); discriminate.
    + intros H. apply finite_inj in H. destruct H as (_ & <- & <-).
      rewrite (lor_pow2_add M 23) by lia.
      assert (Hd : Zpos (digits2_pos (Z.to_pos (M + 2 ^ 23))) = 24).
      { apply digits2_of_range; [|lia]. rewrite Z2Pos.id by lia.
        change (2 ^ (24 - 1)) with (2 ^ 23). change (2 ^ 24) with (2 * 2 ^ 23). lia. }
      rewrite Hd. clear - HE HE0 HE1. unfold fexp, emin. lia.
Qed.

Lemma decode_nan (f : IEEE.format) (y : Z) :
  IEEE.decode f y = S754_nan -> IEEE.nan_of f y = true.
Proof.
  unfold IEEE.decode, IEEE.nan_of.
  destruct (IEEE.exp_of f y =? 0).
  - destruct (IEEE.man_of f y =? 0); discriminate.
  - destruct (IEEE.exp_of f y =? Z.ones (IEEE.ebits f)); [|discriminate].
    destruct (IEEE.man_of f y =? 0); [discriminate|reflexivity].
Qed.

(** The host's widening followed by its narrowing gives every float pattern
    back, NaNs apart. *)
Lemma narrow_widen (y : Z) :
  0 <= y < 2 ^ 32 -> is_nan_f y = false ->
  fst (IEEE.narrow (fst (IEEE.widen y))) = y.
Proof.
  intros Hy Hn. change (is_nan_f y) with (IEEE.nan_of IEEE.binary32 y) in Hn.
  unfold IEEE.widen. rewrite Hn. cbn [fst].
  rewrite <- (encode_decode IEEE.binary32 y) at 2
    by (try assumption; cbn; lia).
  destruct (IEEE.decode IEEE.binary32 y) as [s|s| |s m e] eqn:Hdec.
  - destruct s; vm_compute; reflexivity.
  - destruct s; vm_compute; reflexivity.
  - apply decode_nan in Hdec. congruence.
  - destruct (decode32_bounded y s m e Hdec) as (Hd & He & Hc).
    set (d := Zpos (digits2_pos m)) in *.
    set (k := Z.to_pos (53 - d)).
    assert (Hk : Zpos k = 53 - d) by (subst k; rewrite Z2Pos.id; lia).
    assert (Hw : IEEE.convert IEEE.binary64 (S754_finite s m e)
                 = S754_finite s (Pos.iter xO m k) (e - Zpos k)).
    { cbn [IEEE.convert]. apply round_left.
      - change (IEEE.prec IEEE.binary64) with 53.
        change (IEEE.emax IEEE.binary64) with 1024.
        fold d. unfold fexp, emin. lia.
      - change (IEEE.prec IEEE.binary64) with 53.
        change (IEEE.emax IEEE.binary64) with 1024. lia. }
    rewrite Hw.
    destruct (decode_encode_normal IEEE.binary64 s (Pos.iter xO m k) (e - Zpos k))
      as [Hde Hnn].
    + cbn; lia.
    + cbn; lia.
    + rewrite digits_shifted. change (IEEE.prec IEEE.binary64) with 53.
      fold d. lia.
    + change (IEEE.femin IEEE.binary64) with (-1074).
      change (Z.ones (IEEE.ebits IEEE.binary64)) with 2047. lia.
    + unfold IEEE.narrow. rewrite Hnn, Hde. cbn [fst]. f_equal.
      cbn [IEEE.convert]. apply round_of_shifted.
      * exact Hc.
      * change (IEEE.emax IEEE.binary32) with 128.
        change (IEEE.prec IEEE.binary32) with 24. lia.
Qed.

(** ** Select *)

Lemma ge_nan_false (a : Z) : is_nan_f a = true -> fst (fp_gef sse2 a 0) = false.
Proof.
  unfold is_nan_f, exponent_f, mantissa_f. intros H.
  apply andb_prop in H as [He Hm]. apply Z.eqb_eq in He.
  cbn [fp_gef sse2 IEEE.ge fst].
  assert (Hd : IEEE.decode IEEE.binary32 a = S754_nan).
  { unfold IEEE.decode, IEEE.exp_of, IEEE.man_of, IEEE.mbits, IEEE.ebits, IEEE.prec,
      IEEE.binary32.
    change (24 - 1) with 23. rewrite He.
    change (0xFF =? 0) with false. change (0xFF =? Z.ones 8) with true. cbv iota.
    destruct (Z.land a (Z.ones 23) =? 0); [discriminate|reflexivity]. }
  rewrite Hd. reflexivity.
Qed.

Lemma narrow_nan_is_nan (v : Z) :
  is_nan v = true -> is_nan_f (fst (fp_narrow sse2 v)) = true.
Proof.
  intros Hn. cbn [fp_narrow sse2]. unfold IEEE.narrow.
  replace (IEEE.nan_of IEEE.binary64 v) with true by (symmetry; exact Hn).
  cbn [fst].
  set (s := IEEE.sign_bit IEEE.binary32 (IEEE.sign_of IEEE.binary64 v)).
  set (m := Z.shiftr (IEEE.man_of IEEE.binary64 v) 29).
  assert (Hb : forall i, 22 <= i < 31 ->
             Z.testbit (Z.lor (Z.lor s 0x7FC00000) m) i = true).
  { intros i Hi. rewrite !Z.lor_spec.
    change 0x7FC00000 with (Z.shiftl (Z.ones 9) 22).
    rewrite Z.shiftl_spec, Z.ones_spec_low by lia.
    now rewrite orb_true_r. }
  unfold is_nan_f. apply andb_true_intro. split.
  - apply Z.eqb_eq. unfold exponent_f. change 0xFF with (Z.ones 8).
    apply Z.bits_inj'. intros i Hi. rewrite Z.land_spec, Z.shiftr_spec by lia.
    destruct (Z.ltb_spec i 8).
    + rewrite Z.ones_spec_low, Hb by lia. reflexivity.
    + rewrite Z.ones_spec_high by lia. apply andb_false_r.
  - apply negb_true_iff, Z.eqb_neq. intros H0.
    assert (Hm : Z.testbit (mantissa_f (Z.lor (Z.lor s 0x7FC00000) m)) 22 = true).
    { unfold mantissa_f. rewrite Z.land_spec, Hb, Z.ones_spec_low by lia. reflexivity. }
    rewrite H0, Z.testbit_0_l in Hm. discriminate.
Qed.

(** C4, as the code has it. For every state, ps_sel copies lane 1 bit for
    bit: d.1 = (A.1 >= 0.0f) ? C.1 : B.1.  Lane 0 goes through float: A.0,
    B.0 and C.0 are each converted to float by the host, the choice is
    (float(A.0) >= 0) ? float(C.0) : float(B.0), and frD lane 0 is the
    chosen float widened back to double.  No other register and no FPSCR
    bit changes.  On the IEEE host a NaN in A compares false, so it routes
    to B in either lane; and when B.0 and C.0 hold floats that are not NaNs
    (each is the widening of a float), lane 0 of frD is a bit copy of the
    chosen one. *)
Theorem ps_sel_lanes (fpu : HostFPU) (st : ThreadState) (instr : Instruction) :
  let A := fpr st (frA instr) in
  let B := fpr st (frB instr) in
  let C := fpr st (frC instr) in
  let a0 := fst (fp_narrow fpu (paired0 A)) in
  let b0 := fst (fp_narrow fpu (paired0 B)) in
  let c0 := fst (fp_narrow fpu (paired0 C)) in
  let d0 := if fst (fp_gef fpu a0 0) then c0 else b0 in
  let d1 := if fst (fp_gef fpu (paired1 A) 0) then paired1 C else paired1 B in
  let st' := ps_sel fpu st instr in
  (forall r, fpr st' r =
     if r =? frD instr then mkFPR (fst (fp_widen fpu d0)) d1 else fpr st r)
  /\ fpscr st' = fpscr st
  /\ (forall st instr,
        is_nan_f (paired1 (fpr st (frA instr))) = true ->
        iw_paired1 (fpr (ps_sel sse2 st instr) (frD instr))
        = paired1 (fpr st (frB instr)))
  /\ (forall st instr,
        is_nan (paired0 (fpr st (frA instr))) = true ->
        idw (fpr (ps_sel sse2 st instr) (frD instr))
        = fst (fp_widen sse2 (fst (fp_narrow sse2 (paired0 (fpr st (frB instr)))))))
  /\ (forall st instr yb yc,
        0 <= yb < 2 ^ 32 -> is_nan_f yb = false ->
        0 <= yc < 2 ^ 32 -> is_nan_f yc = false ->
        paired0 (fpr st (frB instr)) = fst (fp_widen sse2 yb) ->
        paired0 (fpr st (frC instr)) = fst (fp_widen sse2 yc) ->
        idw (fpr (ps_sel sse2 st instr) (frD instr))
        = if fst (fp_gef sse2 (fst (fp_narrow sse2 (paired0 (fpr st (frA instr))))) 0)
          then paired0 (fpr st (frC instr)) else paired0 (fpr st (frB instr))).
Proof.
  assert (Hgen : forall (u : HostFPU) (s : ThreadState) (i : Instruction) (r : Z),
             fpr (ps_sel u s i) r =
             if r =? frD i
             then mkFPR
                    (fst (fp_widen u
                       (if fst (fp_gef u (fst (fp_narrow u (paired0 (fpr s (frA i))))) 0)
                        then fst (fp_narrow u (paired0 (fpr s (frC i))))
                        else fst (fp_narrow u (paired0 (fpr s (frB i)))))))
                    (if fst (fp_gef u (paired1 (fpr s (frA i))) 0)
                     then paired1 (fpr s (frC i)) else paired1 (fpr s (frB i)))
             else fpr s r).
  { intros u s i r. unfold ps_sel, host. cbv beta iota zeta.
    rewrite fpr_record_cr1. reflexivity. }
  intros A B C a0 b0 c0 d0 d1 st'. split; [|split; [|split; [|split]]].
  - intros r. apply Hgen.
  - subst st'. unfold ps_sel, host. cbv beta iota zeta.
    rewrite fpscr_record_cr1. reflexivity.
  - intros s i Hn. rewrite Hgen, Z.eqb_refl. cbn [iw_paired1].
    now rewrite ge_nan_false.
  - intros s i Hn. rewrite Hgen, Z.eqb_refl. cbn [idw].
    now rewrite ge_nan_false by (now apply narrow_nan_is_nan).
  - intros s i yb yc Hyb Hnb Hyc Hnc HB HC.
    rewrite Hgen, Z.eqb_refl. cbn [idw]. rewrite HB, HC.
    change (fp_narrow sse2) with IEEE.narrow.
    change (fp_widen sse2) with IEEE.widen.
    rewrite !narrow_widen by assumption.
    now destruct (fst (fp_gef sse2 _ 0)).
Qed.

(** A quiet NaN in both lanes of A: frD receives B's lanes (10.0 and
    20.0f), not C's.  With A.0 = 1.0 and the floats 10.0f and 30.0f in
    lane 0 of B and C, frD lane 0 is C.0 bit for bit. *)
Lemma ps_sel_lanes_witness :
  let st := state_of fpscr_zero (mkFPR 0x7FF8000000000000 0x7FC00000)
                     (mkFPR 0x4024000000000000 0x41A00000)
                     (mkFPR 0x403E000000000000 0x42200000) in
  let st2 := state_of fpscr_zero (mkFPR 0x3FF0000000000000 0)
                      (mkFPR 0x4024000000000000 0)
                      (mkFPR 0x403E000000000000 0) in
  iw_paired1 (fpr (ps_sel sse2 st instr_abcd) 4) = 0x41A00000
  /\ idw (fpr (ps_sel sse2 st instr_abcd) 4) = 0x4024000000000000
  /\ idw (fpr (ps_sel sse2 st2 instr_abcd) 4) = 0x403E000000000000.
Proof.
  intros st st2.
  destruct (ps_sel_lanes sse2 st instr_abcd) as (_ & _ & H1 & H0 & Hf).
  split; [|split].
  - exact (H1 st instr_abcd eq_refl).
  - etransitivity; [exact (H0 st instr_abcd eq_refl)|vm_compute; reflexivity].
  - etransitivity.
    + apply (Hf st2 instr_abcd 0x41200000 0x41F00000);
        [vm_compute; split; [discriminate|reflexivity] | reflexivity
        |vm_compute; split; [discriminate|reflexivity] | reflexivity
        |vm_compute; reflexivity | vm_compute; reflexivity].
    + vm_compute. reflexivity.
Defined.

(** C4 as stated fails in lane 0.  With A.0 = -1.0 the choice falls on B,
    but B.0 = 1 + 2^-52 does not fit a float and frD lane 0 becomes 1.0:
    not a bit copy of either source.  With A.0 = -2^-200, which is below
    zero as a double, the float conversion gives -0.0f, the comparison
    holds, and C is chosen instead of B. *)
Lemma ps_sel_not_bit_copy :
  let st := state_of fpscr_zero (mkFPR 0xBFF0000000000000 0)
                     (mkFPR 0x3FF0000000000001 0) (mkFPR 0x4000000000000000 0) in
  let st2 := state_of fpscr_zero (mkFPR 0xB370000000000000 0)
                      (mkFPR 0x3FF0000000000000 0) (mkFPR 0x4000000000000000 0) in
  idw (fpr (ps_sel sse2 st instr_abcd) 4) <> idw (fpr st 2)
  /\ idw (fpr (ps_sel sse2 st instr_abcd) 4) <> idw (fpr st 3)
  /\ fst (IEEE.ge IEEE.binary64 (idw (fpr st2 1)) 0) = false
  /\ idw (fpr (ps_sel sse2 st2 instr_abcd) 4) = idw (fpr st2 3)
  /\ idw (fpr st2 3) <> idw (fpr st2 2).
Proof. vm_compute. repeat split; discriminate. Qed.

(** ** The JIT against the interpreter *)

(** C2, a defect of the JIT. The interpreter computes a fused multiply-add
    with one [std::fma]; the code the JIT emits multiplies ([mulsd]) and
    then adds ([addsd]), rounding the product in between.  With
    A = C = 1 + 2^-52 and B = -(1 + 2^-51), all finite, no flag set and rc
    clear, the exact result 2^-104 fits a float: the interpreter writes it
    to lane 0 and raises nothing, the JIT writes +0.0, with or without the
    final truncation to single. *)
Theorem jit_fmadd_not_fused :
  let A := mkFPR 0x3FF0000000000001 0 in
  let B := mkFPR 0xBFF0000000000002 0 in
  let C := mkFPR 0x3FF0000000000001 0 in
  let st := state_of fpscr_zero A B C in
  let lane0 := fun s : ThreadState => idw (fpr s (frD instr_abcd)) in
  (is_nan (idw A) || is_nan (idw B) || is_nan (idw C)
   || is_infinity (idw A) || is_infinity (idw B) || is_infinity (idw C)
   || rc instr_abcd) = false
  /\ fp_fma sse2 (idw A) (idw C) (idw B) = (0x3970000000000000, fe_none)
  /\ fp_narrow sse2 0x3970000000000000 = (0x0B800000, fe_none)
  /\ lane0 (ps_madd sse2 st instr_abcd) = 0x3970000000000000
  /\ fpscr (ps_madd sse2 st instr_abcd) = set_fprf 0x04 fpscr_zero
  /\ option_map lane0 (fmadds sse2 st instr_abcd) = Some 0
  /\ option_map lane0 (fmadd sse2 st instr_abcd) = Some 0
  /\ FE_INEXACT (snd (fp_mul sse2 (idw A) (idw C))) = true.
Proof. vm_compute. repeat split. Qed.

(** * Further properties *)

(** ** Rounding stays inside the format *)

Lemma shr_1_div2 (mrs : shr_record) :
  0 <= shr_m mrs -> shr_m (shr_1 mrs) = Z.div2 (shr_m mrs).
Proof.
  destruct mrs as [m r s]. cbn [shr_m]. intros Hm.
  destruct m as [|[p|p|]|p]; try reflexivity. lia.
Qed.

Lemma iter_shr_m (n : positive) (mrs : shr_record) :
  0 <= shr_m mrs ->
  shr_m (iter_pos shr_1 n mrs) = Z.shiftr (shr_m mrs) (Zpos n).
Proof.
  rewrite iter_pos_shift. revert mrs.
  induction n as [|n IH] using Pos.peano_ind; intros mrs Hm.
  - cbn [Pos.iter]. rewrite shr_1_div2 by assumption. now rewrite Z.div2_spec.
  - rewrite Pos.iter_succ_r, IH.
    + rewrite shr_1_div2 by assumption.
      rewrite Z.div2_spec, Z.shiftr_shiftr by lia. f_equal. lia.
    + rewrite shr_1_div2 by assumption. now apply Z.div2_nonneg.
Qed.

Lemma Zdigits2_bound (m : Z) : 0 <= m -> m < 2 ^ Zdigits2 m.
Proof.
  intros Hm. destruct m as [|p|p]; [reflexivity| |lia].
  cbn [Zdigits2]. apply digits2_bounds.
Qed.

Lemma Zdigits2_nonneg (m : Z) : 0 <= Zdigits2 m.
Proof. destruct m; cbn; lia. Qed.

(** After [shr_fexp] the mantissa has at most [prec] digits and the exponent
    is at least [emin]. *)
Lemma shr_fexp_bounded (prec emax : Z) (m e : Z) (l : location) :
  0 < prec -> 0 <= m ->
  let r := shr_fexp prec emax m e l in
  0 <= shr_m (fst r) < 2 ^ prec /\ emin prec emax <= snd r.
Proof.
  intros Hp Hm. unfold shr_fexp.
  pose proof (Zdigits2_bound m Hm) as Hd. pose proof (Zdigits2_nonneg m) as Hd0.
  set (d := Zdigits2 m) in *.
  assert (Hsm : shr_m (shr_record_of_loc m l) = m) by (destruct l as [|[]]; reflexivity).
  unfold fexp. set (em := emin prec emax).
  destruct (Z.max (d + e - prec) em - e) as [|n|n] eqn:En; cbn [shr fst snd].
  - rewrite Hsm. split; [|lia]. split; [assumption|].
    apply Z.lt_le_trans with (2 ^ d); [assumption|]. apply Z.pow_le_mono_r; lia.
  - rewrite iter_shr_m by (rewrite Hsm; assumption). rewrite Hsm.
    rewrite Z.shiftr_div_pow2 by lia. split; [|lia]. split.
    + apply Z.div_pos; [assumption|]. apply Z.pow_pos_nonneg; lia.
    + apply Z.div_lt_upper_bound; [apply Z.pow_pos_nonneg; lia|].
      rewrite <- Z.pow_add_r by lia.
      apply Z.lt_le_trans with (2 ^ d); [assumption|]. apply Z.pow_le_mono_r; lia.
  - rewrite Hsm. split; [|lia]. split; [assumption|].
    apply Z.lt_le_trans with (2 ^ d); [assumption|]. apply Z.pow_le_mono_r; lia.
Qed.

Lemma round_nearest_even_bound (m : Z) (l : location) :
  m <= round_nearest_even m l <= m + 1.
Proof. destruct l as [|[]]; cbn; try lia. destruct (Z.even m); lia. Qed.


(** The result of a rounding is never a NaN, and a finite result has at most
    [prec] digits and an exponent of the format. *)
Lemma round_aux_bounded (prec emax : Z) (s : bool) (m e : Z) (l : location) :
  0 < prec -> 0 <= m ->
  match binary_round_aux prec emax s m e l with
  | S754_nan => False
  | S754_finite _ m' e' =>
      Zpos m' < 2 ^ prec /\ emin prec emax <= e' <= emax - prec
  | _ => True
  end.
Proof.
  intros Hp Hm. unfold binary_round_aux.
  pose proof (shr_fexp_bounded prec emax m e l Hp Hm) as H1. cbv zeta in H1.
  destruct (shr_fexp prec emax m e l) as [mrs1 e1]. cbn [fst snd] in H1.
  destruct H1 as [Hm1 He1].
  pose proof (round_nearest_even_bound (shr_m mrs1) (loc_of_shr_record mrs1)) as Hr.
  set (m2 := round_nearest_even (shr_m mrs1) (loc_of_shr_record mrs1)) in *.
  assert (Hm2 : 0 <= m2 <= 2 ^ prec) by lia.
  assert (Hfin : let r := shr_fexp prec emax m2 e1 loc_Exact in
                 0 <= shr_m (fst r) < 2 ^ prec /\ emin prec emax <= snd r)
    by (apply shr_fexp_bounded; lia).
  cbv zeta in Hfin.
  destruct (shr_fexp prec emax m2 e1 loc_Exact) as [mrs2 e2]. cbn [fst snd] in Hfin.
  destruct Hfin as [Hm3 He3].
  destruct (shr_m mrs2) as [|q|q]; [exact I| |lia].
  destruct (Z.leb_spec e2 (emax - prec)); [|exact I].
  split; [lia|lia].
Qed.


Lemma sign_bit_range (f : IEEE.format) (s : bool) :
  0 <= IEEE.mbits f + IEEE.ebits f ->
  0 <= IEEE.sign_bit f s < 2 ^ (IEEE.mbits f + IEEE.ebits f + 1).
Proof.
  intros H. unfold IEEE.sign_bit. destruct s.
  - rewrite Z.shiftl_1_l. split; [apply Z.pow_nonneg; lia|].
    apply Z.pow_lt_mono_r; lia.
  - split; [lia|]. apply Z.pow_pos_nonneg; lia.
Qed.

Lemma lor_range (a b n : Z) :
  0 <= n -> 0 <= a < 2 ^ n -> 0 <= b < 2 ^ n -> 0 <= Z.lor a b < 2 ^ n.
Proof.
  intros Hn Ha Hb. split; [apply Z.lor_nonneg; lia|].
  destruct (Z.eq_dec (Z.lor a b) 0) as [->|Hne]; [apply Z.pow_pos_nonneg; lia|].
  assert (Hn0 : 0 < n).
  { destruct (Z.eq_dec n 0) as [->|]; [|lia].
    change (2 ^ 0) with 1 in *. assert (a = 0) by lia. assert (b = 0) by lia.
    subst. now cbn in Hne. }
  apply Z.log2_lt_pow2; [assert (0 <= Z.lor a b) by (apply Z.lor_nonneg; lia); lia|].
  rewrite Z.log2_lor by lia.
  apply Z.max_lub_lt.
  - destruct (Z.eq_dec a 0) as [->|Ha0]; [cbn; lia|]. apply Z.log2_lt_pow2; lia.
  - destruct (Z.eq_dec b 0) as [->|Hb0]; [cbn; lia|]. apply Z.log2_lt_pow2; lia.
Qed.

Lemma fields_range (f : IEEE.format) (s : bool) (E M : Z) :
  0 < IEEE.mbits f -> 0 < IEEE.ebits f ->
  0 <= M < 2 ^ IEEE.mbits f -> 0 <= E < 2 ^ IEEE.ebits f ->
  0 <= Z.lor (IEEE.sign_bit f s) (Z.lor (Z.shiftl E (IEEE.mbits f)) M)
    < 2 ^ (IEEE.mbits f + IEEE.ebits f + 1).
Proof.
  intros Hmb Heb HM HE.
  set (mb := IEEE.mbits f) in *. set (eb := IEEE.ebits f) in *.
  assert (Hp : 2 ^ (mb + eb) < 2 ^ (mb + eb + 1)) by (apply Z.pow_lt_mono_r; lia).
  apply lor_range; [lia|apply sign_bit_range; fold mb eb; lia|].
  apply lor_range; [lia| |].
  - rewrite Z.shiftl_mul_pow2 by lia. split; [apply Z.mul_nonneg_nonneg; lia|].
    apply Z.lt_trans with (2 ^ (mb + eb)); [|assumption].
    rewrite (Z.add_comm mb), Z.pow_add_r by lia.
    apply Z.mul_lt_mono_pos_r; [apply Z.pow_pos_nonneg|]; lia.
  - split; [lia|]. apply Z.lt_trans with (2 ^ mb); [lia|].
    apply Z.pow_lt_mono_r; lia.
Qed.

(** The pattern of a value of the format: of the format's width, not a NaN,
    and carrying the value's sign. *)
Lemma encode_bounded (f : IEEE.format) (r : spec_float) :
  1 < IEEE.prec f -> 1 < IEEE.ebits f ->
  sf_bounded f r ->
  0 <= IEEE.encode f r < 2 ^ (IEEE.mbits f + IEEE.ebits f + 1)
  /\ IEEE.nan_of f (IEEE.encode f r) = false
  /\ IEEE.sign_of f (IEEE.encode f r) = IEEE.sf_sign r.
Proof.
  intros Hp He Hb.
  assert (Hmb : 0 < IEEE.mbits f) by (unfold IEEE.mbits; lia).
  assert (Heb : 0 < IEEE.ebits f) by lia.
  assert (Hpe : 2 <= 2 ^ IEEE.ebits f).
  { change 2 with (2 ^ 1) at 1. apply Z.pow_le_mono_r; lia. }
  assert (Hpm : 0 < 2 ^ IEEE.mbits f) by (apply Z.pow_pos_nonneg; lia).
  assert (Hones : Z.ones (IEEE.ebits f) = 2 ^ IEEE.ebits f - 1)
    by (rewrite Z.ones_equiv; lia).
  assert (Hgen : forall s E M,
             0 <= M < 2 ^ IEEE.mbits f -> 0 <= E < 2 ^ IEEE.ebits f ->
             (E = Z.ones (IEEE.ebits f) -> M = 0) ->
             let x := Z.lor (IEEE.sign_bit f s) (Z.lor (Z.shiftl E (IEEE.mbits f)) M) in
             0 <= x < 2 ^ (IEEE.mbits f + IEEE.ebits f + 1)
             /\ IEEE.nan_of f x = false /\ IEEE.sign_of f x = s).
  { intros s E M HM HE Hn x.
    destruct (fields_compose f s E M Hmb Heb HM HE) as (F1 & F2 & F3).
    fold x in F1, F2, F3.
    split; [apply fields_range; assumption|]. split; [|exact F1].
    unfold IEEE.nan_of. rewrite F2, F3.
    destruct (Z.eqb_spec E (Z.ones (IEEE.ebits f))) as [HE1|HE1]; [|reflexivity].
    rewrite (Hn HE1). reflexivity. }
  destruct r as [s|s| |s m e]; cbn [IEEE.encode IEEE.sf_sign].
  - specialize (Hgen s 0 0 ltac:(lia) ltac:(lia) ltac:(lia)). cbv zeta in Hgen.
    now rewrite Z.shiftl_0_l, !Z.lor_0_r in Hgen.
  - specialize (Hgen s (Z.ones (IEEE.ebits f)) 0 ltac:(lia) ltac:(lia) ltac:(lia)).
    cbv zeta in Hgen. now rewrite !Z.lor_0_r in Hgen.
  - destruct Hb.
  - cbn [sf_bounded] in Hb. destruct Hb as [Hm Hr].
    rewrite Z.shiftl_1_l.
    unfold IEEE.prec in Hm. fold (IEEE.prec f) in Hm.
    assert (H2 : 2 ^ IEEE.prec f = 2 * 2 ^ IEEE.mbits f).
    { unfold IEEE.mbits. rewrite <- Z.pow_succ_r by lia. f_equal. lia. }
    destruct (Z.ltb_spec (Zpos m) (2 ^ IEEE.mbits f)) as [Hs|Hs].
    + specialize (Hgen s 0 (Zpos m) ltac:(lia) ltac:(lia) ltac:(lia)).
      cbv zeta in Hgen. now rewrite Z.shiftl_0_l, Z.lor_0_l in Hgen.
    + unfold IEEE.femin, emin, IEEE.emax in *.
      assert (H2e : 2 ^ IEEE.ebits f = 2 * 2 ^ (IEEE.ebits f - 1)).
      { rewrite <- Z.pow_succ_r by lia. f_equal. lia. }
      apply Hgen; lia.
Qed.

Lemma decode_bounded64 (v : Z) :
  IEEE.nan_of IEEE.binary64 v = false -> sf_bounded IEEE.binary64 (IEEE.decode IEEE.binary64 v).
Proof.
  intros Hn. unfold IEEE.decode, IEEE.nan_of in *.
  pose proof (man_of_range IEEE.binary64 v ltac:(cbn; lia)) as HM.
  pose proof (exp_of_range IEEE.binary64 v ltac:(cbn; lia)) as HE.
  set (E := IEEE.exp_of IEEE.binary64 v) in *.
  set (M := IEEE.man_of IEEE.binary64 v) in *.
  change (IEEE.mbits IEEE.binary64) with 52 in *.
  change (IEEE.ebits IEEE.binary64) with 11 in *.
  change (Z.ones 11) with 2047 in *. change (2 ^ 11) with 2048 in HE.
  destruct (Z.eqb_spec E 0).
  - destruct (Z.eqb_spec M 0); [exact I|]. cbn [sf_bounded].
    rewrite Z2Pos.id by lia.
    change (IEEE.prec IEEE.binary64) with 53.
    change (IEEE.femin IEEE.binary64) with (-1074).
    change (IEEE.emax IEEE.binary64) with 1024.
    change (2 ^ 53) with (2 * 2 ^ 52). lia.
  - destruct (Z.eqb_spec E 2047).
    + destruct (Z.eqb_spec M 0); [exact I|discriminate].
    + cbn [sf_bounded]. rewrite (lor_pow2_add M 52) by lia.
      rewrite Z2Pos.id by lia.
      change (IEEE.prec IEEE.binary64) with 53.
      change (IEEE.femin IEEE.binary64) with (-1074).
      change (IEEE.emax IEEE.binary64) with 1024.
      change (2 ^ 53) with (2 * 2 ^ 52). lia.
Qed.

Lemma convert_bounded (f : IEEE.format) (x : spec_float) :
  0 < IEEE.prec f -> x <> S754_nan -> sf_bounded f (IEEE.convert f x).
Proof.
  intros Hp Hx. destruct x as [s|s| |s m e]; cbn [IEEE.convert sf_bounded]; try exact I.
  - congruence.
  - unfold binary_round.
    destruct (shl_align m e (fexp (IEEE.prec f) (IEEE.emax f) (Zpos (digits2_pos m) + e)))
      as [mz ez].
    pose proof (round_aux_bounded (IEEE.prec f) (IEEE.emax f) s (Zpos mz) ez loc_Exact
                  Hp ltac:(lia)) as H.
    destruct (binary_round_aux (IEEE.prec f) (IEEE.emax f) s (Zpos mz) ez loc_Exact);
      try exact I; [destruct H|exact H].
Qed.

Lemma decode_not_nan (f : IEEE.format) (v : Z) :
  IEEE.nan_of f v = false -> IEEE.decode f v <> S754_nan.
Proof. intros Hn H. apply decode_nan in H. congruence. Qed.

(** The host's narrowing always yields a 32-bit pattern, a NaN exactly for a
    NaN, and never a signalling one. *)
Lemma narrow_facts (v : Z) :
  let y := fst (IEEE.narrow v) in
  0 <= y < 2 ^ 32
  /\ is_nan_f y = is_nan v
  /\ is_signalling_nan_f y = false.
Proof.
  intros y. subst y. unfold IEEE.narrow.
  change (is_nan v) with (IEEE.nan_of IEEE.binary64 v).
  destruct (IEEE.nan_of IEEE.binary64 v) eqn:Hn; cbn [fst].
  - pose proof (man_of_range IEEE.binary64 v ltac:(cbn; lia)) as HM.
    change (IEEE.mbits IEEE.binary64) with 52 in HM.
    set (M := IEEE.man_of IEEE.binary64 v) in *.
    set (s := IEEE.sign_of IEEE.binary64 v).
    assert (HS : 0 <= Z.shiftr M 29 < 2 ^ 23).
    { rewrite Z.shiftr_div_pow2 by lia. split; [apply Z.div_pos; lia|].
      apply Z.div_lt_upper_bound; [lia|]. change (2 ^ 29 * 2 ^ 23) with (2 ^ 52). lia. }
    assert (Hx : Z.lor (Z.lor (IEEE.sign_bit IEEE.binary32 s) 0x7FC00000) (Z.shiftr M 29)
                 = Z.lor (IEEE.sign_bit IEEE.binary32 s)
                     (Z.lor (Z.shiftl 255 23) (Z.lor (2 ^ 22) (Z.shiftr M 29)))).
    { change 0x7FC00000 with (Z.lor (Z.shiftl 255 23) (2 ^ 22)).
      now rewrite <- !Z.lor_assoc. }
    rewrite Hx.
    assert (HM2 : 0 <= Z.lor (2 ^ 22) (Z.shiftr M 29) < 2 ^ 23)
      by (apply lor_range; lia).
    destruct (fields_compose IEEE.binary32 s 255 (Z.lor (2 ^ 22) (Z.shiftr M 29)))
      as (F1 & F2 & F3);
      [reflexivity|reflexivity|exact HM2|split; [discriminate|reflexivity]|].
    change (IEEE.mbits IEEE.binary32) with 23 in *.
    assert (Hq : Z.testbit (Z.lor (2 ^ 22) (Z.shiftr M 29)) 22 = true)
      by (rewrite Z.lor_spec, Z.pow2_bits_true by lia; reflexivity).
    split; [apply (fields_range IEEE.binary32);
            [reflexivity|reflexivity|exact HM2|split; [discriminate|reflexivity]]|].
    unfold is_signalling_nan_f.
    change (is_nan_f ?x) with (IEEE.nan_of IEEE.binary32 x).
    unfold IEEE.nan_of. change (IEEE.mbits IEEE.binary32) with 23.
    rewrite F2, F3.
    assert (Hnz : Z.lor (2 ^ 22) (Z.shiftr M 29) <> 0).
    { intros H0. rewrite H0, Z.testbit_0_l in Hq. discriminate. }
    apply Z.eqb_neq in Hnz. rewrite Hnz. cbn [andb negb].
    split; [reflexivity|].
    unfold quiet_f. rewrite Z.lor_spec, Z.lor_spec, Z.shiftl_spec by lia.
    rewrite Z.lor_spec. rewrite Z.pow2_bits_true by lia.
    now rewrite !orb_true_r.
  - pose proof (convert_bounded IEEE.binary32 (IEEE.decode IEEE.binary64 v)
                  ltac:(cbn; lia) (decode_not_nan _ _ Hn)) as Hb.
    destruct (encode_bounded IEEE.binary32 _ ltac:(cbn; lia) ltac:(cbn; lia) Hb)
      as (Hr & Hnn & _).
    split; [exact Hr|].
    unfold is_signalling_nan_f.
    change (is_nan_f ?x) with (IEEE.nan_of IEEE.binary32 x).
    rewrite Hnn. split; reflexivity.
Qed.

(** ** Sign operations and the widening *)

Lemma fields32_move (mode : MoveMode) (y : Z) :
  IEEE.sign_of IEEE.binary32 (move_bits mode y)
  = sign_op mode (IEEE.sign_of IEEE.binary32 y)
  /\ IEEE.exp_of IEEE.binary32 (move_bits mode y) = IEEE.exp_of IEEE.binary32 y
  /\ IEEE.man_of IEEE.binary32 (move_bits mode y) = IEEE.man_of IEEE.binary32 y.
Proof.
  unfold IEEE.sign_of, IEEE.exp_of, IEEE.man_of.
  change (IEEE.mbits IEEE.binary32) with 23. change (IEEE.ebits IEEE.binary32) with 8.
  change (23 + 8) with 31.
  split; [|split].
  - now rewrite move_bits_spec by lia.
  - apply Z.bits_inj'. intros i Hi. rewrite !Z.land_spec, !Z.shiftr_spec by lia.
    destruct (Z.ltb_spec i 8).
    + rewrite move_bits_spec by lia. destruct (Z.eqb_spec (i + 23) 31); [lia|reflexivity].
    + now rewrite Z.ones_spec_high, !andb_false_r by lia.
  - apply Z.bits_inj'. intros i Hi. rewrite !Z.land_spec.
    destruct (Z.ltb_spec i 23).
    + rewrite move_bits_spec by lia. destruct (Z.eqb_spec i 31); [lia|reflexivity].
    + now rewrite Z.ones_spec_high, !andb_false_r by lia.
Qed.

Lemma nan32_move (mode : MoveMode) (y : Z) :
  is_nan_f (move_bits mode y) = is_nan_f y.
Proof.
  change (is_nan_f ?x) with (IEEE.nan_of IEEE.binary32 x). unfold IEEE.nan_of.
  destruct (fields32_move mode y) as (_ & -> & ->). reflexivity.
Qed.

(** A move changes the sign of what a pattern decodes to, nothing else. *)

Lemma decode32_move (mode : MoveMode) (y : Z) :
  IEEE.decode IEEE.binary32 (move_bits mode y)
  = sf_with_sign (sign_op mode) (IEEE.decode IEEE.binary32 y).
Proof.
  unfold IEEE.decode. destruct (fields32_move mode y) as (-> & -> & ->).
  destruct (IEEE.exp_of IEEE.binary32 y =? 0).
  - now destruct (IEEE.man_of IEEE.binary32 y =? 0).
  - destruct (IEEE.exp_of IEEE.binary32 y =? Z.ones (IEEE.ebits IEEE.binary32));
      [now destruct (IEEE.man_of IEEE.binary32 y =? 0)|reflexivity].
Qed.

Lemma convert_with_sign (f : IEEE.format) (g : bool -> bool) (x : spec_float) :
  IEEE.convert f (sf_with_sign g x) = sf_with_sign g (IEEE.convert f x).
Proof.
  destruct x as [s|s| |s m e]; try reflexivity.
  cbn [sf_with_sign IEEE.convert]. unfold binary_round.
  destruct (shl_align m e (fexp (IEEE.prec f) (IEEE.emax f) (Zpos (digits2_pos m) + e)))
    as [mz ez].
  unfold binary_round_aux.
  destruct (shr_fexp (IEEE.prec f) (IEEE.emax f) (Zpos mz) ez loc_Exact) as [mrs1 e1].
  destruct (shr_fexp (IEEE.prec f) (IEEE.emax f)
              (round_nearest_even (shr_m mrs1) (loc_of_shr_record mrs1)) e1 loc_Exact)
    as [mrs2 e2].
  destruct (shr_m mrs2); try reflexivity.
  now destruct (e2 <=? IEEE.emax f - IEEE.prec f).
Qed.

(** The pattern of a value is its sign bit on top of the pattern of its
    magnitude. *)
Lemma encode_sign_body (f : IEEE.format) (r : spec_float) :
  r <> S754_nan ->
  IEEE.encode f r
  = Z.lor (IEEE.sign_bit f (IEEE.sf_sign r))
          (IEEE.encode f (sf_with_sign (fun _ => false) r)).
Proof.
  intros Hr. destruct r as [s|s| |s m e]; cbn [IEEE.encode sf_with_sign IEEE.sf_sign].
  - now rewrite Z.lor_0_r.
  - reflexivity.
  - congruence.
  - destruct (Zpos m <? Z.shiftl 1 (IEEE.mbits f)); reflexivity.
Qed.

Lemma move_bits64_sign (mode : MoveMode) (s : bool) (body : Z) :
  0 <= body < 2 ^ 63 ->
  move_bits64 mode (Z.lor (IEEE.sign_bit IEEE.binary64 s) body)
  = Z.lor (IEEE.sign_bit IEEE.binary64 (sign_op mode s)) body.
Proof.
  intros Hb.
  assert (Hs : forall b i, 0 <= i ->
             Z.testbit (IEEE.sign_bit IEEE.binary64 b) i = b && (i =? 63)).
  { intros b i Hi. unfold IEEE.sign_bit.
    change (IEEE.mbits IEEE.binary64 + IEEE.ebits IEEE.binary64) with 63.
    destruct b; [|now rewrite Z.testbit_0_l].
    rewrite Z.shiftl_1_l. destruct (Z.eqb_spec i 63) as [->|Hne].
    - now rewrite Z.pow2_bits_true by lia.
    - now rewrite Z.pow2_bits_false by lia. }
  assert (Hr : 0 <= Z.lor (IEEE.sign_bit IEEE.binary64 s) body < 2 ^ 64).
  { apply lor_range; [lia| |lia].
    apply (sign_bit_range IEEE.binary64 s). cbn. lia. }
  apply Z.bits_inj'. intros i Hi.
  destruct (Z.le_gt_cases 64 i).
  - rewrite move_bits64_high by assumption.
    rewrite Z.lor_spec, Hs, (testbit_high 63 body) by lia.
    destruct (Z.eqb_spec i 63); [lia|]. now rewrite andb_false_r.
  - rewrite move_bits64_spec by lia. rewrite !Z.lor_spec, !Hs by lia.
    destruct (Z.eqb_spec i 63) as [->|Hne].
    + rewrite (testbit_high 63 body) by lia. now rewrite !andb_true_r, !orb_false_r.
    + now rewrite !andb_false_r.
Qed.

Lemma sf_sign_with_sign (g : bool -> bool) (r : spec_float) :
  r <> S754_nan -> IEEE.sf_sign (sf_with_sign g r) = g (IEEE.sf_sign r).
Proof. destruct r; cbn; congruence. Qed.

Lemma with_sign_const (g : bool -> bool) (r : spec_float) :
  sf_with_sign (fun _ => false) (sf_with_sign g r) = sf_with_sign (fun _ => false) r.
Proof. now destruct r. Qed.

Lemma with_sign_not_nan (g : bool -> bool) (r : spec_float) :
  r <> S754_nan -> sf_with_sign g r <> S754_nan.
Proof. destruct r; cbn; congruence. Qed.

Lemma sf_bounded_with_sign (f : IEEE.format) (g : bool -> bool) (r : spec_float) :
  sf_bounded f r -> sf_bounded f (sf_with_sign g r).
Proof. now destruct r. Qed.

(** What the host's widening makes of a pattern that is not a NaN. *)
Lemma widen_not_nan_facts (y : Z) :
  is_nan_f y = false ->
  let w := fst (IEEE.widen y) in
  0 <= w < 2 ^ 64 /\ is_nan w = false
  /\ forall mode, fst (IEEE.widen (move_bits mode y)) = move_bits64 mode w.
Proof.
  intros Hn w. subst w.
  change (is_nan_f y) with (IEEE.nan_of IEEE.binary32 y) in Hn.
  pose proof (decode_not_nan _ _ Hn) as Hd.
  set (x := IEEE.decode IEEE.binary32 y) in *.
  assert (Hb : sf_bounded IEEE.binary64 (IEEE.convert IEEE.binary64 x))
    by (apply convert_bounded; [reflexivity|exact Hd]).
  assert (Hcn : IEEE.convert IEEE.binary64 x <> S754_nan)
    by (intros H; rewrite H in Hb; exact Hb).
  assert (Hw : fst (IEEE.widen y)
               = IEEE.encode IEEE.binary64 (IEEE.convert IEEE.binary64 x))
    by (unfold IEEE.widen; rewrite Hn; reflexivity).
  assert (Hwm : forall mode, fst (IEEE.widen (move_bits mode y))
               = IEEE.encode IEEE.binary64
                   (sf_with_sign (sign_op mode) (IEEE.convert IEEE.binary64 x))).
  { intros mode. unfold IEEE.widen.
    change (IEEE.nan_of IEEE.binary32 (move_bits mode y))
      with (is_nan_f (move_bits mode y)).
    rewrite nan32_move. change (is_nan_f y) with (IEEE.nan_of IEEE.binary32 y).
    rewrite Hn. cbn [fst]. rewrite decode32_move. fold x.
    rewrite convert_with_sign. reflexivity. }
  rewrite Hw.
  destruct (encode_bounded IEEE.binary64 _ ltac:(reflexivity) ltac:(reflexivity) Hb)
    as (Hr & Hnn & _).
  split; [exact Hr|]. split; [exact Hnn|].
  intros mode. rewrite Hwm. clear Hw Hwm.
  set (r := IEEE.convert IEEE.binary64 x) in *. clearbody r. clear x Hd Hn.
  pose proof (encode_sign_body IEEE.binary64 r Hcn) as E1.
  pose proof (encode_sign_body IEEE.binary64 (sf_with_sign (sign_op mode) r)
                (with_sign_not_nan _ _ Hcn)) as E2.
  rewrite with_sign_const in E2. rewrite (sf_sign_with_sign _ _ Hcn) in E2.
  destruct (encode_bounded IEEE.binary64 (sf_with_sign (fun _ => false) r)
              ltac:(reflexivity) ltac:(reflexivity)
              (sf_bounded_with_sign _ _ _ Hb)) as (Hr0 & _ & Hs0).
  rewrite (sf_sign_with_sign _ _ Hcn) in Hs0.
  change (IEEE.mbits IEEE.binary64 + IEEE.ebits IEEE.binary64 + 1) with 64 in Hr0.
  set (b := IEEE.encode IEEE.binary64 (sf_with_sign (fun _ : bool => false) r)) in *.
  clearbody b.
  etransitivity; [exact E2|]. etransitivity; [|apply f_equal; symmetry; exact E1].
  symmetry. apply move_bits64_sign.
  split; [lia|].
  destruct (Z.eq_dec b 0) as [->|Hne]; [reflexivity|].
  apply Z.log2_lt_pow2; [lia|].
  destruct (Z.lt_ge_cases (Z.log2 b) 63) as [|Hge]; [assumption|exfalso].
  assert (Hl : Z.log2 b < 64) by (apply Z.log2_lt_pow2; lia).
  assert (Hl63 : Z.log2 b = 63) by lia.
  assert (Ht : Z.testbit b 63 = true) by (rewrite <- Hl63; apply Z.bit_log2; lia).
  unfold IEEE.sign_of in Hs0.
  change (IEEE.mbits IEEE.binary64 + IEEE.ebits IEEE.binary64) with 63 in Hs0.
  congruence.
Qed.

(** ** Floats extended to double *)

Ltac ones_bits :=
  repeat match goal with
         | |- context [Z.testbit (Z.ones ?n) ?j] =>
             first [ rewrite (Z.ones_spec_low n j) by lia
                   | rewrite (Z.ones_spec_high n j) by lia
                   | rewrite (Z.testbit_neg_r (Z.ones n) j) by lia ]
         end.


Lemma nan_f_exponent_bits (y : Z) :
  is_nan_f y = true -> forall i, 23 <= i < 31 -> Z.testbit y i = true.
Proof.
  unfold is_nan_f, exponent_f. intros H i Hi.
  apply andb_prop in H as [H _]. apply Z.eqb_eq in H.
  change 0xFF with (Z.ones 8) in H.
  pose proof (land_ones_all _ _ (i - 23) H ltac:(lia)) as Hb.
  rewrite Z.shiftr_spec in Hb by lia.
  now replace (i - 23 + 23) with i in Hb by lia.
Qed.

Lemma extend_float_nan_bits_range (y : Z) : 0 <= extend_float_nan_bits y < 2 ^ 64.
Proof.
  assert (Hn : 0 <= extend_float_nan_bits y).
  { unfold extend_float_nan_bits. apply Z.lor_nonneg. split.
    - apply Z.shiftl_nonneg, Z.land_nonneg. right. lia.
    - apply Z.lor_nonneg. split; [lia|].
      apply Z.shiftl_nonneg, Z.land_nonneg. right. lia. }
  split; [exact Hn|].
  destruct (Z.eq_dec (extend_float_nan_bits y) 0) as [->|Hne]; [reflexivity|].
  apply Z.log2_lt_pow2; [lia|].
  destruct (Z.lt_ge_cases (Z.log2 (extend_float_nan_bits y)) 64); [assumption|exfalso].
  pose proof (Z.bit_log2 (extend_float_nan_bits y) ltac:(lia)) as Hb.
  rewrite extend_float_nan_bits_spec in Hb by lia.
  destruct (Z.ltb_spec (Z.log2 (extend_float_nan_bits y)) 29); [lia|].
  destruct (Z.ltb_spec (Z.log2 (extend_float_nan_bits y)) 52); [lia|].
  destruct (Z.ltb_spec (Z.log2 (extend_float_nan_bits y)) 63); [lia|].
  destruct (Z.eqb_spec (Z.log2 (extend_float_nan_bits y)) 63); [lia|discriminate].
Qed.

(** The bit extension of a NaN commutes with the sign operations. *)
Lemma extend_nan_bits_move (mode : MoveMode) (y : Z) :
  extend_float_nan_bits (move_bits mode y)
  = move_bits64 mode (extend_float_nan_bits y).
Proof.
  apply Z.bits_inj'. intros i Hi.
  rewrite extend_float_nan_bits_spec by assumption.
  destruct (Z.le_gt_cases 64 i).
  - rewrite move_bits64_high by (auto using extend_float_nan_bits_range).
    destruct (Z.ltb_spec i 29), (Z.ltb_spec i 52), (Z.ltb_spec i 63), (Z.eqb_spec i 63);
      try lia; reflexivity.
  - rewrite move_bits64_spec, !extend_float_nan_bits_spec by lia.
    change (63 <? 29) with false. change (63 <? 52) with false.
    change (63 <? 63) with false. change (63 =? 63) with true. cbv iota.
    destruct (Z.ltb_spec i 29); [destruct (Z.eqb_spec i 63); [lia|reflexivity]|].
    destruct (Z.ltb_spec i 52).
    + destruct (Z.eqb_spec i 63); [lia|].
      rewrite move_bits_spec by lia. destruct (Z.eqb_spec (i - 29) 31); [lia|reflexivity].
    + destruct (Z.ltb_spec i 63).
      * destruct (Z.eqb_spec i 63); [lia|reflexivity].
      * destruct (Z.eqb_spec i 63); [|lia]. now rewrite move_bits_spec by lia.
Qed.

(** [extend_float] commutes with the sign operations: the extension of a
    moved float is the moved extension. *)
Lemma extend_float_move (mode : MoveMode) (y : Z) :
  extend_float (move_bits mode y) = move_bits64 mode (extend_float y).
Proof.
  unfold extend_float. rewrite nan32_move.
  destruct (is_nan_f y) eqn:Hn.
  - apply extend_nan_bits_move.
  - apply (widen_not_nan_facts y Hn).
Qed.

(** For a float that is no signalling NaN, [extend_float] is the host's
    widening. *)
Lemma extend_float_is_widen (y : Z) :
  is_signalling_nan_f y = false -> extend_float y = fst (IEEE.widen y).
Proof.
  intros Hs. unfold extend_float, IEEE.widen.
  change (IEEE.nan_of IEEE.binary32 y) with (is_nan_f y).
  destruct (is_nan_f y) eqn:Hn; [|reflexivity]. cbn [fst].
  unfold is_signalling_nan_f in Hs. rewrite Hn in Hs. cbn [andb] in Hs.
  apply negb_false_iff in Hs. unfold quiet_f in Hs.
  unfold IEEE.sign_bit, IEEE.sign_of, IEEE.man_of.
  change (IEEE.mbits IEEE.binary32) with 23. change (IEEE.ebits IEEE.binary32) with 8.
  change (IEEE.mbits IEEE.binary64 + IEEE.ebits IEEE.binary64) with 63.
  change (23 + 8) with 31.
  apply Z.bits_inj'. intros i Hi.
  rewrite extend_float_nan_bits_spec by assumption.
  rewrite !Z.lor_spec, Z.shiftl_spec, Z.land_spec by assumption.
  change 0x7FF8000000000000 with (Z.shiftl (Z.ones 12) 51).
  rewrite Z.shiftl_spec by assumption.
  assert (Hsb : Z.testbit (if Z.testbit y 31 then Z.shiftl 1 63 else 0) i
                = Z.testbit y 31 && (i =? 63)).
  { destruct (Z.testbit y 31); [|now rewrite Z.testbit_0_l].
    rewrite Z.shiftl_1_l. destruct (Z.eqb_spec i 63) as [->|Hne].
    - now rewrite Z.pow2_bits_true by lia.
    - now rewrite Z.pow2_bits_false by lia. }
  rewrite Hsb.
  destruct (Z.ltb_spec i 29).
  - ones_bits. rewrite (Z.testbit_neg_r y (i - 29)) by lia.
    destruct (Z.eqb_spec i 63); [lia|]. now rewrite andb_false_r.
  - destruct (Z.ltb_spec i 52).
    + destruct (Z.eqb_spec i 63); [lia|]. rewrite andb_false_r.
      destruct (Z.eq_dec i 51) as [->|Hne].
      * ones_bits. change (51 - 29) with 22. rewrite Hs. reflexivity.
      * ones_bits. now rewrite andb_true_r.
    + destruct (Z.ltb_spec i 63).
      * destruct (Z.eqb_spec i 63); [lia|]. ones_bits.
        now rewrite andb_false_r.
      * destruct (Z.eqb_spec i 63) as [->|Hne]; ones_bits.
        -- now rewrite andb_true_r, andb_false_r, !orb_false_r.
        -- now rewrite !andb_false_r.
Qed.

(** Truncating the bit extension of a NaN gives the NaN back. *)
Lemma truncate_extend_nan (y : Z) :
  0 <= y < 2 ^ 32 -> is_nan_f y = true ->
  truncate_double_bits (extend_float_nan_bits y) = y.
Proof.
  intros Hy Hn. pose proof (nan_f_exponent_bits y Hn) as He.
  apply Z.bits_inj'. intros i Hi.
  rewrite truncate_double_bits_spec by assumption.
  destruct (Z.ltb_spec i 30).
  - rewrite extend_float_nan_bits_spec by lia.
    destruct (Z.ltb_spec (i + 29) 29); [lia|].
    destruct (Z.ltb_spec (i + 29) 52).
    + f_equal. lia.
    + destruct (Z.ltb_spec (i + 29) 63); [|lia]. symmetry. apply He. lia.
  - destruct (Z.ltb_spec i 32).
    + rewrite extend_float_nan_bits_spec by lia.
      destruct (Z.ltb_spec (i + 32) 29); [lia|].
      destruct (Z.ltb_spec (i + 32) 52); [lia|].
      destruct (Z.ltb_spec (i + 32) 63).
      * symmetry. apply He. lia.
      * destruct (Z.eqb_spec (i + 32) 63); [|lia]. f_equal. lia.
    + symmetry. apply (testbit_high 32); lia.
Qed.

(** The NaN class of an extended float is the float's. *)
Lemma extend_float_nan_class (y : Z) :
  is_nan_f y = true ->
  is_nan (extend_float_nan_bits y) = true
  /\ quiet (extend_float_nan_bits y) = quiet_f y.
Proof.
  intros Hn. split.
  - unfold is_nan. apply andb_true_intro. split.
    + apply Z.eqb_eq. unfold exponent. change 0x7FF with (Z.ones 11).
      apply Z.bits_inj'. intros i Hi. rewrite Z.land_spec, Z.shiftr_spec by lia.
      destruct (Z.ltb_spec i 11).
      * rewrite Z.ones_spec_low, andb_true_r by lia.
        rewrite extend_float_nan_bits_spec by lia.
        destruct (Z.ltb_spec (i + 52) 29); [lia|].
        destruct (Z.ltb_spec (i + 52) 52); [lia|].
        destruct (Z.ltb_spec (i + 52) 63); [reflexivity|lia].
      * now rewrite Z.ones_spec_high, andb_false_r by lia.
    + apply negb_true_iff, Z.eqb_neq. intros H0.
      unfold is_nan_f in Hn. apply andb_prop in Hn as [_ Hm].
      apply negb_true_iff, Z.eqb_neq in Hm. apply Hm.
      unfold mantissa_f. apply Z.bits_inj'. intros i Hi.
      rewrite Z.land_spec, Z.testbit_0_l.
      destruct (Z.ltb_spec i 23).
      * rewrite Z.ones_spec_low, andb_true_r by lia.
        apply (f_equal (fun z => Z.testbit z (i + 29))) in H0.
        unfold mantissa in H0.
        rewrite Z.land_spec, Z.ones_spec_low, andb_true_r, Z.testbit_0_l in H0 by lia.
        rewrite extend_float_nan_bits_spec in H0 by lia.
        destruct (Z.ltb_spec (i + 29) 29); [lia|].
        destruct (Z.ltb_spec (i + 29) 52); [|lia].
        now replace (i + 29 - 29) with i in H0 by lia.
      * now rewrite Z.ones_spec_high, andb_false_r by lia.
  - unfold quiet, quiet_f. now rewrite extend_float_nan_bits_spec by lia.
Qed.

Lemma extend_float_snan (y : Z) :
  is_signalling_nan (extend_float y) = is_signalling_nan_f y.
Proof.
  unfold extend_float, is_signalling_nan, is_signalling_nan_f.
  destruct (is_nan_f y) eqn:Hn.
  - destruct (extend_float_nan_class y Hn) as [-> ->]. reflexivity.
  - destruct (widen_not_nan_facts y Hn) as (_ & -> & _). reflexivity.
Qed.

(** The host's narrowing undoes its widening on every float that is no
    signalling NaN. *)
Lemma narrow_widen_quiet (y : Z) :
  0 <= y < 2 ^ 32 -> is_signalling_nan_f y = false ->
  fst (IEEE.narrow (fst (IEEE.widen y))) = y.
Proof.
  intros Hy Hs. destruct (is_nan_f y) eqn:Hn; [|now apply narrow_widen].
  rewrite <- (extend_float_is_widen y Hs). unfold extend_float. rewrite Hn.
  destruct (extend_float_nan_class y Hn) as [Hnan Hq].
  unfold IEEE.narrow. change (IEEE.nan_of IEEE.binary64 ?v) with (is_nan v).
  rewrite Hnan. cbn [fst].
  unfold is_signalling_nan_f in Hs. rewrite Hn in Hs. cbn [andb] in Hs.
  apply negb_false_iff in Hs. unfold quiet_f in Hs.
  pose proof (nan_f_exponent_bits y Hn) as He.
  unfold IEEE.sign_bit, IEEE.sign_of, IEEE.man_of.
  change (IEEE.mbits IEEE.binary64) with 52. change (IEEE.ebits IEEE.binary64) with 11.
  change (IEEE.mbits IEEE.binary32 + IEEE.ebits IEEE.binary32) with 31.
  change (52 + 11) with 63.
  rewrite extend_float_nan_bits_spec by lia.
  change (63 <? 29) with false. change (63 <? 52) with false.
  change (63 <? 63) with false. change (63 =? 63) with true. cbv iota.
  apply Z.bits_inj'. intros i Hi.
  rewrite !Z.lor_spec, Z.shiftr_spec, Z.land_spec by assumption.
  change 0x7FC00000 with (Z.shiftl (Z.ones 9) 22).
  rewrite Z.shiftl_spec by assumption.
  assert (Hsb : Z.testbit (if Z.testbit y 31 then Z.shiftl 1 31 else 0) i
                = Z.testbit y 31 && (i =? 31)).
  { destruct (Z.testbit y 31); [|now rewrite Z.testbit_0_l].
    rewrite Z.shiftl_1_l. destruct (Z.eqb_spec i 31) as [->|Hne].
    - now rewrite Z.pow2_bits_true by lia.
    - now rewrite Z.pow2_bits_false by lia. }
  rewrite Hsb. rewrite extend_float_nan_bits_spec by lia.
  destruct (Z.ltb_spec (i + 29) 29); [lia|].
  destruct (Z.ltb_spec i 22).
  - ones_bits. destruct (Z.eqb_spec i 31); [lia|]. rewrite andb_false_r. cbn [orb].
    destruct (Z.ltb_spec (i + 29) 52); [|lia].
    rewrite andb_true_r. f_equal. lia.
  - destruct (Z.ltb_spec i 31).
    + destruct (Z.eqb_spec i 31); [lia|]. rewrite andb_false_r. ones_bits. cbn [orb].
      symmetry. destruct (Z.eq_dec i 22) as [->|Hne]; [exact Hs|]. apply He. lia.
    + destruct (Z.eqb_spec i 31) as [->|Hne]; ones_bits.
      * now rewrite andb_true_r, andb_false_r, !orb_false_r.
      * rewrite !andb_false_r. cbn [orb].
        symmetry. apply (testbit_high 32); lia.
Qed.

(** Rounding to single precision twice is rounding once. *)
Lemma truncate_idempotent (v : Z) :
  let t := fun x => fst (IEEE.widen (fst (IEEE.narrow x))) in
  t (t v) = t v.
Proof.
  intros t. subst t. cbv beta.
  destruct (narrow_facts v) as (Hr & _ & Hs). cbv zeta in Hr, Hs.
  now rewrite narrow_widen_quiet.
Qed.

(** ** The low 29 bits of a float extended to double *)

Lemma iter_xO_pow2 (m k : positive) : Zpos (Pos.iter xO m k) = Zpos m * 2 ^ Zpos k.
Proof.
  induction k as [|k IH] using Pos.peano_ind.
  - cbn [Pos.iter]. lia.
  - rewrite Pos.iter_succ, Pos2Z.inj_xO, IH, Pos2Z.inj_succ, Z.pow_succ_r by lia. lia.
Qed.

Lemma sign_bit64_low (s : bool) (i : Z) :
  0 <= i < 63 -> Z.testbit (IEEE.sign_bit IEEE.binary64 s) i = false.
Proof.
  intros Hi. unfold IEEE.sign_bit.
  change (IEEE.mbits IEEE.binary64 + IEEE.ebits IEEE.binary64) with 63.
  destruct s; [|apply Z.testbit_0_l].
  rewrite Z.shiftl_1_l. apply Z.pow2_bits_false. lia.
Qed.

Lemma low29_zero (v : Z) :
  (forall i, 0 <= i < 29 -> Z.testbit v i = false) -> Z.land v (Z.ones 29) = 0.
Proof.
  intros H. apply Z.bits_inj'. intros i Hi. rewrite Z.land_spec, Z.testbit_0_l.
  destruct (Z.lt_ge_cases i 29).
  - now rewrite H by lia.
  - now rewrite Z.ones_spec_high, andb_false_r by lia.
Qed.

(** The host's widening leaves the low 29 bits of the double clear. *)
Lemma widen_low29 (y : Z) : Z.land (fst (IEEE.widen y)) (Z.ones 29) = 0.
Proof.
  apply low29_zero. intros i Hi. unfold IEEE.widen.
  destruct (IEEE.nan_of IEEE.binary32 y) eqn:Hn; cbn [fst].
  - rewrite !Z.lor_spec, Z.shiftl_spec, sign_bit64_low by lia.
    rewrite (Z.testbit_neg_r _ (i - 29)) by lia.
    change 0x7FF8000000000000 with (Z.shiftl (Z.ones 12) 51).
    rewrite Z.shiftl_spec by lia. now rewrite (Z.testbit_neg_r _ (i - 51)) by lia.
  - destruct (IEEE.decode IEEE.binary32 y) as [s|s| |s m e] eqn:Hdec;
      cbn [IEEE.convert IEEE.encode].
    + apply sign_bit64_low. lia.
    + rewrite Z.lor_spec, sign_bit64_low, Z.shiftl_spec by lia.
      change (IEEE.mbits IEEE.binary64) with 52.
      now rewrite (Z.testbit_neg_r _ (i - 52)) by lia.
    + apply decode_nan in Hdec. congruence.
    + destruct (decode32_bounded y s m e Hdec) as (Hd & He & Hc).
      set (d := Zpos (digits2_pos m)) in *.
      set (k := Z.to_pos (53 - d)).
      assert (Hk : Zpos k = 53 - d) by (subst k; rewrite Z2Pos.id; lia).
      assert (Hw : binary_round (IEEE.prec IEEE.binary64) (IEEE.emax IEEE.binary64) s m e
                   = S754_finite s (Pos.iter xO m k) (e - Zpos k)).
      { apply round_left.
        - change (IEEE.prec IEEE.binary64) with 53.
          change (IEEE.emax IEEE.binary64) with 1024.
          fold d. unfold fexp, emin. lia.
        - change (IEEE.prec IEEE.binary64) with 53.
          change (IEEE.emax IEEE.binary64) with 1024. lia. }
      rewrite Hw. cbn [IEEE.encode].
      change (IEEE.mbits IEEE.binary64) with 52. rewrite Z.shiftl_1_l.
      pose proof (digits2_bounds (Pos.iter xO m k)) as Hb.
      rewrite digits_shifted in Hb.
      replace (Zpos (digits2_pos m + k)) with 53 in Hb by (fold d in Hk |- *; lia).
      change (2 ^ (53 - 1)) with (2 ^ 52) in Hb.
      destruct (Z.ltb_spec (Zpos (Pos.iter xO m k)) (2 ^ 52)); [lia|].
      rewrite !Z.lor_spec, sign_bit64_low, Z.shiftl_spec by lia.
      rewrite (Z.testbit_neg_r _ (i - 52)) by lia. cbn [orb].
      rewrite iter_xO_pow2.
      replace (Zpos m * 2 ^ Zpos k - 2 ^ 52)
        with ((Zpos m * 2 ^ (Zpos k - 29) - 2 ^ 23) * 2 ^ 29).
      * apply Z.mul_pow2_bits_low. lia.
      * rewrite Z.mul_sub_distr_r, <- Z.mul_assoc, <- !Z.pow_add_r by lia.
        f_equal. f_equal. f_equal. lia.
Qed.

Lemma extend_nan_bits_low29 (y : Z) : Z.land (extend_float_nan_bits y) (Z.ones 29) = 0.
Proof.
  apply low29_zero. intros i Hi. rewrite extend_float_nan_bits_spec by lia.
  now destruct (Z.ltb_spec i 29); [|lia].
Qed.

Lemma extend_float_low29 (y : Z) : Z.land (extend_float y) (Z.ones 29) = 0.
Proof.
  unfold extend_float. destruct (is_nan_f y);
    [apply extend_nan_bits_low29|apply widen_low29].
Qed.

(** ** The JIT's emitters *)

Lemma jit_emit_cases (fpu : HostFPU) (i : FloatInstr) (st : ThreadState)
    (instr : Instruction) :
  rc instr = false ->
  registerFloatInstructions fpu i <> None ->
  exists dst e,
    jit_emit fpu i st instr
    = Some (jit_store instr dst (with_fenv (fun _ => e) st)).
Proof.
  intros Hrc Hreg. unfold jit_emit.
  destruct i; cbn [registerFloatInstructions] in *; try congruence;
    unfold fadd, fadds, fdiv, fdivs, fmul, fmuls, fsub, fsubs,
      fmadd, fmadds, fmsub, fmsubs, fnmadd, fnmadds, fnmsub, fnmsubs,
      fabs, fnabs, faddGeneric, fdivGeneric, fmulGeneric, fsubGeneric,
      fmaddGeneric, fmsubGeneric, frsp, fabsGeneric, fmr, fneg,
      truncateToSingle, host, with_fenv;
    rewrite Hrc; cbn [fst snd fpr fpscr cr1 fenv];
    try (eexists; eexists; reflexivity).
  all: destruct st as [rf f c e]; cbn [fpr fpscr cr1 fenv];
    eexists; exists e; reflexivity.
Qed.

Lemma jit_store_frame (instr : Instruction) (dst : Z) (e : FEnv) (st : ThreadState) :
  let st' := jit_store instr dst (with_fenv (fun _ => e) st) in
  fpscr st' = fpscr st /\ cr1 st' = cr1 st
  /\ (forall r, r <> frD instr -> fpr st' r = fpr st r)
  /\ iw_paired1 (fpr st' (frD instr)) = iw_paired1 (fpr st (frD instr)).
Proof.
  cbn. repeat split.
  - intros r Hr. apply Z.eqb_neq in Hr. now rewrite Hr.
  - now rewrite Z.eqb_refl.
Qed.

(** X1. An instruction is left to the interpreter exactly when its record
    bit is set or [registerFloatInstructions] registers it as a fallback
    (fres, frsqrte, fsel, fctiw, fctiwz); every other instruction is
    translated. *)
Theorem jit_falls_back_iff (fpu : HostFPU) (i : FloatInstr) (st : ThreadState)
    (instr : Instruction) :
  jit_emit fpu i st instr = None
  <-> (rc instr = true \/ In i [Fres; Frsqrte; Fsel; Fctiw; Fctiwz]).
Proof.
  split.
  - intros H. destruct (rc instr) eqn:Hrc; [now left|right].
    destruct (registerFloatInstructions fpu i) eqn:Hreg.
    + destruct (jit_emit_cases fpu i st instr Hrc) as (dst & e & Hs);
        [congruence|congruence].
    + destruct i; cbn in Hreg; try discriminate; cbn; tauto.
  - intros [Hrc|Hin].
    + unfold jit_emit.
      destruct i; cbn [registerFloatInstructions]; try reflexivity;
        unfold fadd, fadds, fdiv, fdivs, fmul, fmuls, fsub, fsubs,
          fmadd, fmadds, fmsub, fmsubs, fnmadd, fnmadds, fnmsub, fnmsubs,
          fabs, fnabs, faddGeneric, fdivGeneric, fmulGeneric, fsubGeneric,
          fmaddGeneric, fmsubGeneric, frsp, fabsGeneric, fmr, fneg;
        now rewrite Hrc.
    + cbn in Hin. unfold jit_emit.
      destruct Hin as [<-|[<-|[<-|[<-|[<-|[]]]]]]; reflexivity.
Qed.

(** X2. Translated code never updates the FPSCR (FPRF and the exception
    bits included) or CR1, and writes no register but frD: whatever the
    operands and the enables, the interpreter's bookkeeping is left out. *)
Theorem jit_leaves_fpscr_alone (fpu : HostFPU) (i : FloatInstr)
    (st st' : ThreadState) (instr : Instruction) :
  jit_emit fpu i st instr = Some st' ->
  fpscr st' = fpscr st /\ cr1 st' = cr1 st
  /\ (forall r, r <> frD instr -> fpr st' r = fpr st r).
Proof.
  intros H.
  destruct (rc instr) eqn:Hrc.
  { assert (Hn : jit_emit fpu i st instr = None)
      by (unfold jit_emit;
          destruct i; cbn [registerFloatInstructions]; try reflexivity;
          unfold fadd, fadds, fdiv, fdivs, fmul, fmuls, fsub, fsubs,
            fmadd, fmadds, fmsub, fmsubs, fnmadd, fnmadds, fnmsub, fnmsubs,
            fabs, fnabs, faddGeneric, fdivGeneric, fmulGeneric, fsubGeneric,
            fmaddGeneric, fmsubGeneric, frsp, fabsGeneric, fmr, fneg;
          now rewrite Hrc).
    congruence. }
  destruct (registerFloatInstructions fpu i) eqn:Hreg.
  - destruct (jit_emit_cases fpu i st instr Hrc) as (dst & e & Hs); [congruence|].
    rewrite Hs in H. apply some_inj in H. subst st'.
    destruct (jit_store_frame instr dst e st) as (F1 & F2 & F3 & _).
    repeat split; assumption.
  - unfold jit_emit in H. rewrite Hreg in H. discriminate.
Qed.

Lemma jit_leaves_fpscr_alone_witness :
  let st := state_of fpscr_ve (mkFPR 0x7FF0000000000000 7)
                     (mkFPR 0xFFF0000000000000 8) (mkFPR 0 9) in
  exists st', jit_emit sse2 Fadds st instr_abcd = Some st'
  /\ fpscr st' = fpscr_ve /\ idw (fpr st' 4) = 0xFFF8000000000000.
Proof.
  intros st. eexists. split; [vm_compute; reflexivity|].
  split.
  - refine (proj1 (jit_leaves_fpscr_alone sse2 Fadds st _ instr_abcd _)).
    vm_compute. reflexivity.
  - vm_compute. reflexivity.
Defined.

Lemma exponent_move_bits64 (mode : MoveMode) (v : Z) :
  exponent (move_bits64 mode v) = exponent v.
Proof.
  unfold exponent. apply Z.bits_inj'. intros i Hi.
  rewrite !Z.land_spec, !Z.shiftr_spec by lia.
  destruct (Z.ltb_spec i 11).
  - rewrite move_bits64_spec by lia.
    destruct (Z.eqb_spec (i + 52) 63); [lia|reflexivity].
  - now rewrite Z.ones_spec_high, !andb_false_r by lia.
Qed.

Lemma signbit_move_bits64 (mode : MoveMode) (v : Z) :
  signbit (move_bits64 mode v) = sign_op mode (signbit v).
Proof. unfold signbit. now rewrite move_bits64_spec by lia. Qed.

Lemma negate_abs_is_nabs (v : Z) :
  0 <= v < 2 ^ 64 -> negateXmm (absXmm v) = move_bits64 MoveNegAbsolute v.
Proof.
  intros Hv. unfold negateXmm, absXmm. cbn [move_bits64].
  change 0x7FFFFFFFFFFFFFFF with (Z.ones 63).
  change 0x8000000000000000 with (2 ^ 63).
  apply Z.bits_inj'. intros i Hi.
  rewrite Z.lxor_spec, Z.land_spec, Z.lor_spec.
  destruct (Z.eq_dec i 63) as [->|Hne].
  - rewrite Z.ones_spec_high, Z.pow2_bits_true by lia.
    now rewrite andb_false_r, orb_true_r.
  - rewrite Z.pow2_bits_false by lia. rewrite xorb_false_r, orb_false_r.
    destruct (Z.lt_ge_cases i 63).
    + now rewrite Z.ones_spec_low, andb_true_r by lia.
    + rewrite (testbit_high 64 v) by lia. reflexivity.
Qed.

(** X3. The JIT's fmr, fneg, fabs and fnabs are sign operations on the
    64-bit pattern of lane 0: exponent and mantissa are those of frB,
    whatever they hold (signalling NaNs and their payloads included), the
    sign bit is kept, flipped, cleared or set, and the host's exception flags
    are left as they were. *)
Theorem jit_sign_emitters_exact (mode : MoveMode) (st : ThreadState)
    (instr : Instruction) :
  let emitter := match mode with
                 | MoveDirect => fmr | MoveNegate => fneg
                 | MoveAbsolute => fabs | MoveNegAbsolute => fnabs
                 end in
  let b := idw (fpr st (frB instr)) in
  rc instr = false ->
  0 <= b < 2 ^ 64 ->
  exists st',
    emitter st instr = Some st'
    /\ fenv st' = fenv st
    /\ idw (fpr st' (frD instr)) = move_bits64 mode b
    /\ exponent (idw (fpr st' (frD instr))) = exponent b
    /\ mantissa (idw (fpr st' (frD instr))) = mantissa b
    /\ signbit (idw (fpr st' (frD instr))) = sign_op mode (signbit b)
    /\ is_signalling_nan (idw (fpr st' (frD instr))) = is_signalling_nan b.
Proof.
  intros emitter b Hrc Hb.
  assert (Hd : exists st', emitter st instr = Some st' /\ fenv st' = fenv st
                 /\ idw (fpr st' (frD instr)) = move_bits64 mode b).
  { subst emitter. destruct mode; unfold fmr, fneg, fabs, fnabs, fabsGeneric;
      rewrite Hrc; eexists; (split; [reflexivity|]); (split; [reflexivity|]);
      unfold jit_store; rewrite fpr_set_fpr_same; cbn [idw]; fold b.
    - reflexivity.
    - reflexivity.
    - reflexivity.
    - now apply negate_abs_is_nabs. }
  destruct Hd as (st' & He & Hf & Hd). exists st'.
  rewrite Hd. repeat split; try assumption.
  - apply exponent_move_bits64.
  - apply mantissa_move_bits64.
  - apply signbit_move_bits64.
  - unfold is_signalling_nan, is_nan, quiet.
    rewrite exponent_move_bits64, mantissa_move_bits64, move_bits64_spec by lia.
    reflexivity.
Qed.

Lemma jit_sign_emitters_exact_witness :
  let st := state_of fpscr_zero (mkFPR 0 0) (mkFPR 0x7FF0000000000001 0) (mkFPR 0 0) in
  exists st', fneg st instr_abcd = Some st'
  /\ idw (fpr st' 4) = 0xFFF0000000000001
  /\ is_signalling_nan (idw (fpr st' 4)) = true.
Proof.
  intros st.
  destruct (jit_sign_emitters_exact MoveNegate st instr_abcd eq_refl)
    as (st' & He & _ & Hd & _ & _ & _ & Hs).
  - vm_compute. split; [discriminate|reflexivity].
  - exists st'. split; [exact He|]. split; [exact Hd|]. exact (eq_trans Hs eq_refl).
Defined.

(** X4. Each single-precision arithmetic emitter is its double-precision
    emitter followed by frsp on the destination: fadds is fadd then
    frsp frD, frD, and likewise for fsubs, fmuls, fdivs, fmadds, fmsubs,
    fnmadds and fnmsubs, for every state and host, host exception flags
    included. *)
Theorem jit_single_is_double_then_frsp (fpu : HostFPU)
    (dbl sgl : ThreadState -> Instruction -> option ThreadState)
    (st : ThreadState) (instr : Instruction) :
  In (dbl, sgl)
     [(fadd fpu, fadds fpu); (fsub fpu, fsubs fpu); (fmul fpu, fmuls fpu);
      (fdiv fpu, fdivs fpu); (fmadd fpu, fmadds fpu); (fmsub fpu, fmsubs fpu);
      (fnmadd fpu, fnmadds fpu); (fnmsub fpu, fnmsubs fpu)] ->
  let round := mkInstruction (frA instr) (frD instr) (frC instr) (frD instr) false in
  match sgl st instr,
        match dbl st instr with Some s1 => frsp fpu s1 round | None => None end
  with
  | Some s, Some s2 =>
      (forall r, fpr s r = fpr s2 r)
      /\ fpscr s = fpscr s2 /\ cr1 s = cr1 s2 /\ fenv s = fenv s2
  | None, None => rc instr = true
  | _, _ => False
  end.
Proof.
  intros Hin round. cbn [In] in Hin.
  repeat match type of Hin with
         | _ \/ _ => destruct Hin as [Hin|Hin]
         end; try contradiction;
    injection Hin as <- <-;
    unfold fadd, fadds, fsub, fsubs, fmul, fmuls, fdiv, fdivs,
      fmadd, fmadds, fmsub, fmsubs, fnmadd, fnmadds, fnmsub, fnmsubs,
      faddGeneric, fsubGeneric, fmulGeneric, fdivGeneric,
      fmaddGeneric, fmsubGeneric, frsp;
    destruct (rc instr); try reflexivity;
    unfold truncateToSingle, host, jit_store, set_fpr, with_fenv, round;
    cbn [fst snd fpr fpscr cr1 fenv frA frB frC frD rc idw iw_paired1];
    rewrite !Z.eqb_refl; cbn [idw iw_paired1];
    (split; [|repeat split]);
    intros r; destruct (r =? frD instr); reflexivity.
Qed.

Lemma jit_single_is_double_then_frsp_witness :
  let st := state_of fpscr_zero (mkFPR 0x3FF0000000000001 0)
                     (mkFPR 0x3FF0000000000000 0) (mkFPR 0 0) in
  exists s s2,
    fadds sse2 st instr_abcd = Some s
    /\ match fadd sse2 st instr_abcd with
       | Some s1 => frsp sse2 s1 (mkInstruction 1 4 3 4 false)
       | None => None
       end = Some s2
    /\ idw (fpr s 4) = idw (fpr s2 4) /\ fenv s = fenv s2
    /\ idw (fpr s 4) = 0x4000000000000000.
Proof.
  intros st. eexists. eexists.
  split; [vm_compute; reflexivity|]. split; [vm_compute; reflexivity|].
  generalize (jit_single_is_double_then_frsp sse2 (fadd sse2) (fadds sse2) st
                instr_abcd (or_introl eq_refl)).
  vm_compute. intros (Hr & _ & _ & He).
  split; [exact (f_equal idw (Hr 4))|]. split; [exact He|reflexivity].
Defined.

Lemma frsp_lane0 (st : ThreadState) (instr : Instruction) :
  rc instr = false ->
  exists st', frsp sse2 st instr = Some st'
  /\ (forall r, fpr st' r =
        if r =? frD instr
        then mkFPR (fst (IEEE.widen (fst (IEEE.narrow (idw (fpr st (frB instr)))))))
                   (iw_paired1 (fpr st (frD instr)))
        else fpr st r)
  /\ fpscr st' = fpscr st.
Proof.
  intros Hrc. unfold frsp. rewrite Hrc.
  unfold truncateToSingle, host. cbn [fp_narrow fp_widen sse2 fst snd].
  eexists. split; [reflexivity|]. split; [|reflexivity].
  intros r. reflexivity.
Qed.

(** X5. On the IEEE host frsp is idempotent: rounding the destination of an
    frsp to single precision once more changes no register, whatever the
    source held (NaNs included). *)
Theorem frsp_idempotent (st : ThreadState) (instr : Instruction) :
  rc instr = false ->
  let again := mkInstruction (frA instr) (frD instr) (frC instr) (frD instr) false in
  exists s1 s2,
    frsp sse2 st instr = Some s1 /\ frsp sse2 s1 again = Some s2
    /\ (forall r, fpr s2 r = fpr s1 r) /\ fpscr s2 = fpscr s1.
Proof.
  intros Hrc again.
  destruct (frsp_lane0 st instr Hrc) as (s1 & E1 & R1 & F1).
  destruct (frsp_lane0 s1 again eq_refl) as (s2 & E2 & R2 & F2).
  exists s1, s2. split; [exact E1|]. split; [exact E2|]. split; [|exact F2].
  intros r. rewrite R2. subst again. cbn [frB frD].
  destruct (Z.eqb_spec r (frD instr)) as [->|Hne]; [|reflexivity].
  rewrite !R1, Z.eqb_refl. cbn [idw iw_paired1].
  f_equal. apply truncate_idempotent.
Qed.

Lemma frsp_idempotent_witness :
  let st := state_of fpscr_zero (mkFPR 0 0) (mkFPR 0x3FF0000030000000 5) (mkFPR 0 0) in
  exists s1 s2,
    frsp sse2 st instr_abcd = Some s1
    /\ frsp sse2 s1 (mkInstruction 1 4 3 4 false) = Some s2
    /\ fpr s1 4 = mkFPR 0x3FF0000040000000 0
    /\ fpr s2 4 = fpr s1 4.
Proof.
  intros st.
  destruct (frsp_idempotent st instr_abcd eq_refl) as (s1 & s2 & E1 & E2 & R & _).
  exists s1, s2. split; [exact E1|]. split; [exact E2|].
  split; [|apply R].
  vm_compute in E1. apply some_inj in E1. rewrite <- E1. vm_compute. reflexivity.
Defined.

(** ** The moves on both lanes *)

Lemma snan32_move (mode : MoveMode) (y : Z) :
  is_signalling_nan_f (move_bits mode y) = is_signalling_nan_f y.
Proof.
  unfold is_signalling_nan_f, quiet_f. rewrite nan32_move, move_bits_spec by lia.
  reflexivity.
Qed.

Lemma moveGeneric_frame (fpu : HostFPU) (mode : MoveMode)
    (st : ThreadState) (instr : Instruction) :
  let st' := moveGeneric fpu mode st instr in
  fpscr st' = fpscr st
  /\ (forall r, r <> frD instr -> fpr st' r = fpr st r)
  /\ iw_paired1 (fpr st' (frD instr)) = move_bits mode (iw_paired1 (fpr st (frB instr))).
Proof.
  intros st'. subst st'. unfold moveGeneric.
  destruct (is_signalling_nan (paired0 (fpr st (frB instr)))); cbn [negb];
    unfold host; cbn [fst snd];
    rewrite fpscr_record_cr1, fpr_record_cr1; cbn [set_fpr fpr fpscr with_fenv];
    (split; [reflexivity|split]);
    try (intros r Hr; apply Z.eqb_neq in Hr; now rewrite Hr);
    now rewrite Z.eqb_refl.
Qed.

(** X6. ps_mr, ps_neg, ps_abs and ps_nabs act on lane 1 as sign
    operations on its 32-bit pattern: the exponent and mantissa fields of
    frD lane 1 are those of frB lane 1 and the sign bit is kept, flipped,
    cleared or set, so a signalling NaN stays signalling.  They change no
    FPSCR bit and no register other than frD, whatever either lane holds. *)
Theorem move_lane1_sign_only (fpu : HostFPU) (mode : MoveMode)
    (st : ThreadState) (instr : Instruction) :
  let st' := moveGeneric fpu mode st instr in
  let b1 := iw_paired1 (fpr st (frB instr)) in
  let d1 := iw_paired1 (fpr st' (frD instr)) in
  d1 = move_bits mode b1
  /\ exponent_f d1 = exponent_f b1
  /\ mantissa_f d1 = mantissa_f b1
  /\ Z.testbit d1 31 = sign_op mode (Z.testbit b1 31)
  /\ is_signalling_nan_f d1 = is_signalling_nan_f b1
  /\ fpscr st' = fpscr st
  /\ (forall r, r <> frD instr -> fpr st' r = fpr st r).
Proof.
  intros st' b1 d1.
  destruct (moveGeneric_frame fpu mode st instr) as (Hf & Hr & Hd).
  fold st' in Hf, Hr, Hd. fold d1 b1 in Hd.
  destruct (fields32_move mode b1) as (Fs & Fe & Fm).
  rewrite Hd. split; [reflexivity|].
  split; [exact Fe|]. split; [exact Fm|]. split; [exact Fs|].
  split; [apply snan32_move|]. split; assumption.
Qed.

(** X7. On a register that holds a single-precision value in lane 0 (the
    extension of a float, NaNs of either kind included), the moves are exact
    on the IEEE host: lane 0 of frD is the extension of the float with its
    sign kept, flipped, cleared or set, which is the 64-bit pattern of frB
    lane 0 with only the sign bit changed. *)
Theorem move_single_exact (mode : MoveMode) (st : ThreadState)
    (instr : Instruction) (y : Z) :
  0 <= y < 2 ^ 32 ->
  paired0 (fpr st (frB instr)) = extend_float y ->
  let d0 := idw (fpr (moveGeneric sse2 mode st instr) (frD instr)) in
  d0 = extend_float (move_bits mode y)
  /\ d0 = move_bits64 mode (paired0 (fpr st (frB instr))).
Proof.
  intros Hy HB d0.
  assert (Hd : d0 = extend_float (move_bits mode y)).
  { subst d0. destruct (is_signalling_nan_f y) eqn:Hs.
    - assert (Hn : is_nan_f y = true)
        by (unfold is_signalling_nan_f in Hs; now apply andb_prop in Hs).
      rewrite moveGeneric_snan
        by (change (idw ?r) with (paired0 r); rewrite HB, extend_float_snan; exact Hs).
      change (idw ?r) with (paired0 r). rewrite HB.
      unfold extend_float at 1. rewrite Hn.
      rewrite truncate_extend_nan by assumption.
      unfold extend_float. now rewrite nan32_move, Hn.
    - unfold moveGeneric. rewrite HB, extend_float_snan, Hs. cbn [negb].
      unfold host. cbn [fst snd fp_narrow fp_widen sse2].
      rewrite fpr_record_cr1, fpr_set_fpr_same. cbn [idw].
      rewrite (extend_float_is_widen y Hs), narrow_widen_quiet by assumption.
      symmetry. apply extend_float_is_widen. now rewrite snan32_move. }
  split; [exact Hd|]. rewrite Hd, HB. apply extend_float_move.
Qed.

Lemma move_single_exact_witness :
  let st := state_of fpscr_zero (mkFPR 0 0) (mkFPR 0x7FF8000020000000 0) (mkFPR 0 0) in
  idw (fpr (ps_neg sse2 st instr_abcd) 4) = 0xFFF8000020000000
  /\ idw (fpr (ps_abs sse2 st instr_abcd) 4) = 0x7FF8000020000000.
Proof.
  intros st. split.
  - refine (eq_trans (proj2 (move_single_exact MoveNegate st instr_abcd 0x7FC00001 _ _)) _).
    + vm_compute. split; [discriminate|reflexivity].
    + vm_compute. reflexivity.
    + vm_compute. reflexivity.
  - refine (eq_trans (proj2 (move_single_exact MoveAbsolute st instr_abcd 0x7FC00001 _ _)) _).
    + vm_compute. split; [discriminate|reflexivity].
    + vm_compute. reflexivity.
    + vm_compute. reflexivity.
Defined.

(** ** FPRF and the first slot *)

Lemma fprf_updateFPSCR (old : FPSCR) (st : ThreadState) :
  fprf (fpscr (updateFPSCR old st)) = fprf (fpscr st).
Proof. reflexivity. Qed.

Lemma psArithGeneric_fprf (fpu : HostFPU) (op : PSArithOperator) (s0 s1 : Z)
    (st : ThreadState) (instr : Instruction) :
  let a := arith_a 0 st instr in
  let b := arith_b op s0 st instr in
  fprf (fpscr (psArithGeneric fpu op s0 s1 st instr))
  = if gate (fpscr st) (arith_raised op a b) then fprf (fpscr st)
    else fprf_of (extend_float (arith_value fpu op a b)).
Proof.
  intros a b. subst a b. unfold psArithGeneric.
  destruct (psArithSingle_spec fpu op 0 s0 st instr) as [R0 Fr0].
  destruct (psArithSingle fpu op 0 s0 st instr) as [st1 w0]. cbn [fst snd] in R0, Fr0.
  destruct (psArithSingle_spec fpu op 1 s1 st1 instr) as [_ Fr1].
  destruct (psArithSingle fpu op 1 s1 st1 instr) as [st2 w1]. cbn [fst snd] in Fr1.
  destruct Fr0 as (_ & _ & _ & P1 & _). destruct Fr1 as (_ & _ & _ & P2 & _).
  rewrite fpscr_record_cr1, fprf_updateFPSCR. subst w0.
  destruct (gate (fpscr st) _).
  - destruct w1; cbn; congruence.
  - destruct w1; reflexivity.
Qed.

Lemma fmaGeneric_fprf (fpu : HostFPU) (flags s0 s1 : Z)
    (st : ThreadState) (instr : Instruction) :
  let a := read_slot 0 st (frA instr) in
  let b := read_slot 0 st (frB instr) in
  let c := read_slot s0 st (frC instr) in
  fprf (fpscr (fmaGeneric fpu flags s0 s1 st instr))
  = if gate (fpscr st) (fma_raised flags a b c) then fprf (fpscr st)
    else fprf_of (extend_float (fma_value fpu flags a b c)).
Proof.
  intros a b c. subst a b c. unfold fmaGeneric.
  destruct (fmaSingle_spec fpu flags 0 s0 st instr) as [R0 Fr0].
  destruct (fmaSingle fpu flags 0 s0 st instr) as [st1 w0]. cbn [fst snd] in R0, Fr0.
  destruct (fmaSingle_spec fpu flags 1 s1 st1 instr) as [_ Fr1].
  destruct (fmaSingle fpu flags 1 s1 st1 instr) as [st2 w1]. cbn [fst snd] in Fr1.
  destruct Fr0 as (_ & _ & _ & P1 & _). destruct Fr1 as (_ & _ & _ & P2 & _).
  rewrite fpscr_record_cr1, fprf_updateFPSCR. subst w0.
  destruct (gate (fpscr st) _).
  - destruct w1; cbn; congruence.
  - destruct w1; reflexivity.
Qed.

Lemma ps_res_fprf (fpu : HostFPU) (st : ThreadState) (instr : Instruction) :
  let b0 := paired0 (fpr st (frB instr)) in
  fprf (fpscr (ps_res fpu st instr))
  = if gate (fpscr st) (res_raised b0) then fprf (fpscr st)
    else fprf_of (fst (fp_widen fpu (res_value fpu b0))).
Proof.
  intros b0. unfold ps_res. cbv zeta. fold b0.
  set (b1 := extend_float (paired1 (fpr st (frB instr)))).
  set (st0 := with_fpscr (or_zx _) _).
  change (ve (fpscr st0)) with (ve (fpscr st)).
  change (ze (fpscr st0)) with (ze (fpscr st)).
  unfold gate, raised_vx.
  cbn [r_vxsnan r_vxisi r_vximz r_vxidi r_vxzdz r_vxsqrt r_zx res_raised].
  rewrite !orb_false_r.
  destruct ((is_signalling_nan b0 && ve (fpscr st)) || (is_zero b0 && ze (fpscr st))).
  - change (ve (fpscr st0)) with (ve (fpscr st)).
    change (ze (fpscr st0)) with (ze (fpscr st)).
    destruct ((is_signalling_nan b1 && ve (fpscr st)) || (is_zero b1 && ze (fpscr st))).
    + rewrite fpscr_record_cr1. reflexivity.
    + destruct (res_lane_spec fpu b1 st0) as (_ & _ & R3).
      destruct (res_lane fpu (is_signalling_nan b1) b1 st0) as [sc d1].
      cbn [fst snd] in R3. rewrite fpscr_record_cr1, fprf_updateFPSCR, R3. reflexivity.
  - destruct (res_lane_spec fpu b0 st0) as (Q1 & _ & _).
    destruct (res_lane fpu (is_signalling_nan b0) b0 st0) as [sa d0].
    cbn [fst snd] in Q1. subst d0.
    destruct (updateFPRF_f_frame fpu (res_value fpu b0) sa) as (_ & U2 & U3 & _).
    assert (UF : fprf (fpscr (updateFPRF_f fpu (res_value fpu b0) sa))
                 = fprf_of (fst (fp_widen fpu (res_value fpu b0)))) by reflexivity.
    set (sb := updateFPRF_f fpu (res_value fpu b0) sa) in *. clearbody sb.
    destruct ((is_signalling_nan b1 && ve (fpscr sb)) || (is_zero b1 && ze (fpscr sb))).
    + rewrite fpscr_record_cr1, fprf_updateFPSCR. exact UF.
    + destruct (res_lane_spec fpu b1 sb) as (_ & _ & T3).
      destruct (res_lane fpu (is_signalling_nan b1) b1 sb) as [sc d1].
      cbn [fst snd] in T3.
      rewrite fpscr_record_cr1, fprf_updateFPSCR. cbn [set_fpr fpscr].
      rewrite T3. exact UF.
Qed.

Lemma ps_rsqrte_fprf (fpu : HostFPU) (st : ThreadState) (instr : Instruction) :
  let b0 := paired0 (fpr st (frB instr)) in
  fprf (fpscr (ps_rsqrte fpu st instr))
  = if gate (fpscr st) (rsqrte_raised b0) then fprf (fpscr st)
    else fprf_of (fst (fp_widen fpu (rsqrte_value fpu b0))).
Proof.
  intros b0. unfold ps_rsqrte. cbv zeta. fold b0.
  set (b1 := extend_float (paired1 (fpr st (frB instr)))).
  set (st0 := with_fpscr (or_zx _) _).
  change (ve (fpscr st0)) with (ve (fpscr st)).
  change (ze (fpscr st0)) with (ze (fpscr st)).
  unfold gate, raised_vx.
  change (negb (is_signalling_nan b0) && signbit b0 && negb (is_zero b0))
    with (r_vxsqrt (rsqrte_raised b0)).
  change (negb (is_signalling_nan b1) && signbit b1 && negb (is_zero b1))
    with (r_vxsqrt (rsqrte_raised b1)).
  change (is_signalling_nan b0) with (r_vxsnan (rsqrte_raised b0)).
  change (is_signalling_nan b1) with (r_vxsnan (rsqrte_raised b1)).
  change (r_vxisi (rsqrte_raised b0)) with false.
  change (r_vximz (rsqrte_raised b0)) with false.
  change (r_vxidi (rsqrte_raised b0)) with false.
  change (r_vxzdz (rsqrte_raised b0)) with false.
  change (r_zx (rsqrte_raised b0)) with (is_zero b0).
  rewrite !orb_false_r.
  set (v0 := r_vxsnan (rsqrte_raised b0) || r_vxsqrt (rsqrte_raised b0)).
  set (v1 := r_vxsnan (rsqrte_raised b1) || r_vxsqrt (rsqrte_raised b1)).
  destruct ((v0 && ve (fpscr st)) || (is_zero b0 && ze (fpscr st))).
  - change (ve (fpscr st0)) with (ve (fpscr st)).
    change (ze (fpscr st0)) with (ze (fpscr st)).
    destruct ((v1 && ve (fpscr st)) || (is_zero b1 && ze (fpscr st))).
    + rewrite fpscr_record_cr1. reflexivity.
    + destruct (rsqrte_lane_spec fpu b1 st0) as (_ & _ & R3). fold v1 in R3.
      destruct (rsqrte_lane fpu v1 b1 st0) as [sc d1].
      cbn [fst snd] in R3. rewrite fpscr_record_cr1, fprf_updateFPSCR, R3. reflexivity.
  - destruct (rsqrte_lane_spec fpu b0 st0) as (Q1 & _ & _). fold v0 in Q1.
    destruct (rsqrte_lane fpu v0 b0 st0) as [sa d0].
    cbn [fst snd] in Q1. subst d0.
    assert (UF : fprf (fpscr (updateFPRF_f fpu (rsqrte_value fpu b0) sa))
                 = fprf_of (fst (fp_widen fpu (rsqrte_value fpu b0)))) by reflexivity.
    set (sb := updateFPRF_f fpu (rsqrte_value fpu b0) sa) in *. clearbody sb.
    destruct ((v1 && ve (fpscr sb)) || (is_zero b1 && ze (fpscr sb))).
    + rewrite fpscr_record_cr1, fprf_updateFPSCR. exact UF.
    + destruct (rsqrte_lane_spec fpu b1 sb) as (_ & _ & T3). fold v1 in T3.
      destruct (rsqrte_lane fpu v1 b1 sb) as [sc d1].
      cbn [fst snd] in T3.
      rewrite fpscr_record_cr1, fprf_updateFPSCR. cbn [set_fpr fpscr].
      rewrite T3. exact UF.
Qed.

(** X8. FPRF follows slot 0 alone.  In the arithmetic, multiply-add,
    reciprocal and reciprocal-square-root instructions the final FPRF is the
    class of slot 0's result whenever slot 0 is not aborted, and is left as
    it was when slot 0 is aborted; slot 1 has no say.  So with slot 0 clean
    and slot 1 aborted by an enabled exception, frD is not written and FPRF
    still changes. *)
Theorem fprf_follows_slot0 (fpu : HostFPU) (st : ThreadState) (instr : Instruction) :
  (forall op s0 s1,
      let a := arith_a 0 st instr in
      let b := arith_b op s0 st instr in
      fprf (fpscr (psArithGeneric fpu op s0 s1 st instr))
      = if gate (fpscr st) (arith_raised op a b) then fprf (fpscr st)
        else fprf_of (extend_float (arith_value fpu op a b)))
  /\ (forall flags s0 s1,
        let a := read_slot 0 st (frA instr) in
        let b := read_slot 0 st (frB instr) in
        let c := read_slot s0 st (frC instr) in
        fprf (fpscr (fmaGeneric fpu flags s0 s1 st instr))
        = if gate (fpscr st) (fma_raised flags a b c) then fprf (fpscr st)
          else fprf_of (extend_float (fma_value fpu flags a b c)))
  /\ (let b0 := paired0 (fpr st (frB instr)) in
      fprf (fpscr (ps_res fpu st instr))
      = if gate (fpscr st) (res_raised b0) then fprf (fpscr st)
        else fprf_of (fst (fp_widen fpu (res_value fpu b0))))
  /\ (let b0 := paired0 (fpr st (frB instr)) in
      fprf (fpscr (ps_rsqrte fpu st instr))
      = if gate (fpscr st) (rsqrte_raised b0) then fprf (fpscr st)
        else fprf_of (fst (fp_widen fpu (rsqrte_value fpu b0)))).
Proof.
  split; [intros; apply psArithGeneric_fprf|].
  split; [intros; apply fmaGeneric_fprf|].
  split; [apply ps_res_fprf|apply ps_rsqrte_fprf].
Qed.

(** ps_div of {1.0, 1.0f} by {2.0, 0.0f} with ZE set: slot 1 divides by
    zero, frD is not written, and FPRF becomes the class of 0.5. *)
Lemma fprf_follows_slot0_witness :
  let ze_set := mkFPSCR false false false false false false false false false false
                        false false false false false false false false false true
                        false 0 in
  let st := state_of ze_set (mkFPR 0x3FF0000000000000 0x3F800000)
                     (mkFPR 0x4000000000000000 0) (mkFPR 0 0) in
  fpr (ps_div sse2 st instr_abcd) 4 = fpr st 4
  /\ fprf (fpscr st) = 0
  /\ fprf (fpscr (ps_div sse2 st instr_abcd)) = 0x04.
Proof.
  intros ze_set st. split; [vm_compute; reflexivity|]. split; [reflexivity|].
  refine (eq_trans (proj1 (fprf_follows_slot0 sse2 st instr_abcd) PSDiv 0 1) _).
  vm_compute. reflexivity.
Defined.

(** ** The flags ps_sum1 does not guard *)

Lemma psArithSingle_ux (fpu : HostFPU) (op : PSArithOperator) (slotA slotB : Z)
    (st : ThreadState) (instr : Instruction) :
  ux (fpscr (fst (psArithSingle fpu op slotA slotB st instr))) = ux (fpscr st).
Proof.
  unfold psArithSingle.
  destruct (arith_flags op _ _ _) as [[[[vxisi vximz] vxidi] vxzdz] zx].
  cbn [with_fpscr fpscr].
  repeat match goal with
         | |- context [if ?c then _ else _] => destruct c
         end; try reflexivity.
  destruct op; reflexivity.
Qed.

Lemma sum1_ps0_underflow (fpu : HostFPU) (s : ThreadState) (c0 : Z) :
  is_nan c0 = false ->
  FE_UNDERFLOW (fenv (fst (sum1_ps0 fpu s c0)))
  = FE_UNDERFLOW (fenv s) || FE_UNDERFLOW (snd (fp_narrow fpu c0)).
Proof.
  intros Hc. unfold sum1_ps0. rewrite Hc.
  destruct (fp_narrow fpu c0) as [v [i z o u x]].
  destruct s as [rf fs c [ei ez eo eu ex]]. cbn.
  destruct ex, eo; reflexivity.
Qed.

(** X9. ps_sum1 restores only FE_INEXACT and FE_OVERFLOW around the
    conversion of frC lane 0 to float.  When the sum slot is not aborted and
    that lane is not a NaN, an underflow of the conversion stays raised in
    the host environment and ends in FPSCR.UX: the final UX is the old UX,
    or the host's underflow flag before the instruction, or the sum's own,
    or the conversion's. *)
Theorem sum1_conversion_underflow_reaches_ux (fpu : HostFPU)
    (st : ThreadState) (instr : Instruction) :
  let a := arith_a 0 st instr in
  let b := arith_b PSAdd 1 st instr in
  let c0 := paired0 (fpr st (frC instr)) in
  gate (fpscr st) (arith_raised PSAdd a b) = false ->
  is_nan c0 = false ->
  ux (fpscr (ps_sum1 fpu st instr))
  = ux (fpscr st) || FE_UNDERFLOW (fenv st)
    || FE_UNDERFLOW (arith_host_flags fpu PSAdd (fpscr st) a b)
    || FE_UNDERFLOW (snd (fp_narrow fpu c0)).
Proof.
  intros a b c0 Hg Hc.
  unfold ps_sum1, psSumGeneric. rewrite fpscr_record_cr1.
  assert (Hux : forall old s, ux (fpscr (updateFPSCR old s))
                              = ux (fpscr s) || FE_UNDERFLOW (fenv s))
    by reflexivity.
  rewrite Hux. unfold psSumGeneric_body.
  pose proof (psArithSingle_fenv fpu PSAdd 0 1 st instr) as He.
  pose proof (psArithSingle_ux fpu PSAdd 0 1 st instr) as Hu.
  destruct (psArithSingle_spec fpu PSAdd 0 1 st instr) as [R (F1 & _)].
  fold a b in R, He. rewrite Hg in R.
  destruct (psArithSingle fpu PSAdd 0 1 st instr) as [st1 w].
  cbn [fst snd] in He, Hu, R, F1. subst w.
  change (1 =? 0) with false. cbv iota.
  change (fpr (updateFPRF ?v st1)) with (fpr st1). rewrite F1. fold c0.
  set (s2 := updateFPRF _ st1).
  pose proof (sum1_ps0_underflow fpu s2 c0 Hc) as Hk.
  destruct (sum1_ps0_spec fpu s2 c0) as (_ & _ & S3).
  destruct (sum1_ps0 fpu s2 c0) as [st3 ps0]. cbn [fst] in Hk, S3.
  cbn [set_fpr fpscr fenv]. rewrite S3, Hk.
  change (fenv s2) with (fenv st1). change (ux (fpscr s2)) with (ux (fpscr st1)).
  rewrite Hu, He. cbn [fe_or FE_UNDERFLOW]. now rewrite !orb_assoc.
Qed.

(** 1.0 + 2.0f with frC lane 0 = 2^-150 + 2^-202: the sum is exact, the
    conversion of frC underflows, and UX is set. *)
Lemma sum1_conversion_underflow_reaches_ux_witness :
  let st := state_of fpscr_zero (mkFPR 0x3FF0000000000000 0)
                     (mkFPR 0 0x40000000) (mkFPR 0x3690000000000001 0) in
  arith_host_flags sse2 PSAdd (fpscr st) (arith_a 0 st instr_abcd)
    (arith_b PSAdd 1 st instr_abcd) = fe_none
  /\ ux (fpscr (ps_sum1 sse2 st instr_abcd)) = true.
Proof.
  intros st. split; [vm_compute; reflexivity|].
  refine (eq_trans (sum1_conversion_underflow_reaches_ux sse2 st instr_abcd _ _) _);
    vm_compute; reflexivity.
Defined.


(** ** Subtracting is adding the negation *)

Lemma class_neg_double (v : Z) :
  is_nan (neg_double v) = is_nan v
  /\ is_infinity (neg_double v) = is_infinity v
  /\ is_zero (neg_double v) = is_zero v
  /\ is_signalling_nan (neg_double v) = is_signalling_nan v
  /\ signbit (neg_double v) = negb (signbit v).
Proof.
  change (neg_double v) with (move_bits64 MoveNegate v).
  unfold is_signalling_nan, is_nan, is_infinity, is_zero, quiet.
  rewrite exponent_move_bits64, mantissa_move_bits64, signbit_move_bits64,
    move_bits64_spec by lia.
  repeat split.
Qed.

Lemma read_slot_negated (rb : Z) (s s' : ThreadState) (slot r : Z) :
  negated_at rb s s' ->
  read_slot slot s' r
  = if r =? rb then neg_double (read_slot slot s r) else read_slot slot s r.
Proof.
  intros (_ & _ & _ & Hr). unfold read_slot. rewrite Hr.
  destruct (r =? rb); [|reflexivity].
  destruct (slot =? 0); [reflexivity|].
  cbn [negate_fpr paired1 iw_paired1].
  apply (extend_float_move MoveNegate).
Qed.

Lemma fmaSingle_sub_neg (fpu : HostFPU) (neg : bool) (slotAB slotC : Z)
    (s s' : ThreadState) (instr : Instruction) :
  let fsub := if neg then Z.lor FMANegate FMASubtract else FMASubtract in
  let fadd := if neg then FMANegate else 0 in
  negated_at (frB instr) s s' ->
  frA instr <> frB instr -> frC instr <> frB instr ->
  is_nan (read_slot slotAB s (frB instr)) = false ->
  snd (fmaSingle fpu fsub slotAB slotC s instr)
  = snd (fmaSingle fpu fadd slotAB slotC s' instr)
  /\ negated_at (frB instr) (fst (fmaSingle fpu fsub slotAB slotC s instr))
                (fst (fmaSingle fpu fadd slotAB slotC s' instr)).
Proof.
  intros fsub fadd HR Ha Hc Hb.
  pose proof HR as (Hf & He & Hc1 & Hr).
  unfold fmaSingle.
  rewrite !(read_slot_negated _ _ _ _ _ HR), Z.eqb_refl.
  apply Z.eqb_neq in Ha, Hc. rewrite Ha, Hc.
  set (a := read_slot slotAB s (frA instr)).
  set (b := read_slot slotAB s (frB instr)) in *.
  set (c := read_slot slotC s (frC instr)).
  destruct (class_neg_double b) as (Nn & Ni & _ & Ns & Nb).
  assert (Hadd : fma_addend fadd (neg_double b) = fma_addend fsub b)
    by (subst fadd fsub; destruct neg; reflexivity).
  assert (Hsn : fma_vxsnan a (neg_double b) c = fma_vxsnan a b c)
    by (unfold fma_vxsnan; now rewrite Ns).
  assert (Hsi : fma_vxisi fadd a (neg_double b) c = fma_vxisi fsub a b c)
    by (unfold fma_vxisi; now rewrite Ni, Hadd).
  assert (Hng : has_flag fadd FMANegate = has_flag fsub FMANegate)
    by (subst fadd fsub; destruct neg; reflexivity).
  rewrite Hadd, Hsn, Hsi, Nn, Hb, Hng.
  repeat match goal with
         | |- context [ve (fpscr (with_fpscr ?g ?x))] =>
             change (ve (fpscr (with_fpscr g x))) with (ve (fpscr x))
         end.
  rewrite Hf.
  assert (Hdone : forall (g : FPSCR -> FPSCR) (h : FEnv -> FEnv),
             negated_at (frB instr)
               (with_fenv h (with_fpscr g s)) (with_fenv h (with_fpscr g s'))).
  { intros g h. repeat split; cbn; try congruence. exact Hr. }
  destruct ((fma_vxsnan a b c || fma_vxisi fsub a b c || fma_vximz a c)
            && ve _);
    [split; [reflexivity|exact (Hdone (fun f => or_vximz _ (or_vxisi _ (or_vxsnan _ f)))
                                      (fun e => e))]|].
  destruct (is_nan a);
    [split; [reflexivity|exact (Hdone (fun f => or_vximz _ (or_vxisi _ (or_vxsnan _ f)))
                                      (fun e => e))]|].
  destruct (is_nan c);
    [split; [reflexivity|exact (Hdone (fun f => or_vximz _ (or_vxisi _ (or_vxsnan _ f)))
                                      (fun e => e))]|].
  destruct (fma_vxisi fsub a b c || fma_vximz a c);
    [split; [reflexivity|exact (Hdone (fun f => or_vximz _ (or_vxisi _ (or_vxsnan _ f)))
                                      (fun e => e))]|].
  unfold host. cbn [fst snd].
  split; [reflexivity|].
  exact (Hdone (fun f => or_vximz _ (or_vxisi _ (or_vxsnan _ f)))
               (fun e => fe_or (fe_or e _) _)).
Qed.

(** X10. ps_msub is ps_madd of the negated frB, and ps_nmsub is ps_nmadd
    of it: when frB is none of frA, frC, frD and neither of its lanes is a
    NaN, running the subtracting form gives the same frD, FPSCR, CR1 and
    host flags as running the adding form on the state whose frB has the
    sign of both lanes flipped; the exception conditions agree as well. *)
Theorem msub_is_madd_of_negated (fpu : HostFPU) (neg : bool)
    (st : ThreadState) (instr : Instruction) :
  let sub := if neg then ps_nmsub fpu else ps_msub fpu in
  let add := if neg then ps_nmadd fpu else ps_madd fpu in
  let st_neg := set_fpr (frB instr) (negate_fpr (fpr st (frB instr))) st in
  frA instr <> frB instr -> frC instr <> frB instr -> frD instr <> frB instr ->
  is_nan (read_slot 0 st (frB instr)) = false ->
  is_nan (read_slot 1 st (frB instr)) = false ->
  fpr (sub st instr) (frD instr) = fpr (add st_neg instr) (frD instr)
  /\ fpscr (sub st instr) = fpscr (add st_neg instr)
  /\ cr1 (sub st instr) = cr1 (add st_neg instr)
  /\ fenv (sub st instr) = fenv (add st_neg instr).
Proof.
  intros sub add st_neg Ha Hc Hd Hb0 Hb1.
  assert (HR : negated_at (frB instr) st st_neg).
  { subst st_neg. repeat split. intros r. cbn [set_fpr fpr].
    destruct (Z.eqb_spec r (frB instr)) as [->|]; reflexivity. }
  assert (Hgen : sub = fmaGeneric fpu (if neg then Z.lor FMANegate FMASubtract
                                       else FMASubtract) 0 1
                 /\ add = fmaGeneric fpu (if neg then FMANegate else 0) 0 1)
    by (subst sub add; destruct neg; split; reflexivity).
  destruct Hgen as [-> ->]. unfold fmaGeneric.
  destruct (fmaSingle_sub_neg fpu neg 0 0 st st_neg instr HR Ha Hc Hb0) as [W0 R0].
  destruct (fmaSingle_spec fpu (if neg then Z.lor FMANegate FMASubtract else FMASubtract)
              0 0 st instr) as [_ (F1 & _)].
  destruct (fmaSingle fpu (if neg then Z.lor FMANegate FMASubtract else FMASubtract)
              0 0 st instr) as [s1 w0].
  destruct (fmaSingle fpu (if neg then FMANegate else 0) 0 0 st_neg instr) as [t1 v0].
  cbn [fst snd] in W0, R0, F1. subst v0.
  assert (Hb1' : is_nan (read_slot 1 s1 (frB instr)) = false)
    by (rewrite (read_slot_ext 1 (frB instr) st s1 F1); exact Hb1).
  destruct (fmaSingle_sub_neg fpu neg 1 1 s1 t1 instr R0 Ha Hc Hb1') as [W1 R1].
  destruct (fmaSingle fpu (if neg then Z.lor FMANegate FMASubtract else FMASubtract)
              1 1 s1 instr) as [s2 w1].
  destruct (fmaSingle fpu (if neg then FMANegate else 0) 1 1 t1 instr) as [t2 v1].
  cbn [fst snd] in W1, R1. subst v1.
  destruct R1 as (Hf & He & Hc1 & Hr).
  destruct HR as (Hf0 & _ & _ & _).
  apply Z.eqb_neq in Hd.
  rewrite !fpr_record_cr1, !fpscr_record_cr1, !fenv_record_cr1.
  assert (Hcr : forall x y : ThreadState,
             fpscr x = fpscr y -> cr1 x = cr1 y ->
             cr1 (record_cr1 instr x) = cr1 (record_cr1 instr y)).
  { intros x y H1 H2. unfold record_cr1, updateFloatConditionRegister.
    destruct (rc instr); cbn [cr1]; congruence. }
  assert (Hup : forall x y : ThreadState,
             fpscr x = fpscr y -> fenv x = fenv y ->
             fpscr (updateFPSCR (fpscr st) x) = fpscr (updateFPSCR (fpscr st_neg) y)).
  { intros x y H1 H2. unfold updateFPSCR. cbn [fpscr]. now rewrite H1, H2, Hf0. }
  destruct w0 as [d0|], w1 as [d1|].
  - split; [cbn; now rewrite !Z.eqb_refl|].
    split; [apply Hup; cbn; congruence|].
    split; [apply Hcr; [apply Hup; cbn; congruence|cbn; congruence]|reflexivity].
  - split; [cbn; now rewrite Hr, Hd|].
    split; [apply Hup; cbn; congruence|].
    split; [apply Hcr; [apply Hup; cbn; congruence|cbn; congruence]|reflexivity].
  - split; [cbn; now rewrite Hr, Hd|].
    split; [apply Hup; cbn; congruence|].
    split; [apply Hcr; [apply Hup; cbn; congruence|cbn; congruence]|reflexivity].
  - split; [cbn; now rewrite Hr, Hd|].
    split; [apply Hup; cbn; congruence|].
    split; [apply Hcr; [apply Hup; cbn; congruence|cbn; congruence]|reflexivity].
Qed.

(** 2 * 3 - 1 in both lanes: ps_msub on B = {1.0, 1.0f} and ps_madd on
    B = {-1.0, -1.0f} both write {5.0, 5.0f}. *)
Lemma msub_is_madd_of_negated_witness :
  let B := mkFPR 0x3FF0000000000000 0x3F800000 in
  let st := state_of fpscr_zero (mkFPR 0x4000000000000000 0x40000000) B
                     (mkFPR 0x4008000000000000 0x40400000) in
  fpr (ps_msub sse2 st instr_abcd) 4
  = fpr (ps_madd sse2 (set_fpr 2 (negate_fpr B) st) instr_abcd) 4
  /\ fpr (ps_msub sse2 st instr_abcd) 4 = mkFPR 0x4014000000000000 0x40A00000.
Proof.
  intros B st. split; [|vm_compute; reflexivity].
  apply (msub_is_madd_of_negated sse2 false st instr_abcd);
    try (intros H; discriminate H); vm_compute; reflexivity.
Defined.

(** ** The FPSCR after ps_res and ps_rsqrte *)

(** What [ps_res] and [ps_rsqrte] do to the FPSCR after raising their
    flags: an FPRF update and [updateFPSCR], nothing else. *)
Lemma ps_res_keeps (fpu : HostFPU) (T : Type) (P : FPSCR -> T)
    (st : ThreadState) (instr : Instruction) :
  (forall v f, P (set_fprf v f) = P f) ->
  (forall old s, P (fpscr (updateFPSCR old s)) = P (fpscr s)) ->
  let b0 := paired0 (fpr st (frB instr)) in
  let b1 := extend_float (paired1 (fpr st (frB instr))) in
  P (fpscr (ps_res fpu st instr))
  = P (or_zx (is_zero b0 || is_zero b1)
         (or_vxsnan (is_signalling_nan b0 || is_signalling_nan b1) (fpscr st))).
Proof.
  intros Hf Hu b0 b1. unfold ps_res. cbv zeta. fold b0 b1.
  set (st0 := with_fpscr (or_zx _) _).
  change (or_zx (is_zero b0 || is_zero b1)
            (or_vxsnan (is_signalling_nan b0 || is_signalling_nan b1) (fpscr st)))
    with (fpscr st0).
  clearbody st0.
  assert (HL : forall v b s, fpscr (fst (res_lane fpu v b s)) = fpscr s).
  { intros v b s. unfold res_lane. destruct (is_nan b); [reflexivity|].
    destruct v; reflexivity. }
  destruct (is_signalling_nan b0 && ve (fpscr st0) || is_zero b0 && ze (fpscr st0)).
  - destruct (is_signalling_nan b1 && ve (fpscr st0) || is_zero b1 && ze (fpscr st0)).
    + now rewrite fpscr_record_cr1, Hu.
    + pose proof (HL (is_signalling_nan b1) b1 st0) as Hs.
      destruct (res_lane fpu (is_signalling_nan b1) b1 st0) as [sc d1].
      cbn [fst] in Hs. rewrite fpscr_record_cr1, Hu. now rewrite Hs.
  - pose proof (HL (is_signalling_nan b0) b0 st0) as Hs0.
    destruct (res_lane fpu (is_signalling_nan b0) b0 st0) as [sa d0]. cbn [fst] in Hs0.
    assert (Hp : P (fpscr (updateFPRF_f fpu d0 sa)) = P (fpscr st0))
      by (cbn; now rewrite Hf, Hs0).
    set (sb := updateFPRF_f fpu d0 sa) in *. clearbody sb.
    destruct (is_signalling_nan b1 && ve (fpscr sb) || is_zero b1 && ze (fpscr sb)).
    + now rewrite fpscr_record_cr1, Hu.
    + pose proof (HL (is_signalling_nan b1) b1 sb) as Hs1.
      destruct (res_lane fpu (is_signalling_nan b1) b1 sb) as [sc d1]. cbn [fst] in Hs1.
      rewrite fpscr_record_cr1, Hu. cbn [set_fpr fpscr]. now rewrite Hs1.
Qed.

Lemma ps_rsqrte_keeps (fpu : HostFPU) (T : Type) (P : FPSCR -> T)
    (st : ThreadState) (instr : Instruction) :
  (forall v f, P (set_fprf v f) = P f) ->
  (forall old s, P (fpscr (updateFPSCR old s)) = P (fpscr s)) ->
  let b0 := paired0 (fpr st (frB instr)) in
  let b1 := extend_float (paired1 (fpr st (frB instr))) in
  let invalid_root := fun b =>
    negb (is_signalling_nan b) && signbit b && negb (is_zero b) in
  P (fpscr (ps_rsqrte fpu st instr))
  = P (or_zx (is_zero b0 || is_zero b1)
         (or_vxsqrt (invalid_root b0 || invalid_root b1)
            (or_vxsnan (is_signalling_nan b0 || is_signalling_nan b1) (fpscr st)))).
Proof.
  intros Hf Hu b0 b1 inv. unfold ps_rsqrte. cbv zeta. fold b0 b1.
  change (negb (is_signalling_nan b0) && signbit b0 && negb (is_zero b0)) with (inv b0).
  change (negb (is_signalling_nan b1) && signbit b1 && negb (is_zero b1)) with (inv b1).
  set (st0 := with_fpscr (or_zx _) _).
  change (or_zx (is_zero b0 || is_zero b1)
            (or_vxsqrt (inv b0 || inv b1)
               (or_vxsnan (is_signalling_nan b0 || is_signalling_nan b1) (fpscr st))))
    with (fpscr st0).
  clearbody st0.
  assert (HL : forall v b s, fpscr (fst (rsqrte_lane fpu v b s)) = fpscr s).
  { intros v b s. unfold rsqrte_lane. destruct (is_nan b); [reflexivity|].
    destruct v; reflexivity. }
  destruct ((is_signalling_nan b0 || inv b0) && ve (fpscr st0) || is_zero b0 && ze (fpscr st0)).
  - destruct ((is_signalling_nan b1 || inv b1) && ve (fpscr st0)
              || is_zero b1 && ze (fpscr st0)).
    + now rewrite fpscr_record_cr1, Hu.
    + pose proof (HL (is_signalling_nan b1 || inv b1) b1 st0) as Hs.
      destruct (rsqrte_lane fpu (is_signalling_nan b1 || inv b1) b1 st0) as [sc d1].
      cbn [fst] in Hs. rewrite fpscr_record_cr1, Hu. now rewrite Hs.
  - pose proof (HL (is_signalling_nan b0 || inv b0) b0 st0) as Hs0.
    destruct (rsqrte_lane fpu (is_signalling_nan b0 || inv b0) b0 st0) as [sa d0].
    cbn [fst] in Hs0.
    assert (Hp : P (fpscr (updateFPRF_f fpu d0 sa)) = P (fpscr st0))
      by (cbn; now rewrite Hf, Hs0).
    set (sb := updateFPRF_f fpu d0 sa) in *. clearbody sb.
    destruct ((is_signalling_nan b1 || inv b1) && ve (fpscr sb)
              || is_zero b1 && ze (fpscr sb)).
    + now rewrite fpscr_record_cr1, Hu.
    + pose proof (HL (is_signalling_nan b1 || inv b1) b1 sb) as Hs1.
      destruct (rsqrte_lane fpu (is_signalling_nan b1 || inv b1) b1 sb) as [sc d1].
      cbn [fst] in Hs1.
      rewrite fpscr_record_cr1, Hu. cbn [set_fpr fpscr]. now rewrite Hs1.
Qed.


(** ** VXSQRT *)

(** X11. After ps_rsqrte, VXSQRT is set iff it was set before or a lane of
    frB has its sign bit set and is neither a zero nor a signalling NaN.
    That condition holds for negative numbers and minus infinity and also
    for a quiet NaN whose sign bit is set; it fails for -0.0, which raises
    ZX instead.  ps_res never changes VXSQRT. *)
Theorem rsqrte_vxsqrt_cases (fpu : HostFPU) (st : ThreadState) (instr : Instruction) :
  let b0 := paired0 (fpr st (frB instr)) in
  let b1 := extend_float (paired1 (fpr st (frB instr))) in
  let invalid_root := fun b =>
    negb (is_signalling_nan b) && signbit b && negb (is_zero b) in
  vxsqrt (fpscr (ps_rsqrte fpu st instr))
  = vxsqrt (fpscr st) || (invalid_root b0 || invalid_root b1)
  /\ vxsqrt (fpscr (ps_res fpu st instr)) = vxsqrt (fpscr st)
  /\ (forall b, is_nan b = true -> quiet b = true -> signbit b = true ->
                invalid_root b = true)
  /\ (forall b, is_infinity b = true -> signbit b = true -> invalid_root b = true)
  /\ (forall b, is_zero b = true -> invalid_root b = false).
Proof.
  intros b0 b1 inv.
  split; [exact (ps_rsqrte_keeps fpu _ vxsqrt st instr
                   (fun _ _ => eq_refl) (fun _ _ => eq_refl))|].
  split; [exact (ps_res_keeps fpu _ vxsqrt st instr
                   (fun _ _ => eq_refl) (fun _ _ => eq_refl))|].
  subst inv. cbv beta.
  split; [|split].
  - intros b Hn Hq Hs. unfold is_signalling_nan, is_zero. rewrite Hn, Hq, Hs.
    unfold is_nan in Hn. apply andb_prop in Hn as [He _]. apply Z.eqb_eq in He.
    rewrite He. reflexivity.
  - intros b Hi Hs. unfold is_signalling_nan, is_nan, is_zero. rewrite Hs.
    unfold is_infinity in Hi. apply andb_prop in Hi as [He Hm].
    apply Z.eqb_eq in He. rewrite He, Hm. reflexivity.
  - intros b Hz. rewrite Hz. now rewrite andb_false_r.
Qed.


(** ** CR1 and the exception enables *)

Ltac split_ifs :=
  repeat match goal with
         | |- context [if ?c then _ else _] => destruct c
         end.

Lemma psArithSingle_controls (fpu : HostFPU) (op : PSArithOperator) (slotA slotB : Z)
    (st : ThreadState) (instr : Instruction) :
  controls (fst (psArithSingle fpu op slotA slotB st instr)) = controls st.
Proof.
  unfold psArithSingle.
  destruct (arith_flags op _ _ _) as [[[[vxisi vximz] vxidi] vxzdz] zx].
  cbn [with_fpscr fpscr]. split_ifs; try reflexivity.
  destruct op; reflexivity.
Qed.

Lemma fmaSingle_controls (fpu : HostFPU) (flags slotAB slotC : Z)
    (st : ThreadState) (instr : Instruction) :
  controls (fst (fmaSingle fpu flags slotAB slotC st instr)) = controls st.
Proof.
  unfold fmaSingle. cbn [with_fpscr fpscr].
  destruct (_ && ve _); [reflexivity|].
  destruct (is_nan _); [reflexivity|].
  destruct (is_nan _); [reflexivity|].
  destruct (is_nan _); [reflexivity|].
  destruct (_ || _); reflexivity.
Qed.

Lemma res_lane_controls (fpu : HostFPU) (v : bool) (b : Z) (s : ThreadState) :
  controls (fst (res_lane fpu v b s)) = controls s.
Proof. unfold res_lane. destruct (is_nan b); [|destruct v]; reflexivity. Qed.

Lemma rsqrte_lane_controls (fpu : HostFPU) (v : bool) (b : Z) (s : ThreadState) :
  controls (fst (rsqrte_lane fpu v b s)) = controls s.
Proof. unfold rsqrte_lane. destruct (is_nan b); [|destruct v]; reflexivity. Qed.

Lemma sum1_ps0_controls (fpu : HostFPU) (s : ThreadState) (c0 : Z) :
  controls (fst (sum1_ps0 fpu s c0)) = controls s.
Proof.
  unfold sum1_ps0. destruct (is_nan c0); [reflexivity|].
  cbn. destruct (FE_INEXACT (fenv s)), (FE_OVERFLOW (fenv s)); reflexivity.
Qed.


Lemma psArithGeneric_body (fpu : HostFPU) (op : PSArithOperator) (s0 s1 : Z)
    (st : ThreadState) (instr : Instruction) :
  body_then_record (psArithGeneric fpu op s0 s1) st instr.
Proof.
  unfold body_then_record, psArithGeneric.
  pose proof (psArithSingle_controls fpu op 0 s0 st instr) as C0.
  destruct (psArithSingle fpu op 0 s0 st instr) as [st1 w0]. cbn [fst] in C0.
  pose proof (psArithSingle_controls fpu op 1 s1 st1 instr) as C1.
  destruct (psArithSingle fpu op 1 s1 st1 instr) as [st2 w1]. cbn [fst] in C1.
  eexists. split; [reflexivity|].
  rewrite <- C0, <- C1. destruct w0, w1; reflexivity.
Qed.

Lemma fmaGeneric_body (fpu : HostFPU) (flags s0 s1 : Z)
    (st : ThreadState) (instr : Instruction) :
  body_then_record (fmaGeneric fpu flags s0 s1) st instr.
Proof.
  unfold body_then_record, fmaGeneric.
  pose proof (fmaSingle_controls fpu flags 0 s0 st instr) as C0.
  destruct (fmaSingle fpu flags 0 s0 st instr) as [st1 w0]. cbn [fst] in C0.
  pose proof (fmaSingle_controls fpu flags 1 s1 st1 instr) as C1.
  destruct (fmaSingle fpu flags 1 s1 st1 instr) as [st2 w1]. cbn [fst] in C1.
  eexists. split; [reflexivity|].
  rewrite <- C0, <- C1. destruct w0, w1; reflexivity.
Qed.

Lemma psSumGeneric_body_controls (fpu : HostFPU) (slot : Z)
    (st : ThreadState) (instr : Instruction) :
  body_then_record (psSumGeneric fpu slot) st instr.
Proof.
  unfold body_then_record, psSumGeneric, psSumGeneric_body.
  pose proof (psArithSingle_controls fpu PSAdd 0 1 st instr) as C0.
  destruct (psArithSingle fpu PSAdd 0 1 st instr) as [st1 w0]. cbn [fst] in C0.
  eexists. split; [reflexivity|]. rewrite <- C0.
  destruct w0 as [d|]; [|reflexivity].
  destruct (slot =? 0); [reflexivity|].
  pose proof (sum1_ps0_controls fpu (updateFPRF (extend_float d) st1)
                (paired0 (fpr (updateFPRF (extend_float d) st1) (frC instr)))) as C1.
  destruct (sum1_ps0 fpu _ _) as [st3 ps0]. cbn [fst] in C1.
  transitivity (controls st3); [reflexivity|]. rewrite C1. reflexivity.
Qed.

Lemma ps_res_body (fpu : HostFPU) (st : ThreadState) (instr : Instruction) :
  body_then_record (ps_res fpu) st instr.
Proof.
  unfold body_then_record, ps_res. cbv zeta.
  set (b0 := paired0 (fpr st (frB instr))).
  set (b1 := extend_float (paired1 (fpr st (frB instr)))).
  set (st0 := with_fpscr (or_zx _) _).
  assert (H0 : controls st0 = controls st) by reflexivity.
  rewrite <- H0. clearbody st0.
  destruct (_ && ve (fpscr st0) || _ && ze (fpscr st0)).
  - destruct (_ && ve (fpscr st0) || _ && ze (fpscr st0)).
    + eexists. split; reflexivity.
    + pose proof (res_lane_controls fpu (is_signalling_nan b1) b1 st0) as C.
      destruct (res_lane fpu _ b1 st0) as [sc d1]. cbn [fst] in C.
      eexists. split; [reflexivity|]. rewrite <- C. reflexivity.
  - pose proof (res_lane_controls fpu (is_signalling_nan b0) b0 st0) as C0.
    destruct (res_lane fpu _ b0 st0) as [sa d0]. cbn [fst] in C0.
    assert (Cu : controls (updateFPRF_f fpu d0 sa) = controls st0)
      by (rewrite <- C0; reflexivity).
    set (sb := updateFPRF_f fpu d0 sa) in *. clearbody sb.
    destruct (_ && ve (fpscr sb) || _ && ze (fpscr sb)).
    + eexists. split; [reflexivity|]. rewrite <- Cu. reflexivity.
    + pose proof (res_lane_controls fpu (is_signalling_nan b1) b1 sb) as C1.
      destruct (res_lane fpu _ b1 sb) as [sc d1]. cbn [fst] in C1.
      eexists. split; [reflexivity|]. rewrite <- Cu, <- C1. reflexivity.
Qed.

Lemma ps_rsqrte_body (fpu : HostFPU) (st : ThreadState) (instr : Instruction) :
  body_then_record (ps_rsqrte fpu) st instr.
Proof.
  unfold body_then_record, ps_rsqrte. cbv zeta.
  set (b0 := paired0 (fpr st (frB instr))).
  set (b1 := extend_float (paired1 (fpr st (frB instr)))).
  set (st0 := with_fpscr (or_zx _) _).
  assert (H0 : controls st0 = controls st) by reflexivity.
  rewrite <- H0. clearbody st0.
  destruct (_ && ve (fpscr st0) || _ && ze (fpscr st0)).
  - destruct (_ && ve (fpscr st0) || _ && ze (fpscr st0)).
    + eexists. split; reflexivity.
    + pose proof (rsqrte_lane_controls fpu
                    (is_signalling_nan b1
                     || negb (is_signalling_nan b1) && signbit b1 && negb (is_zero b1))
                    b1 st0) as C.
      destruct (rsqrte_lane fpu _ b1 st0) as [sc d1]. cbn [fst] in C.
      eexists. split; [reflexivity|]. rewrite <- C. reflexivity.
  - pose proof (rsqrte_lane_controls fpu
                  (is_signalling_nan b0
                   || negb (is_signalling_nan b0) && signbit b0 && negb (is_zero b0))
                  b0 st0) as C0.
    destruct (rsqrte_lane fpu _ b0 st0) as [sa d0]. cbn [fst] in C0.
    assert (Cu : controls (updateFPRF_f fpu d0 sa) = controls st0)
      by (rewrite <- C0; reflexivity).
    set (sb := updateFPRF_f fpu d0 sa) in *. clearbody sb.
    destruct (_ && ve (fpscr sb) || _ && ze (fpscr sb)).
    + eexists. split; [reflexivity|]. rewrite <- Cu. reflexivity.
    + pose proof (rsqrte_lane_controls fpu
                    (is_signalling_nan b1
                     || negb (is_signalling_nan b1) && signbit b1 && negb (is_zero b1))
                    b1 sb) as C1.
      destruct (rsqrte_lane fpu _ b1 sb) as [sc d1]. cbn [fst] in C1.
      eexists. split; [reflexivity|]. rewrite <- Cu, <- C1. reflexivity.
Qed.

Lemma moveGeneric_body (fpu : HostFPU) (mode : MoveMode)
    (st : ThreadState) (instr : Instruction) :
  body_then_record (moveGeneric fpu mode) st instr.
Proof.
  unfold body_then_record, moveGeneric.
  destruct (is_signalling_nan _); cbn [negb]; unfold host; cbn [fst snd];
    eexists; split; reflexivity.
Qed.

Lemma mergeGeneric_body (fpu : HostFPU) (flags : Z)
    (st : ThreadState) (instr : Instruction) :
  body_then_record (mergeGeneric fpu flags) st instr.
Proof.
  unfold body_then_record, mergeGeneric, mergeGeneric_with.
  destruct (has_flag flags MergeValue0);
    [|destruct (is_signalling_nan _); cbn [negb]]; unfold host; cbn [fst snd];
    eexists; split; reflexivity.
Qed.

Lemma ps_sel_body (fpu : HostFPU) (st : ThreadState) (instr : Instruction) :
  body_then_record (ps_sel fpu) st instr.
Proof.
  unfold body_then_record, ps_sel, host. cbv beta iota zeta. cbn [fst snd].
  eexists; split; reflexivity.
Qed.

Lemma registered_body (fpu : HostFPU) (i : PairedInstr)
    (st : ThreadState) (instr : Instruction) :
  body_then_record (registerPairedInstructions fpu i) st instr.
Proof.
  destruct i; cbn [registerPairedInstructions].
  - exact (psArithGeneric_body fpu PSAdd 0 1 st instr).
  - exact (psArithGeneric_body fpu PSDiv 0 1 st instr).
  - exact (psArithGeneric_body fpu PSMul 0 1 st instr).
  - exact (psArithGeneric_body fpu PSSub 0 1 st instr).
  - exact (moveGeneric_body fpu MoveAbsolute st instr).
  - exact (moveGeneric_body fpu MoveNegAbsolute st instr).
  - exact (moveGeneric_body fpu MoveNegate st instr).
  - exact (ps_sel_body fpu st instr).
  - exact (ps_res_body fpu st instr).
  - exact (ps_rsqrte_body fpu st instr).
  - exact (fmaGeneric_body fpu FMASubtract 0 1 st instr).
  - exact (fmaGeneric_body fpu 0 0 1 st instr).
  - exact (fmaGeneric_body fpu (Z.lor FMANegate FMASubtract) 0 1 st instr).
  - exact (fmaGeneric_body fpu FMANegate 0 1 st instr).
  - exact (moveGeneric_body fpu MoveDirect st instr).
  - exact (psSumGeneric_body_controls fpu 0 st instr).
  - exact (psSumGeneric_body_controls fpu 1 st instr).
  - exact (psArithGeneric_body fpu PSMul 0 0 st instr).
  - exact (psArithGeneric_body fpu PSMul 1 1 st instr).
  - exact (fmaGeneric_body fpu 0 0 0 st instr).
  - exact (fmaGeneric_body fpu 0 1 1 st instr).
  - exact (mergeGeneric_body fpu 0 st instr).
  - exact (mergeGeneric_body fpu MergeValue1 st instr).
  - exact (mergeGeneric_body fpu MergeValue0 st instr).
  - exact (mergeGeneric_body fpu (Z.lor MergeValue0 MergeValue1) st instr).
Qed.

(** X12. None of the twenty-five paired-single instructions changes an
    exception enable bit (VE, OE, UE, ZE, XE), and each treats CR1 by its
    record bit alone: with Rc clear CR1 is left as it was, with Rc set it is
    the summary FX, FEX, VX, OX of the FPSCR the instruction ends with. *)
Theorem paired_controls_and_cr1 (fpu : HostFPU) (i : PairedInstr)
    (st : ThreadState) (instr : Instruction) :
  let st' := registerPairedInstructions fpu i st instr in
  let f := fpscr st' in
  enables f = enables (fpscr st)
  /\ cr1 st' =
     if rc instr
     then Z.b2z (fx f) * 8 + Z.b2z (fex f) * 4 + Z.b2z (vx f) * 2 + Z.b2z (ox f)
     else cr1 st.
Proof.
  intros st' f. subst f st'.
  destruct (registered_body fpu i st instr) as (s & -> & Hc).
  unfold controls in Hc. apply (f_equal fst) in Hc as H1. apply (f_equal snd) in Hc as H2.
  cbn [fst snd] in H1, H2.
  rewrite fpscr_record_cr1. split; [exact H2|].
  unfold record_cr1, updateFloatConditionRegister.
  destruct (rc instr); [reflexivity|exact H1].
Qed.

(** ** Merging a register with itself *)

Lemma widen_quiet_no_flags (y : Z) :
  is_signalling_nan_f y = false -> snd (IEEE.widen y) = fe_none.
Proof.
  intros Hs. unfold IEEE.widen.
  destruct (IEEE.nan_of IEEE.binary32 y); [|reflexivity].
  cbn [snd]. change (IEEE.snan_of IEEE.binary32 y) with (is_signalling_nan_f y).
  now rewrite Hs.
Qed.

(** The truncation of a signalling NaN has an all-ones exponent; if its
    payload is lost it is an infinity, and [extend_float] of it is still the
    bit extension. *)
Lemma extend_truncated_snan (v : Z) :
  is_signalling_nan v = true ->
  extend_float (truncate_double_bits v)
  = extend_float_nan_bits (truncate_double_bits v).
Proof.
  intros Hs. unfold extend_float.
  set (t := truncate_double_bits v).
  destruct (is_nan_f t) eqn:Hn; [reflexivity|].
  assert (He : exponent_f t = 0xFF).
  { subst t. rewrite truncate_exponent.
    unfold is_signalling_nan, is_nan in Hs.
    apply andb_prop in Hs as [Hs _]. apply andb_prop in Hs as [Hs _].
    apply Z.eqb_eq in Hs. rewrite Hs. reflexivity. }
  assert (Hm : mantissa_f t = 0).
  { unfold is_nan_f in Hn. rewrite He in Hn. cbn [Z.eqb andb] in Hn.
    change (255 =? 255) with true in Hn. cbn [andb] in Hn.
    apply negb_false_iff in Hn. now apply Z.eqb_eq. }
  unfold IEEE.widen. change (IEEE.nan_of IEEE.binary32 t) with (is_nan_f t).
  rewrite Hn. cbn [fst]. unfold IEEE.decode.
  change (IEEE.exp_of IEEE.binary32 t) with (exponent_f t).
  change (IEEE.man_of IEEE.binary32 t) with (mantissa_f t).
  rewrite He, Hm.
  change (255 =? 0) with false.
  change (255 =? Z.ones (IEEE.ebits IEEE.binary32)) with true.
  change (0 =? 0) with true. cbv iota. cbn [IEEE.convert IEEE.encode].
  unfold IEEE.sign_bit, IEEE.sign_of.
  change (IEEE.mbits IEEE.binary64 + IEEE.ebits IEEE.binary64) with 63.
  change (IEEE.mbits IEEE.binary32 + IEEE.ebits IEEE.binary32) with 31.
  change (IEEE.mbits IEEE.binary64) with 52. change (IEEE.ebits IEEE.binary64) with 11.
  apply Z.bits_inj'. intros i Hi.
  rewrite extend_float_nan_bits_spec by assumption.
  rewrite Z.lor_spec, Z.shiftl_spec by assumption.
  assert (Hsb : Z.testbit (if Z.testbit t 31 then Z.shiftl 1 63 else 0) i
                = Z.testbit t 31 && (i =? 63)).
  { destruct (Z.testbit t 31); [|now rewrite Z.testbit_0_l].
    rewrite Z.shiftl_1_l. destruct (Z.eqb_spec i 63) as [->|Hne].
    - now rewrite Z.pow2_bits_true by lia.
    - now rewrite Z.pow2_bits_false by lia. }
  rewrite Hsb.
  destruct (Z.ltb_spec i 29).
  - ones_bits. destruct (Z.eqb_spec i 63); [lia|]. now rewrite andb_false_r.
  - destruct (Z.ltb_spec i 52).
    + ones_bits. destruct (Z.eqb_spec i 63); [lia|]. rewrite andb_false_r. cbn [orb].
      apply (f_equal (fun z => Z.testbit z (i - 29))) in Hm.
      unfold mantissa_f in Hm.
      rewrite Z.land_spec, Z.ones_spec_low, andb_true_r, Z.testbit_0_l in Hm by lia.
      now symmetry.
    + destruct (Z.ltb_spec i 63).
      * ones_bits. destruct (Z.eqb_spec i 63); [lia|]. now rewrite andb_false_r.
      * destruct (Z.eqb_spec i 63) as [->|Hne]; ones_bits.
        -- now rewrite andb_true_r, orb_false_r.
        -- now rewrite andb_false_r.
Qed.

(** X14. ps_merge01 with both sources the same register is ps_mr of that
    register on the IEEE host: for every state the two leave the same
    registers, FPSCR, CR1 and host flags, whatever the register holds. *)
Theorem merge01_same_source_is_mr (st : ThreadState) (instr : Instruction) :
  frA instr = frB instr ->
  let m := ps_merge01 sse2 st instr in
  let r := ps_mr sse2 st instr in
  (forall x, fpr m x = fpr r x)
  /\ fpscr m = fpscr r /\ cr1 m = cr1 r /\ fenv m = fenv r.
Proof.
  intros Hab m r. subst m r.
  unfold ps_merge01, ps_mr, mergeGeneric, mergeGeneric_with, moveGeneric.
  change (has_flag MergeValue1 MergeValue0) with false.
  change (has_flag MergeValue1 MergeValue1) with true. cbv iota.
  rewrite Hab. unfold truncate_double.
  change (idw (fpr st (frB instr))) with (paired0 (fpr st (frB instr))).
  set (b0 := paired0 (fpr st (frB instr))).
  change (paired1 (fpr st (frB instr))) with (iw_paired1 (fpr st (frB instr))).
  cbn [move_bits].
  destruct (is_signalling_nan b0) eqn:Hs; cbn [negb].
  - rewrite (extend_truncated_snan b0 Hs).
    unfold record_cr1. destruct (rc instr); repeat split.
  - unfold host. cbn [fst snd fp_narrow fp_widen sse2].
    destruct (narrow_facts b0) as (_ & _ & Hq). cbv zeta in Hq.
    rewrite (extend_float_is_widen _ Hq), (widen_quiet_no_flags _ Hq).
    unfold record_cr1, updateFloatConditionRegister.
    destruct (rc instr); cbn [fpr fpscr cr1 fenv set_fpr with_fenv];
      rewrite fe_or_none_r; repeat split.
Qed.

Lemma merge01_same_source_is_mr_witness :
  let st := state_of fpscr_zero (mkFPR 0 0) (mkFPR 0x7FF0000000000001 0x7F800001)
                     (mkFPR 0 0) in
  let instr := mkInstruction 2 2 3 4 false in
  fpr (ps_merge01 sse2 st instr) 4 = fpr (ps_mr sse2 st instr) 4
  /\ fpr (ps_mr sse2 st instr) 4 = mkFPR 0x7FF0000000000000 0x7F800001.
Proof.
  intros st instr. split.
  - exact (proj1 (merge01_same_source_is_mr st instr eq_refl) 4).
  - vm_compute. reflexivity.
Defined.

(** ** Lane 0 always holds a single-precision value *)

(** A float pattern is read through its low 32 bits only. *)
Lemma low32_range (v : Z) : 0 <= Z.land v (Z.ones 32) < 2 ^ 32.
Proof. rewrite Z.land_ones by lia. apply Z.mod_pos_bound. lia. Qed.

Lemma land_low32 (v m : Z) :
  Z.land (Z.ones 32) m = m -> Z.land (Z.land v (Z.ones 32)) m = Z.land v m.
Proof. intros H. now rewrite <- Z.land_assoc, H. Qed.

Lemma fields_low32 (v : Z) :
  IEEE.sign_of IEEE.binary32 (Z.land v (Z.ones 32)) = IEEE.sign_of IEEE.binary32 v
  /\ IEEE.exp_of IEEE.binary32 (Z.land v (Z.ones 32)) = IEEE.exp_of IEEE.binary32 v
  /\ IEEE.man_of IEEE.binary32 (Z.land v (Z.ones 32)) = IEEE.man_of IEEE.binary32 v.
Proof.
  unfold IEEE.sign_of, IEEE.exp_of, IEEE.man_of.
  change (IEEE.mbits IEEE.binary32 + IEEE.ebits IEEE.binary32) with 31.
  change (IEEE.mbits IEEE.binary32) with 23.
  change (IEEE.ebits IEEE.binary32) with 8.
  split; [|split].
  - rewrite Z.land_spec, Z.ones_spec_low by lia. apply andb_true_r.
  - rewrite Z.shiftr_land, <- Z.land_assoc. reflexivity.
  - now apply land_low32.
Qed.

Lemma extend_float_low32 (v : Z) :
  extend_float (Z.land v (Z.ones 32)) = extend_float v.
Proof.
  destruct (fields_low32 v) as (Hs & He & Hm).
  unfold extend_float.
  change (is_nan_f ?x) with (IEEE.nan_of IEEE.binary32 x).
  unfold IEEE.widen, IEEE.nan_of, IEEE.decode. rewrite Hs, He, Hm.
  unfold extend_float_nan_bits.
  rewrite !land_low32 by reflexivity.
  destruct (_ && _); reflexivity.
Qed.

(** Every extension of a float is the extension of a 32-bit pattern. *)
Lemma extend_float_single (y : Z) :
  exists y', 0 <= y' < 2 ^ 32 /\ extend_float y = extend_float y'.
Proof.
  exists (Z.land y (Z.ones 32)). split; [apply low32_range|].
  symmetry. apply extend_float_low32.
Qed.

Lemma single_of_extend (d y : Z) :
  d = extend_float y ->
  exists y', 0 <= y' < 2 ^ 32 /\ d = extend_float y'
             /\ Z.land d (Z.ones 29) = 0.
Proof.
  intros ->. destruct (extend_float_single y) as (y' & Hr & E).
  exists y'. split; [exact Hr|]. split; [exact E|apply extend_float_low29].
Qed.

Lemma gated_lane0_single (F : Family) (st : ThreadState) (instr : Instruction) :
  let st' := run_family sse2 F st instr in
  fpr st' (frD instr) = fpr st (frD instr)
  \/ exists y, 0 <= y < 2 ^ 32
               /\ idw (fpr st' (frD instr)) = extend_float y
               /\ Z.land (idw (fpr st' (frD instr))) (Z.ones 29) = 0.
Proof.
  intros st'. destruct (run_family_spec sse2 F st instr) as [Hw _].
  fold st' in Hw. rewrite Hw.
  destruct (gate_triggers F st instr); [now left|right].
  rewrite Z.eqb_refl.
  destruct F; cbn [written idw]; try (eapply single_of_extend; reflexivity).
  destruct (slot =? 0); cbn [idw]; eapply single_of_extend; reflexivity.
Qed.

Lemma move_lane0_single (mode : MoveMode) (st : ThreadState) (instr : Instruction) :
  exists y, 0 <= y < 2 ^ 32
            /\ idw (fpr (moveGeneric sse2 mode st instr) (frD instr)) = extend_float y
            /\ Z.land (idw (fpr (moveGeneric sse2 mode st instr) (frD instr)))
                      (Z.ones 29) = 0.
Proof.
  unfold moveGeneric.
  destruct (is_signalling_nan (paired0 (fpr st (frB instr)))) eqn:Hs; cbn [negb];
    unfold host; cbn [fst snd fp_narrow fp_widen sse2];
    rewrite fpr_record_cr1, fpr_set_fpr_same; cbn [idw].
  - apply (single_of_extend _ (move_bits mode (truncate_double_bits (idw (fpr st (frB instr)))))).
    rewrite extend_nan_bits_move, extend_float_move.
    pose proof (extend_truncated_snan _ Hs) as E. unfold paired0 in E.
    now rewrite E.
  - eapply single_of_extend. symmetry. apply extend_float_is_widen.
    rewrite snan32_move. apply narrow_facts.
Qed.

Lemma merge_lane0_single (flags : Z) (st : ThreadState) (instr : Instruction) :
  exists y, 0 <= y < 2 ^ 32
            /\ idw (fpr (mergeGeneric sse2 flags st instr) (frD instr)) = extend_float y
            /\ Z.land (idw (fpr (mergeGeneric sse2 flags st instr) (frD instr)))
                      (Z.ones 29) = 0.
Proof.
  unfold mergeGeneric, mergeGeneric_with.
  destruct (has_flag flags MergeValue0);
    [|destruct (is_signalling_nan (paired0 (fpr st (frA instr)))); cbn [negb]];
    unfold host; cbn [fst snd];
    rewrite fpr_record_cr1, fpr_set_fpr_same; cbn [idw];
    eapply single_of_extend; reflexivity.
Qed.

Lemma sel_lane0_single (st : ThreadState) (instr : Instruction) :
  exists y, 0 <= y < 2 ^ 32
            /\ idw (fpr (ps_sel sse2 st instr) (frD instr)) = extend_float y
            /\ Z.land (idw (fpr (ps_sel sse2 st instr) (frD instr))) (Z.ones 29) = 0.
Proof.
  unfold ps_sel, host. cbv beta iota zeta. cbn [fst snd].
  rewrite fpr_record_cr1, fpr_set_fpr_same. cbn [idw fp_widen fp_narrow fp_gef sse2].
  eapply single_of_extend. symmetry. apply extend_float_is_widen.
  destruct (fst (IEEE.ge _ _ _)); apply narrow_facts.
Qed.

(** X13. Whatever the state, after any of the twenty-five paired-single
    instructions on the IEEE host either frD is left as it was (an enabled
    exception aborted the write) or lane 0 of frD holds a single-precision
    value: it is the extension to double of a 32-bit float pattern, and so
    the low 29 mantissa bits of the double are zero. *)
Theorem paired_results_are_single (i : PairedInstr) (st : ThreadState)
    (instr : Instruction) :
  let st' := registerPairedInstructions sse2 i st instr in
  fpr st' (frD instr) = fpr st (frD instr)
  \/ exists y, 0 <= y < 2 ^ 32
               /\ idw (fpr st' (frD instr)) = extend_float y
               /\ Z.land (idw (fpr st' (frD instr))) (Z.ones 29) = 0.
Proof.
  intros st'. subst st'. destruct i; cbn [registerPairedInstructions].
  - apply (gated_lane0_single (FArith PSAdd 0 1)).
  - apply (gated_lane0_single (FArith PSDiv 0 1)).
  - apply (gated_lane0_single (FArith PSMul 0 1)).
  - apply (gated_lane0_single (FArith PSSub 0 1)).
  - right. apply move_lane0_single.
  - right. apply move_lane0_single.
  - right. apply move_lane0_single.
  - right. apply sel_lane0_single.
  - apply (gated_lane0_single FRes).
  - apply (gated_lane0_single FRsqrte).
  - apply (gated_lane0_single (FFma FMASubtract 0 1)).
  - apply (gated_lane0_single (FFma 0 0 1)).
  - apply (gated_lane0_single (FFma (Z.lor FMANegate FMASubtract) 0 1)).
  - apply (gated_lane0_single (FFma FMANegate 0 1)).
  - right. apply move_lane0_single.
  - apply (gated_lane0_single (FSum 0)).
  - apply (gated_lane0_single (FSum 1)).
  - apply (gated_lane0_single (FArith PSMul 0 0)).
  - apply (gated_lane0_single (FArith PSMul 1 1)).
  - apply (gated_lane0_single (FFma 0 0 0)).
  - apply (gated_lane0_single (FFma 0 1 1)).
  - right. apply merge_lane0_single.
  - right. apply merge_lane0_single.
  - right. apply merge_lane0_single.
  - right. apply merge_lane0_single.
Qed.

(** ** The merges on single-precision registers *)

(** X15. On the IEEE host, with a single-precision value in lane 0 of frA
    (the extension of a float, NaNs included), each ps_merge selects lanes
    exactly: lane 0 of frD is lane 0 of frA for ps_merge00 and ps_merge01
    and the extension of lane 1 of frA for ps_merge10 and ps_merge11; lane 1
    of frD is lane 1 of frB, bit for bit, for ps_merge01 and ps_merge11 and
    the truncation of lane 0 of frB otherwise.  A signalling NaN moved from
    lane 1 to lane 0 stays signalling, and the FPSCR is never changed. *)
Theorem merge_selects_lanes (flags : Z) (st : ThreadState) (instr : Instruction)
    (ya : Z) :
  0 <= ya < 2 ^ 32 ->
  paired0 (fpr st (frA instr)) = extend_float ya ->
  let A := fpr st (frA instr) in
  let B := fpr st (frB instr) in
  let st' := mergeGeneric sse2 flags st instr in
  idw (fpr st' (frD instr))
  = (if has_flag flags MergeValue0 then extend_float (paired1 A) else paired0 A)
  /\ iw_paired1 (fpr st' (frD instr))
     = (if has_flag flags MergeValue1 then paired1 B
        else truncate_double_bits (paired0 B))
  /\ (has_flag flags MergeValue0 = true ->
      is_signalling_nan (idw (fpr st' (frD instr))) = is_signalling_nan_f (paired1 A))
  /\ fpscr st' = fpscr st.
Proof.
  intros Hy HA A B st'. subst st'.
  unfold mergeGeneric, mergeGeneric_with. fold A B.
  assert (H0 : forall s d0 d1,
             let s' := record_cr1 instr (set_fpr (frD instr) (mkFPR d0 d1) s) in
             idw (fpr s' (frD instr)) = d0 /\ iw_paired1 (fpr s' (frD instr)) = d1
             /\ fpscr s' = fpscr s).
  { intros s d0 d1 s'. subst s'.
    rewrite fpr_record_cr1, fpscr_record_cr1, fpr_set_fpr_same. repeat split. }
  destruct (has_flag flags MergeValue0) eqn:F0.
  - destruct (H0 st (extend_float (paired1 A))
                (if has_flag flags MergeValue1 then paired1 B
                 else truncate_double (paired0 B))) as (K0 & K1 & K2).
    cbv zeta in K0, K1, K2. rewrite K0, K1, K2.
    split; [reflexivity|]. split; [reflexivity|].
    split; [intros _; apply extend_float_snan|reflexivity].
  - subst A. rewrite HA, extend_float_snan.
    destruct (is_signalling_nan_f ya) eqn:Hs; cbn [negb].
    + assert (Hn : is_nan_f ya = true)
        by (unfold is_signalling_nan_f in Hs; now apply andb_prop in Hs).
      destruct (H0 st (extend_float (truncate_double (extend_float ya)))
                  (if has_flag flags MergeValue1 then paired1 B
                   else truncate_double (paired0 B))) as (K0 & K1 & K2).
      cbv zeta in K0, K1, K2. rewrite K0, K1, K2.
      split; [|split; [reflexivity|split; [discriminate|reflexivity]]].
      unfold truncate_double. unfold extend_float at 2. rewrite Hn.
      now rewrite truncate_extend_nan by assumption.
    + unfold host. cbn [fst snd fp_narrow sse2].
      match goal with
      | |- context [record_cr1 instr (set_fpr (frD instr) (mkFPR ?d0 ?d1) ?s)] =>
          destruct (H0 s d0 d1) as (K0 & K1 & K2)
      end.
      cbv zeta in K0, K1, K2. rewrite K0, K1, K2.
      split; [|split; [reflexivity|split; [discriminate|reflexivity]]].
      rewrite (extend_float_is_widen ya Hs), narrow_widen_quiet by assumption.
      exact (extend_float_is_widen ya Hs).
Qed.

(** ps_merge10 of A = {1.0, signalling NaN} and B = {2.5, _}: lane 0 of frD
    is the NaN, still signalling, lane 1 is 2.5f. *)
Lemma merge_selects_lanes_witness :
  let st := state_of fpscr_zero (mkFPR 0x3FF0000000000000 0x7F800001)
                     (mkFPR 0x4004000000000000 0) (mkFPR 0 0) in
  fpr (ps_merge10 sse2 st instr_abcd) 4 = mkFPR 0x7FF0000020000000 0x40200000
  /\ is_signalling_nan (idw (fpr (ps_merge10 sse2 st instr_abcd) 4)) = true.
Proof.
  intros st.
  destruct (merge_selects_lanes MergeValue0 st instr_abcd 0x3F800000)
    as (_ & _ & K & _).
  - vm_compute. split; [discriminate|reflexivity].
  - vm_compute. reflexivity.
  - split; [vm_compute; reflexivity|]. exact (eq_trans (K eq_refl) eq_refl).
Defined.


(** ** No flag but the raised ones *)

Lemma or_bits_raised_or (f : FPSCR) (r0 r1 : Raised) :
  or_bits (or_bits (invalid_bits f) (raised_invalid r0)) (raised_invalid r1)
  = or_bits (invalid_bits f) (raised_invalid (raised_or r0 r1)).
Proof. unfold or_bits, invalid_bits, raised_invalid; cbn. now rewrite !orb_assoc. Qed.

Lemma psArithSingle_invalid (fpu : HostFPU) (op : PSArithOperator) (slotA slotB : Z)
    (st : ThreadState) (instr : Instruction) :
  invalid_bits (fpscr (fst (psArithSingle fpu op slotA slotB st instr)))
  = or_bits (invalid_bits (fpscr st))
      (raised_invalid (arith_raised op (arith_a slotA st instr)
                                       (arith_b op slotB st instr))).
Proof.
  unfold psArithSingle, arith_raised.
  fold (arith_a slotA st instr). fold (arith_b op slotB st instr).
  destruct (arith_flags op _ _ _) as [[[[vxisi vximz] vxidi] vxzdz] zx].
  cbn [with_fpscr fpscr].
  match goal with
  | |- _ = ?rhs =>
      assert (Hr : rhs = invalid_bits
                (or_zx zx (or_vxzdz vxzdz (or_vxidi vxidi (or_vximz vximz
                   (or_vxisi vxisi
                      (or_vxsnan (is_signalling_nan (arith_a slotA st instr)
                                  || is_signalling_nan (arith_b op slotB st instr))
                         (fpscr st))))))))
        by (unfold or_bits, invalid_bits, raised_invalid; cbn; now rewrite orb_false_r)
  end.
  rewrite Hr.
  repeat match goal with
         | |- context [if ?c then _ else _] => destruct c
         end; try reflexivity.
  destruct op; reflexivity.
Qed.

Lemma fmaSingle_invalid (fpu : HostFPU) (flags slotAB slotC : Z)
    (st : ThreadState) (instr : Instruction) :
  invalid_bits (fpscr (fst (fmaSingle fpu flags slotAB slotC st instr)))
  = or_bits (invalid_bits (fpscr st))
      (raised_invalid (fma_raised flags (read_slot slotAB st (frA instr))
                         (read_slot slotAB st (frB instr))
                         (read_slot slotC st (frC instr)))).
Proof.
  unfold fmaSingle, fma_raised.
  set (a := read_slot slotAB st (frA instr)).
  set (b := read_slot slotAB st (frB instr)).
  set (c := read_slot slotC st (frC instr)).
  cbn [with_fpscr fpscr].
  match goal with
  | |- _ = ?rhs =>
      assert (Hr : rhs = invalid_bits
                (or_vximz (fma_vximz a c) (or_vxisi (fma_vxisi flags a b c)
                   (or_vxsnan (fma_vxsnan a b c) (fpscr st)))))
        by (unfold or_bits, invalid_bits, raised_invalid; cbn; now rewrite !orb_false_r)
  end.
  rewrite Hr.
  destruct (_ && ve _); [reflexivity|].
  destruct (is_nan a); [reflexivity|].
  destruct (is_nan b); [reflexivity|].
  destruct (is_nan c); [reflexivity|].
  destruct (_ || _); reflexivity.
Qed.

Lemma invalid_bits_finish (old : FPSCR) (instr : Instruction) (s : ThreadState) :
  invalid_bits (fpscr (record_cr1 instr (updateFPSCR old s))) = invalid_bits (fpscr s).
Proof. now rewrite fpscr_record_cr1. Qed.

(** X16. A gated paired-single instruction sets no invalid-operation bit
    but those its slots raise: after the instruction each of VXSNAN, VXISI,
    VXIMZ, VXIDI, VXZDZ and VXSQRT is its old value or-ed with what slot 0
    or slot 1 raised, whether or not the write to frD was aborted. *)
Theorem invalid_bits_exact (fpu : HostFPU) (i : GatedInstr)
    (st : ThreadState) (instr : Instruction) :
  invalid_bits (fpscr (run fpu i st instr))
  = or_bits (invalid_bits (fpscr st)) (raised_invalid (raised (family i) st instr)).
Proof.
  rewrite run_is_family. unfold raised.
  destruct (family i) as [op s0 s1|slot|flags s0 s1| |]; cbn [run_family slot_raised].
  - unfold psArithGeneric.
    pose proof (psArithSingle_invalid fpu op 0 s0 st instr) as I0.
    destruct (psArithSingle_spec fpu op 0 s0 st instr) as [_ (F1 & _)].
    destruct (psArithSingle fpu op 0 s0 st instr) as [st1 w0]. cbn [fst] in I0, F1.
    pose proof (psArithSingle_invalid fpu op 1 s1 st1 instr) as I1.
    unfold arith_a, arith_b in I1. rewrite !(read_slot_ext _ _ st st1 F1) in I1.
    fold (arith_a 1 st instr) in I1. fold (arith_b op s1 st instr) in I1.
    destruct (psArithSingle fpu op 1 s1 st1 instr) as [st2 w1]. cbn [fst] in I1.
    rewrite invalid_bits_finish, <- or_bits_raised_or, <- I0, <- I1.
    destruct w0, w1; reflexivity.
  - unfold psSumGeneric, psSumGeneric_body.
    pose proof (psArithSingle_invalid fpu PSAdd 0 1 st instr) as I0.
    destruct (psArithSingle fpu PSAdd 0 1 st instr) as [st1 w0]. cbn [fst] in I0.
    rewrite invalid_bits_finish.
    assert (Hd : forall r, or_bits (invalid_bits (fpscr st)) (raised_invalid (raised_or r r))
                           = or_bits (invalid_bits (fpscr st)) (raised_invalid r))
      by (intros r; unfold or_bits, invalid_bits, raised_invalid, raised_or; cbn;
          now rewrite !orb_diag).
    rewrite Hd, <- I0.
    destruct w0 as [d|]; [|reflexivity].
    destruct (slot =? 0); [reflexivity|].
    destruct (sum1_ps0_spec fpu (updateFPRF (extend_float d) st1)
                (paired0 (fpr (updateFPRF (extend_float d) st1) (frC instr))))
      as (_ & _ & S3).
    destruct (sum1_ps0 fpu _ _) as [st3 ps0]. cbn [fst] in S3.
    cbn [set_fpr fpscr]. rewrite S3. reflexivity.
  - unfold fmaGeneric.
    pose proof (fmaSingle_invalid fpu flags 0 s0 st instr) as I0.
    destruct (fmaSingle_spec fpu flags 0 s0 st instr) as [_ (F1 & _)].
    destruct (fmaSingle fpu flags 0 s0 st instr) as [st1 w0]. cbn [fst] in I0, F1.
    pose proof (fmaSingle_invalid fpu flags 1 s1 st1 instr) as I1.
    rewrite !(read_slot_ext _ _ st st1 F1) in I1.
    destruct (fmaSingle fpu flags 1 s1 st1 instr) as [st2 w1]. cbn [fst] in I1.
    rewrite invalid_bits_finish, <- or_bits_raised_or, <- I0, <- I1.
    destruct w0, w1; reflexivity.
  - pose proof (ps_res_keeps fpu _ invalid_bits st instr
                  (fun _ _ => eq_refl) (fun _ _ => eq_refl)) as K.
    cbv zeta in K. etransitivity; [exact K|]. clear K.
    unfold or_bits, invalid_bits, raised_invalid, raised_or, res_raised, read_slot.
    cbn [vxsnan vxisi vximz vxidi vxzdz vxsqrt or_zx or_vxsnan map combine fst snd
         r_vxsnan r_vxisi r_vximz r_vxidi r_vxzdz r_vxsqrt Z.eqb].
    now rewrite !orb_false_r.
  - pose proof (ps_rsqrte_keeps fpu _ invalid_bits st instr
                  (fun _ _ => eq_refl) (fun _ _ => eq_refl)) as K.
    cbv zeta in K. etransitivity; [exact K|]. clear K.
    unfold or_bits, invalid_bits, raised_invalid, raised_or, rsqrte_raised, read_slot.
    cbn [vxsnan vxisi vximz vxidi vxzdz vxsqrt or_zx or_vxsnan or_vxsqrt map combine
         fst snd r_vxsnan r_vxisi r_vximz r_vxidi r_vxzdz r_vxsqrt Z.eqb].
    now rewrite !orb_false_r.
Qed.
